(** * Job board backend: Job Catalog and Application Tracker

    A shallow embedding of the request handlers and of the Mongoose models
    behind them, followed by the properties of the application lifecycle
    that the handlers establish.

    Where each part comes from
    - [applicationRoutes]: [src/Routes/applicationRoutes.js];
    - [applicationPages]: the two listings of the same file;
    - [jobRoutes]: the job routes, [src/unnamed/part_000];
    - [jobSchema] and the model [Job]: [src/unnamed/part_003];
    - [applicationSchema] and the model [Application]: the last part of
      [src/server.js] (from [const applicationSchema] on);
    - [UserSchema]: [src/unnamed/part_002].

    Conventions of the embedding
    - an ObjectId is its 96-bit value (an [N]); a route parameter or body
      field holding an identifier arrives as a string and goes through
      [castObjectId], which fails on anything but 24 hexadecimal digits;
    - a [Date] is its number of milliseconds (a [Z]); [new Date()] is the
      [now] argument of the handler;
    - a schema [Number] is an integer ([Z]);
    - every awaited storage call may fail: a handler runs against a fault
      schedule, one flag per awaited call, and a flagged call rejects
      without touching the store;
    - the result of the express-validator chain, which runs as middleware in
      front of a handler, reaches the handler as the list
      [validationResult(req).array()]; the authentication middleware has
      already attached [req.user];
    - of Mongoose the embedding keeps what the handlers rely on: casts and
      validators of the schema paths, [pre("save")] hooks run by [save] and
      not by [findByIdAndUpdate], [$set] of a nested object replacing it,
      [populate] giving [null] for a reference that resolves to nothing,
      the unique index on (job, applicant).  The [createdAt] and
      [updatedAt] stamps that [timestamps: true] maintains are not
      modelled. *)

From Stdlib Require Import ZArith NArith Ascii String List Bool Lia.
From stdpp Require Import base option gmap strings list fin_maps pretty.

Local Open Scope string_scope.
Local Open Scope Z_scope.

(** ** Strings, as JavaScript treats them (ASCII range) *)

Definition isWhiteSpace (c : ascii) : bool :=
  let n := N_of_ascii c in
  ((9 <=? n) && (n <=? 13))%N || (n =? 32)%N.

Fixpoint trimStart (s : string) : string :=
  match s with
  | String c r => if isWhiteSpace c then trimStart r else s
  | EmptyString => EmptyString
  end.

Fixpoint trimEnd (s : string) : string :=
  match s with
  | String c r =>
      match trimEnd r with
      | EmptyString => if isWhiteSpace c then EmptyString else String c EmptyString
      | r' => String c r'
      end
  | EmptyString => EmptyString
  end.

(** [String.prototype.trim] on the ASCII range, where the white space is
    the characters 9 to 13 and 32; the white space beyond ASCII (U+00A0,
    U+FEFF, the Unicode spaces) is not told from other characters, so
    what is stated of [trim] is stated of ASCII strings. *)
Definition trim (s : string) : string := trimEnd (trimStart s).

Definition lowerChar (c : ascii) : ascii :=
  let n := N_of_ascii c in
  if ((65 <=? n) && (n <=? 90))%N then ascii_of_N (n + 32) else c.

(** [String.prototype.toLowerCase] on the ASCII range, where it maps the
    letters A to Z; a character beyond ASCII is left as it is, so what is
    stated of [toLowerCase] is stated of ASCII strings. *)
Fixpoint toLowerCase (s : string) : string :=
  match s with
  | String c r => String (lowerChar c) (toLowerCase r)
  | EmptyString => EmptyString
  end.

(** [[...new Set(l)]]: the distinct elements of [l], each at the place of
    its first occurrence. *)
Fixpoint setOf_aux (seen : list string) (l : list string) : list string :=
  match l with
  | [] => []
  | x :: r => if bool_decide (x ∈ seen) then setOf_aux seen r
              else x :: setOf_aux (x :: seen) r
  end.

Definition setOf (l : list string) : list string := setOf_aux [] l.

Definition digitValue (c : ascii) : option N :=
  let n := N_of_ascii c in
  if ((48 <=? n) && (n <=? 57))%N then Some (n - 48)%N
  else if ((65 <=? n) && (n <=? 70))%N then Some (n - 55)%N
  else if ((97 <=? n) && (n <=? 102))%N then Some (n - 87)%N
  else None.

(** The digits of [s] in the given radix, read up to the first character
    that is not one; [None] when there is no digit at all. *)
Fixpoint readDigits (radix : N) (acc : option N) (s : string) : option N :=
  match s with
  | String c r =>
      match digitValue c with
      | Some d =>
          if (d <? radix)%N
          then readDigits radix (Some (default 0%N acc * radix + d)%N) r
          else acc
      | None => acc
      end
  | EmptyString => acc
  end.

Definition readMagnitude (s : string) : option N :=
  match s with
  | String "0" (String "x" r) | String "0" (String "X" r) => readDigits 16 None r
  | _ => readDigits 10 None s
  end.

(** [parseInt(s)] without a radix; [None] is [NaN]. *)
Definition parseInt (s : string) : option Z :=
  match trimStart s with
  | String "-" r => (fun n => - Z.of_N n) <$> readMagnitude r
  | String "+" r => Z.of_N <$> readMagnitude r
  | r => Z.of_N <$> readMagnitude r
  end.

(** ** Identifiers *)

(** An ObjectId is the number its 12 bytes spell. *)
Abbreviation ObjectId := N (only parsing).

Fixpoint readHex (acc : N) (s : string) : option N :=
  match s with
  | String c r =>
      match digitValue c with
      | Some d => readHex (acc * 16 + d)%N r
      | None => None
      end
  | EmptyString => Some acc
  end.

(** What the mapper does with an identifier given as a string: 24
    hexadecimal digits are an ObjectId, anything else is a cast error. *)
Definition castObjectId (s : string) : option ObjectId :=
  if (String.length s =? 24)%nat then readHex 0%N s else None.

(** ** Request values

    A member of a JSON request body, by what it denotes: [JNum] is a
    number (the amounts and counters of the schemas are integers), [JDate]
    a date given for a Date path, however the client spelt it, with the
    instant it denotes (no other path is given one).  [null] members and
    numbers spelt as strings are left out of the model. *)
#[local] Unset Elimination Schemes.
Inductive jsval : Type :=
  | JBool (b : bool)
  | JNum (n : Z)
  | JDate (ms : Z)
  | JStr (s : string)
  | JArr (items : list jsval)
  | JObj (members : list (string * jsval)).
#[local] Set Elimination Schemes.

(** [obj[key]] on an object kept as the list of its members (the keys of
    an object are distinct). *)
Fixpoint member {A} (key : string) (o : list (string * A)) : option A :=
  match o with
  | [] => None
  | (k, v) :: r => if String.eqb k key then Some v else member key r
  end.

(** ** Effects of a handler *)

(** What a rejected promise carries; the handlers look at [error.name]
    only. *)
Inductive Exn : Type :=
  | CastError
  | ValidationError
  | MongoServerError
  | TypeError
  | SyntaxError
  | Error (message : string).

#[global] Instance result_fmap : FMap (sum Exn) := fun A B f r =>
  match r with
  | inr a => inr (f a)
  | inl e => inl e
  end.

(** ** Schemas *)

(** The validators a schema declares on its paths. *)
Definition required (s : string) : bool := negb (String.eqb s "").

Definition maxlength (n : nat) (s : string) : bool := (String.length s <=? n)%nat.

Definition enum (values : list string) (s : string) : bool :=
  existsb (String.eqb s) values.

Definition minimum (lo : Z) (n : option Z) : bool :=
  match n with Some n => lo <=? n | None => true end.

Definition optionally {A} (check : A → bool) (o : option A) : bool :=
  match o with Some a => check a | None => true end.

(** The User model, [src/unnamed/part_002] *)
Module UserSchema.
Record t := mk {
  name : string;
  email : string;
  password : string;
  userType : string
}.
End UserSchema.

(** [req.user], as the authentication middleware attaches it; the handlers
    read [_id] and [role]. *)
Module Requester.
Record t := mk { _id : ObjectId; role : string }.
End Requester.

(** The [salary] sub-object of [jobSchema]. *)
Module Salary.
Record t := mk {
  min : option Z;
  max : option Z;
  currency : option string;
  period : option string
}.
End Salary.

(** The Job schema, [src/unnamed/part_003]: the paths of the schema, their
    casts and validators, and the [pre("save")] hook. *)
Module jobSchema.
Record t := mk {
  title : string;
  company : string;
  description : string;
  requirements : option string;
  location : string;
  type : string;
  category : string;
  salary : Salary.t;
  tags : list string;
  logo : string;
  experienceLevel : string;
  benefits : list string;
  applicationDeadline : option Z;
  isActive : bool;
  featured : bool;
  applicationsCount : Z;
  viewsCount : Z;
  createdBy : ObjectId
}.

Inductive path : Set :=
  | Ptitle | Pcompany | Pdescription | Prequirements | Plocation | Ptype
  | Pcategory | Psalary | Ptags | Plogo | PexperienceLevel | Pbenefits
  | PapplicationDeadline | PisActive | Pfeatured | PapplicationsCount
  | PviewsCount | PcreatedBy.

Definition paths : list path :=
  [Ptitle; Pcompany; Pdescription; Prequirements; Plocation; Ptype;
   Pcategory; Psalary; Ptags; Plogo; PexperienceLevel; Pbenefits;
   PapplicationDeadline; PisActive; Pfeatured; PapplicationsCount;
   PviewsCount; PcreatedBy].

Definition pathName (p : path) : string :=
  match p with
  | Ptitle => "title" | Pcompany => "company"
  | Pdescription => "description" | Prequirements => "requirements"
  | Plocation => "location" | Ptype => "type" | Pcategory => "category"
  | Psalary => "salary" | Ptags => "tags" | Plogo => "logo"
  | PexperienceLevel => "experienceLevel" | Pbenefits => "benefits"
  | PapplicationDeadline => "applicationDeadline"
  | PisActive => "isActive" | Pfeatured => "featured"
  | PapplicationsCount => "applicationsCount"
  | PviewsCount => "viewsCount" | PcreatedBy => "createdBy"
  end.

(** The path a key of an object names; a key that names none is dropped
    by the mapper. *)
Definition pathOf (key : string) : option path :=
  List.find (fun p => String.eqb (pathName p) key) paths.

(** What a stored Job holds at a path. *)
Inductive value : Type :=
  | VString (s : string)
  | VOptString (s : option string)
  | VStrings (l : list string)
  | VSalary (s : Salary.t)
  | VOptDate (d : option Z)
  | VOptNumber (n : option Z)
  | VBoolean (b : bool)
  | VNumber (n : Z)
  | VObjectId (i : ObjectId).

Definition get (p : path) (j : t) : value :=
  match p with
  | Ptitle => VString (title j) | Pcompany => VString (company j)
  | Pdescription => VString (description j)
  | Prequirements => VOptString (requirements j)
  | Plocation => VString (location j) | Ptype => VString (type j)
  | Pcategory => VString (category j) | Psalary => VSalary (salary j)
  | Ptags => VStrings (tags j) | Plogo => VString (logo j)
  | PexperienceLevel => VString (experienceLevel j)
  | Pbenefits => VStrings (benefits j)
  | PapplicationDeadline => VOptDate (applicationDeadline j)
  | PisActive => VBoolean (isActive j) | Pfeatured => VBoolean (featured j)
  | PapplicationsCount => VNumber (applicationsCount j)
  | PviewsCount => VNumber (viewsCount j)
  | PcreatedBy => VObjectId (createdBy j)
  end.

Definition typeEnum : list string :=
  ["full-time"; "part-time"; "contract"; "internship"; "remote"].

Definition categoryEnum : list string :=
  ["technology"; "marketing"; "design"; "sales"; "finance"; "healthcare";
   "education"; "engineering"; "operations"; "customer-service"; "other"].

Definition periodEnum : list string := ["hourly"; "monthly"; "yearly"].

Definition experienceLevelEnum : list string :=
  ["entry"; "mid"; "senior"; "lead"; "executive"].

(** *** Casts of the schema types *)

(** A String path takes a string as it is, a number and a boolean by
    their [toString()], and an object by its [_id] when that is a string
    that is not empty; an array and any other object are refused. *)
Definition castString (v : jsval) : Exn + string :=
  match v with
  | JStr s => inr s
  | JNum n => inr (pretty n)
  | JBool b => inr (if b then "true" else "false")
  | JObj o =>
      match member "_id" o with
      | Some (JStr s) => if String.eqb s "" then inl CastError else inr s
      | _ => inl CastError
      end
  | _ => inl CastError
  end.

Definition castNumber (v : jsval) : Exn + Z :=
  match v with JNum n => inr n | _ => inl CastError end.

(** A Boolean path takes [true], ["true"], [1], ["1"] and ["yes"] for
    true, and [false], ["false"], [0], ["0"] and ["no"] for false. *)
Definition castBoolean (v : jsval) : Exn + bool :=
  match v with
  | JBool b => inr b
  | JNum n => if n =? 1 then inr true else if n =? 0 then inr false else inl CastError
  | JStr s =>
      if existsb (String.eqb s) ["true"; "1"; "yes"] then inr true
      else if existsb (String.eqb s) ["false"; "0"; "no"] then inr false
      else inl CastError
  | _ => inl CastError
  end.

Definition castDate (v : jsval) : Exn + Z :=
  match v with JDate d => inr d | _ => inl CastError end.

Fixpoint castStrings (l : list jsval) : Exn + list string :=
  match l with
  | [] => inr []
  | v :: r =>
      match castString v, castStrings r with
      | inr s, inr r' => inr (s :: r')
      | inl e, _ => inl e
      | _, inl e => inl e
      end
  end.

(** An array path given a single value takes it as a one-element array. *)
Definition castStringArray (v : jsval) : Exn + list string :=
  match v with
  | JArr l => castStrings l
  | _ => castStrings [v]
  end.

Definition castOptional {A} (cast : jsval → Exn + A) (v : option jsval)
    : Exn + option A :=
  match v with
  | None => inr None
  | Some v =>
      match cast v with inr a => inr (Some a) | inl e => inl e end
  end.

(** The members [min], [max], [currency] and [period] of a [salary]
    object, each cast to its type; other members are dropped. *)
Definition castSalary (v : jsval) : Exn + Salary.t :=
  match v with
  | JObj o =>
      match castOptional castNumber (member "min" o),
            castOptional castNumber (member "max" o),
            castOptional castString (member "currency" o),
            castOptional castString (member "period" o) with
      | inr mn, inr mx, inr c, inr p => inr (Salary.mk mn mx c p)
      | _, _, _, _ => inl CastError
      end
  | _ => inl CastError
  end.

Definition castCreatedBy (v : jsval) : Exn + ObjectId :=
  match v with
  | JStr s =>
      match castObjectId s with Some i => inr i | None => inl CastError end
  | _ => inl CastError
  end.

(** Setting a [salary] object on a document under construction keeps the
    defaults of the members it does not give; [$set] on a stored
    document replaces the sub-object. *)
Definition mergeSalary (old new : Salary.t) : Salary.t :=
  Salary.mk (Salary.min new) (Salary.max new)
    (match Salary.currency new with Some c => Some c | None => Salary.currency old end)
    (match Salary.period new with Some p => Some p | None => Salary.period old end).

(** Assignment of a cast value to a path, with the setters of the path
    ([trim], [lowercase]). *)
Definition set (onNew : bool) (p : path) (v : jsval) (j : t) : Exn + t :=
  let 'mk a b c d e f g h i k l m n o q r s u := j in
  match p with
  | Ptitle => (fun x => mk (trim x) b c d e f g h i k l m n o q r s u) <$> castString v
  | Pcompany => (fun x => mk a (trim x) c d e f g h i k l m n o q r s u) <$> castString v
  | Pdescription => (fun x => mk a b x d e f g h i k l m n o q r s u) <$> castString v
  | Prequirements => (fun x => mk a b c (Some x) e f g h i k l m n o q r s u) <$> castString v
  | Plocation => (fun x => mk a b c d (trim x) f g h i k l m n o q r s u) <$> castString v
  | Ptype => (fun x => mk a b c d e x g h i k l m n o q r s u) <$> castString v
  | Pcategory => (fun x => mk a b c d e f x h i k l m n o q r s u) <$> castString v
  | Psalary =>
      (fun x => mk a b c d e f g (if onNew then mergeSalary h x else x) i k l m n o q r s u)
        <$> castSalary v
  | Ptags =>
      (fun x => mk a b c d e f g h (List.map (fun t => toLowerCase (trim t)) x) k l m n o q r s u)
        <$> castStringArray v
  | Plogo => (fun x => mk a b c d e f g h i x l m n o q r s u) <$> castString v
  | PexperienceLevel => (fun x => mk a b c d e f g h i k x m n o q r s u) <$> castString v
  | Pbenefits => (fun x => mk a b c d e f g h i k l x n o q r s u) <$> castStringArray v
  | PapplicationDeadline => (fun x => mk a b c d e f g h i k l m (Some x) o q r s u) <$> castDate v
  | PisActive => (fun x => mk a b c d e f g h i k l m n x q r s u) <$> castBoolean v
  | Pfeatured => (fun x => mk a b c d e f g h i k l m n o x r s u) <$> castBoolean v
  | PapplicationsCount => (fun x => mk a b c d e f g h i k l m n o q x s u) <$> castNumber v
  | PviewsCount => (fun x => mk a b c d e f g h i k l m n o q r x u) <$> castNumber v
  | PcreatedBy => (fun x => mk a b c d e f g h i k l m n o q r s x) <$> castCreatedBy v
  end.

(** *** Validators *)

(** The validators declared on a path (and, for [salary], on its
    members). *)
Definition validPath (j : t) (p : path) : bool :=
  match p with
  | Ptitle => required (title j) && maxlength 100 (title j)
  | Pcompany => required (company j) && maxlength 100 (company j)
  | Pdescription => required (description j) && maxlength 5000 (description j)
  | Prequirements => optionally (maxlength 3000) (requirements j)
  | Plocation => required (location j)
  | Ptype => required (type j) && enum typeEnum (type j)
  | Pcategory => required (category j) && enum categoryEnum (category j)
  | Psalary =>
      minimum 0 (Salary.min (salary j)) && minimum 0 (Salary.max (salary j))
      && optionally (enum periodEnum) (Salary.period (salary j))
  | PexperienceLevel => enum experienceLevelEnum (experienceLevel j)
  | _ => true
  end.

Definition validate (j : t) : bool := forallb (validPath j) paths.

(** *** The hook

<<
jobSchema.pre("save", function (next) {
  if (this.salary.min && this.salary.max && this.salary.min > this.salary.max) {
    const error = new Error("Minimum salary cannot be greater than maximum salary");
    return next(error);
  }
  next();
});
>> *)
Definition truthy (n : option Z) : bool :=
  match n with Some n => negb (n =? 0) | None => false end.

(** [a > b] on two numbers that may be [undefined] *)
Definition greater (a b : option Z) : bool :=
  match a, b with
  | Some x, Some y => x >? y
  | _, _ => false
  end.

Definition preSave (j : t) : Exn + t :=
  if truthy (Salary.min (salary j)) && truthy (Salary.max (salary j))
     && greater (Salary.min (salary j)) (Salary.max (salary j))
  then inl (Error "Minimum salary cannot be greater than maximum salary")
  else inr j.

(** The document [new Job({})] starts from: the defaults of the schema,
    a required string not yet given being the empty string (which the
    [required] validator rejects like an absent one). *)
Definition defaults (creator : ObjectId) : t :=
  mk "" "" "" None "" "" "" (Salary.mk None None (Some "USD") (Some "yearly"))
     [] "" "mid" [] None true false 0 0 creator.

(** The document that the mapper makes of a stored one when it reads it
    other than [lean]: a path that has a default and that the stored
    document lacks shows its default.  The stored document can lack
    [salary.currency] and [salary.period], after a [$set] of [salary]. *)
Definition hydrate (j : t) : t :=
  let 'mk a b c e f g h i k l m n o p q r s u := j in
  mk a b c e f g h
     (Salary.mk (Salary.min i) (Salary.max i)
        (match Salary.currency i with Some x => Some x | None => Some "USD" end)
        (match Salary.period i with Some x => Some x | None => Some "yearly" end))
     k l m n o p q r s u.

(** [{ $inc: { viewsCount: d } }] and [{ $inc: { applicationsCount: d } }];
    the [updatedAt] stamp that such an update moves as well is not part
    of a modelled Job. *)
Definition incViewsCount (d : Z) (j : t) : t :=
  let 'mk a b c e f g h i k l m n o p q r s u := j in
  mk a b c e f g h i k l m n o p q r (s + d) u.

Definition incApplicationsCount (d : Z) (j : t) : t :=
  let 'mk a b c e f g h i k l m n o p q r s u := j in
  mk a b c e f g h i k l m n o p q (r + d) s u.
End jobSchema.

(** The Application schema, in [src/server.js] after the server itself *)
Module applicationSchema.
Record t := mk {
  job : ObjectId;
  applicant : ObjectId;
  coverLetter : option string;
  resumeLink : string;
  status : string;
  notes : option string;
  reviewedAt : option Z;
  reviewedBy : option ObjectId
}.

Definition statusEnum : list string :=
  ["pending"; "reviewed"; "shortlisted"; "interviewed"; "hired"; "rejected"].

Definition validate (a : t) : bool :=
  optionally (maxlength 2000) (coverLetter a)
  && required (resumeLink a)
  && enum statusEnum (status a)
  && optionally (maxlength 1000) (notes a).

(**
<<
applicationSchema.pre("save", function (next) {
  if (this.isModified("status") && this.status !== "pending" && !this.reviewedAt) {
    this.reviewedAt = new Date();
  }
  next();
});
>> *)
Definition preSave (isModifiedStatus : bool) (now : Z) (a : t) : t :=
  if isModifiedStatus && negb (String.eqb (status a) "pending")
     && negb (bool_decide (is_Some (reviewedAt a)))
  then mk (job a) (applicant a) (coverLetter a) (resumeLink a) (status a)
          (notes a) (Some now) (reviewedBy a)
  else a.
End applicationSchema.

(** ** The store and the effects of a handler *)

(** The three collections, keyed by [_id]. *)
Record Store := mkStore {
  jobs : gmap N jobSchema.t;
  applications : gmap N applicationSchema.t;
  users : gmap N UserSchema.t
}.

Definition emptyStore : Store := mkStore ∅ ∅ ∅.

Definition withJobs (f : gmap N jobSchema.t → gmap N jobSchema.t) (st : Store) : Store :=
  mkStore (f (jobs st)) (applications st) (users st).

Definition withApplications
    (f : gmap N applicationSchema.t → gmap N applicationSchema.t) (st : Store) : Store :=
  mkStore (jobs st) (f (applications st)) (users st).

(** A computation of a handler: it runs on the store and on the fault
    schedule of the awaited storage calls still to come, and either throws
    or returns. *)
Definition M (A : Type) : Type :=
  Store * list bool → (Exn + A) * (Store * list bool).

#[global] Instance M_ret : MRet M := fun A a w => (inr a, w).

#[global] Instance M_bind : MBind M := fun A B k m w =>
  match m w with
  | (inr a, w') => k a w'
  | (inl e, w') => (inl e, w')
  end.

Definition throw {A} (e : Exn) : M A := fun w => (inl e, w).

(** [await] of one storage call.  The call takes the next flag of the
    schedule (an exhausted schedule raises nothing); when the flag is set
    the call rejects and the store is as it was. *)
Definition await {A} (op : Store → Exn + (A * Store)) : M A := fun '(st, faults) =>
  match faults with
  | true :: rest => (inl (Error "storage unavailable"), (st, rest))
  | _ =>
      match op st with
      | inr (a, st') => (inr a, (st', tail faults))
      | inl e => (inl e, (st, tail faults))
      end
  end.

(** [await Promise.all([p, q])]: both calls are issued and each one takes
    effect or fails on its own; the whole rejects when either does. *)
Definition promiseAll {A B} (p : M A) (q : M B) : M (A * B) := fun w =>
  let '(ra, w1) := p w in
  let '(rb, w2) := q w1 in
  match ra, rb with
  | inr a, inr b => (inr (a, b), w2)
  | inl e, _ => (inl e, w2)
  | _, inl e => (inl e, w2)
  end.

(** The identifier of a query condition is cast before the query is sent. *)
Definition castId (s : string) : M ObjectId :=
  match castObjectId s with
  | Some i => mret i
  | None => throw CastError
  end.

(** A value or a thrown exception computed without the store. *)
Definition lift {A} (r : Exn + A) : M A :=
  match r with
  | inr a => mret a
  | inl e => throw e
  end.

(** ** Queries on the Job collection *)

(** The value of a key of a filter object. *)
Inductive condition : Type :=
  | Equals (v : jsval)                (* a literal: [true], a string, [{}] *)
  | AnyOf (values : list string)      (* [{ $in: values }] *)
  | Matches (test : string → bool)    (* a [RegExp] *)
  | TextSearch (keyword : string)     (* [{ $search: keyword }], under [$text] *)
  | Gte (n : option Z)                (* [{ $gte: n }]; [None] is [NaN] *)
  | Lte (n : option Z).               (* [{ $lte: n }] *)

Inductive order : Set := Ascending | Descending | TextScore.

(** [obj[key] = v] on an object kept as the list of its members. *)
Fixpoint assign {A} (key : string) (v : A) (o : list (string * A)) : list (string * A) :=
  match o with
  | [] => [(key, v)]
  | (k, v') :: r => if String.eqb k key then (k, v) :: r else (k, v') :: assign key v r
  end.

(** What the handlers take from the platform and from the storage engine
    without this development looking inside: the compilation of a
    case-insensitive [RegExp] ([None] when the pattern is a syntax error),
    the full-text match of [$text], and the order of two documents under
    a sort specification. *)
Record Engine := mkEngine {
  regExp : string → option (string → bool);
  textSearch : string → jobSchema.t → bool;
  precedes : list (string * order) → ObjectId * jobSchema.t → ObjectId * jobSchema.t → bool
}.

Module Query.
Inductive kind : Set := KString | KNumber | KBoolean | KText | KOther.

(** The part of a Job a filter key addresses. *)
Definition field (key : string) (d : jobSchema.t) : option jobSchema.value :=
  if String.eqb key "salary.min" then Some (jobSchema.VOptNumber (Salary.min (jobSchema.salary d)))
  else if String.eqb key "salary.max" then Some (jobSchema.VOptNumber (Salary.max (jobSchema.salary d)))
  else (fun p => jobSchema.get p d) <$> jobSchema.pathOf key.

Definition kindOf (key : string) : kind :=
  if String.eqb key "$text" then KText
  else match field key (jobSchema.defaults 0%N) with
       | Some (jobSchema.VString _) => KString
       | Some (jobSchema.VOptNumber _) | Some (jobSchema.VNumber _) => KNumber
       | Some (jobSchema.VBoolean _) => KBoolean
       | _ => KOther
       end.

(** Whether the filter is accepted when the mapper casts the query to
    the schema.  A condition that is a plain object without operators,
    as [{}] is, goes through the cast of its path like any literal, and
    the cast of a Number path refuses it. *)
Definition accepts (key : string) (c : condition) : bool :=
  match kindOf key, c with
  | KText, TextSearch _ => true
  | KString, (Equals (JStr _) | AnyOf _ | Matches _) => true
  | KBoolean, Equals (JBool _) => true
  | KNumber, (Equals (JNum _) | Gte (Some _) | Lte (Some _)) => true
  | _, _ => false
  end.

(** Whether a stored Job satisfies one condition of an accepted filter.
    A literal is matched by equality with the stored value, so a plain
    object equals neither a number nor an absent field; a comparison is
    satisfied by no absent field. *)
Definition holds (eng : Engine) (key : string) (c : condition) (d : jobSchema.t) : bool :=
  match c, field key d with
  | TextSearch keyword, _ => textSearch eng keyword d
  | Equals (JStr s), Some (jobSchema.VString x) => String.eqb s x
  | AnyOf values, Some (jobSchema.VString x) => existsb (String.eqb x) values
  | Matches test, Some (jobSchema.VString x) => test x
  | Equals (JBool b), Some (jobSchema.VBoolean x) => Bool.eqb b x
  | Equals (JNum n), Some (jobSchema.VOptNumber (Some x))
  | Equals (JNum n), Some (jobSchema.VNumber x) => n =? x
  | Gte (Some n), Some (jobSchema.VOptNumber (Some x))
  | Gte (Some n), Some (jobSchema.VNumber x) => n <=? x
  | Lte (Some n), Some (jobSchema.VOptNumber (Some x))
  | Lte (Some n), Some (jobSchema.VNumber x) => x <=? n
  | _, _ => false
  end.

Definition matches (eng : Engine) (q : list (string * condition)) (d : jobSchema.t) : bool :=
  forallb (fun '(key, c) => holds eng key c d) q.

(** Stable insertion sort under the order of the engine. *)
Fixpoint insert (before : ObjectId * jobSchema.t → ObjectId * jobSchema.t → bool)
    (x : ObjectId * jobSchema.t) (l : list (ObjectId * jobSchema.t)) :=
  match l with
  | [] => [x]
  | y :: r => if before y x then y :: insert before x r else x :: l
  end.

Definition sort (before : ObjectId * jobSchema.t → ObjectId * jobSchema.t → bool)
    (l : list (ObjectId * jobSchema.t)) : list (ObjectId * jobSchema.t) :=
  foldr (insert before) [] l.
End Query.

(** ** The models *)

(** [mongoose.model("Job", jobSchema)] *)
Module Job.
Definition findById (i : ObjectId) : M (option jobSchema.t) :=
  await (fun st => inr (jobs st !! i, st)).

(** [Job.findByIdAndUpdate(i, { $inc: { viewsCount: d } })] *)
Definition findByIdAndUpdate_incViewsCount (i : ObjectId) (d : Z) : M (option jobSchema.t) :=
  await (fun st => inr (jobs st !! i, withJobs (alter (jobSchema.incViewsCount d) i) st)).

(** [Job.findByIdAndUpdate(i, { $inc: { applicationsCount: d } })] *)
Definition findByIdAndUpdate_incApplicationsCount (i : ObjectId) (d : Z)
    : M (option jobSchema.t) :=
  await (fun st =>
    inr (jobs st !! i, withJobs (alter (jobSchema.incApplicationsCount d) i) st)).

(** The [$set] of an update object: every key that names a path is cast
    and assigned in turn. *)
Fixpoint applySet (onNew : bool) (updates : list (string * jsval)) (j : jobSchema.t)
    : Exn + jobSchema.t :=
  match updates with
  | [] => inr j
  | (key, v) :: r =>
      match jobSchema.pathOf key with
      | Some p =>
          match jobSchema.set onNew p v j with
          | inr j' => applySet onNew r j'
          | inl e => inl e
          end
      | None => applySet onNew r j
      end
  end.

(** The validators that [runValidators] runs: those of the updated
    paths. *)
Definition updateValidators (updates : list (string * jsval)) (j : jobSchema.t) : bool :=
  forallb (fun '(key, _) =>
    match jobSchema.pathOf key with
    | Some p => jobSchema.validPath j p
    | None => true
    end) updates.

(** [Job.findByIdAndUpdate(i, { $set: updates }, { new: true, runValidators: true })].
    No [save] takes place, so the [pre("save")] hook is not run.  The
    result is the updated document as the mapper reads it back. *)
Definition findByIdAndUpdate_set (i : ObjectId) (updates : list (string * jsval))
    : M (option jobSchema.t) :=
  await (fun st =>
    match jobs st !! i with
    | None => inr (None, st)
    | Some j =>
        match applySet false updates j with
        | inl e => inl e
        | inr j' =>
            if updateValidators updates j'
            then inr (Some (jobSchema.hydrate j'), withJobs <[i := j']> st)
            else inl ValidationError
        end
    end).

Definition findByIdAndDelete (i : ObjectId) : M (option jobSchema.t) :=
  await (fun st => inr (jobs st !! i, withJobs (delete i) st)).

(** [new Job(data)] for a [data] whose [createdBy] is [creator] *)
Definition new (creator : ObjectId) (data : list (string * jsval))
    : Exn + jobSchema.t :=
  applySet true (List.filter (fun '(key, _) => negb (String.eqb key "createdBy")) data)
    (jobSchema.defaults creator).

(** [job.save()] of a new document: validation, then the [pre("save")]
    hook, then the insertion under the [_id] of the document. *)
Definition save (i : ObjectId) (j : jobSchema.t) : M unit :=
  await (fun st =>
    if negb (jobSchema.validate j) then inl ValidationError
    else match jobSchema.preSave j with
         | inl e => inl e
         | inr j' =>
             match jobs st !! i with
             | Some _ => inl MongoServerError
             | None => inr ((), withJobs <[i := j']> st)
             end
         end).

(** [Job.find(q).sort(s).skip(k).limit(n)]; outside the range that the
    validators of the route admit ([k >= 0], [n >= 1]) the call
    rejects. *)
Definition find (eng : Engine) (q : list (string * condition))
    (s : list (string * order)) (skip limit : option Z)
    : M (list (ObjectId * jobSchema.t)) :=
  await (fun st =>
    match skip, limit with
    | Some k, Some n =>
        if forallb (fun '(key, c) => Query.accepts key c) q
        then if (0 <=? k) && (1 <=? n)
             then inr (take (Z.to_nat n) (drop (Z.to_nat k)
                         (Query.sort (precedes eng s)
                            (List.filter (fun d => Query.matches eng q d.2)
                               (map_to_list (jobs st))))), st)
             else inl MongoServerError
        else inl CastError
    | _, _ => inl MongoServerError
    end).

Definition countDocuments (eng : Engine) (q : list (string * condition)) : M Z :=
  await (fun st =>
    if forallb (fun '(key, c) => Query.accepts key c) q
    then inr (Z.of_nat (length (List.filter (fun d => Query.matches eng q d.2)
                                  (map_to_list (jobs st)))), st)
    else inl CastError).
End Job.

(** [mongoose.model("Application", applicationSchema)], with the unique
    index [applicationSchema.index({ job: 1, applicant: 1 }, { unique: true })]. *)
Module Application.
Definition findById (i : ObjectId) : M (option applicationSchema.t) :=
  await (fun st => inr (applications st !! i, st)).

(** An application with its [applicant] and [job] populated: a
    reference that resolves to nothing is populated with [null]. *)
Record populated := mkPopulated {
  doc : applicationSchema.t;
  applicant : option UserSchema.t;
  job : option jobSchema.t
}.

Definition findById_populate (i : ObjectId) : M (option populated) :=
  await (fun st =>
    inr ((fun a => mkPopulated a (users st !! applicationSchema.applicant a)
                     (jobs st !! applicationSchema.job a))
           <$> applications st !! i, st)).

Definition sameJobAndApplicant (j a : ObjectId) (d : ObjectId * applicationSchema.t) : bool :=
  (applicationSchema.job d.2 =? j)%N && (applicationSchema.applicant d.2 =? a)%N.

(** [Application.findOne({ job: j, applicant: a })] *)
Definition findOne (j a : ObjectId) : M (option (ObjectId * applicationSchema.t)) :=
  await (fun st =>
    inr (List.find (sameJobAndApplicant j a) (map_to_list (applications st)), st)).

(** [new Application({ job, applicant, resumeLink, coverLetter })] *)
Definition new (j a : ObjectId) (resumeLink : string) (coverLetter : option string)
    : applicationSchema.t :=
  applicationSchema.mk j a coverLetter resumeLink "pending" None None None.

(** [application.save()] of a new document: validation, the hook, then
    the insertion, which the unique index on (job, applicant) and the
    one on [_id] may refuse. *)
Definition save (i : ObjectId) (a : applicationSchema.t) (now : Z) : M unit :=
  await (fun st =>
    if negb (applicationSchema.validate a) then inl ValidationError
    else
      let a' := applicationSchema.preSave false now a in
      match applications st !! i,
            List.find (sameJobAndApplicant (applicationSchema.job a')
                         (applicationSchema.applicant a'))
              (map_to_list (applications st)) with
      | None, None => inr ((), withApplications <[i := a']> st)
      | _, _ => inl MongoServerError
      end).

(** [application.save()] of a document read from the store as [original]
    and modified since. *)
Definition saveModified (i : ObjectId) (original a : applicationSchema.t) (now : Z)
    : M unit :=
  await (fun st =>
    if negb (applicationSchema.validate a) then inl ValidationError
    else
      let isModifiedStatus :=
        negb (String.eqb (applicationSchema.status a) (applicationSchema.status original)) in
      match applications st !! i with
      | Some _ =>
          inr ((), withApplications
                     <[i := applicationSchema.preSave isModifiedStatus now a]> st)
      | None => inl (Error "DocumentNotFoundError")
      end).

Definition findByIdAndDelete (i : ObjectId) : M (option applicationSchema.t) :=
  await (fun st => inr (applications st !! i, withApplications (delete i) st)).

(** [Application.deleteMany({ job: j })] *)
Definition deleteMany (j : ObjectId) : M unit :=
  await (fun st =>
    inr ((), withApplications
               (filter (fun d => applicationSchema.job d.2 ≠ j)) st)).

(** [Application.find({ applicant: a, job: { $in: js } }).select("job status")] *)
Definition find (a : ObjectId) (js : list ObjectId)
    : M (list (ObjectId * applicationSchema.t)) :=
  await (fun st =>
    inr (List.filter (fun d => (applicationSchema.applicant d.2 =? a)%N
                               && bool_decide (applicationSchema.job d.2 ∈ js))
           (map_to_list (applications st)), st)).
End Application.

(** ** Responses *)

Record Pagination := mkPagination {
  currentPage : option Z;
  totalPages : option Z;
  totalJobs : Z;
  limit : option Z;
  hasNext : bool;
  hasPrev : bool
}.

(** The [data] member of a response body.  A Job is shown with the
    reference it holds in [createdBy]; the name, email and company of the
    User that [populate] shows in its place are not modelled. *)
Inductive Data : Type :=
  | NoData
  | ValidationErrors (errors : list string)
  | ApplicationData (application : option applicationSchema.t)
  | JobData (job : option jobSchema.t)
  | JobWithStatus (job : jobSchema.t) (userApplicationStatus : option string)
  | JobsPage (jobs : list (ObjectId * jobSchema.t * option (option string)))
             (pagination : Pagination).

(** [res.status(statusCode).json({ success, message, data })] *)
Record Response := mkResponse {
  statusCode : Z;
  success : bool;
  message : option string;
  data : Data
}.

Definition failure (code : Z) (msg : string) : Response :=
  mkResponse code false (Some msg) NoData.

Definition validationFailed (errors : list string) : Response :=
  mkResponse 400 false (Some "Validation failed") (ValidationErrors errors).

(** [try { body } catch (error) { handler }], run on a store under a fault
    schedule. *)
Definition tryCatch (body : M Response) (handler : Exn → Response)
    (faults : list bool) (st : Store) : Response * Store :=
  match body (st, faults) with
  | (inr r, (st', _)) => (r, st')
  | (inl e, (st', _)) => (handler e, st')
  end.

(** A JavaScript string used as a condition. *)
Definition truthy (s : option string) : bool :=
  match s with
  | Some s => negb (String.eqb s "")
  | None => false
  end.

(** ** The application routes, [src/Routes/applicationRoutes.js] *)

Module applicationRoutes.

(** [POST /api/applications] (lines 12-111): apply to a job.  [newId] is
    the [_id] the driver gives the new document. *)
Definition applyToJob (user : Requester.t) (now : Z) (newId : ObjectId)
    (errors : list string) (jobId resumeLink : string) (coverLetter : option string)
    : list bool → Store → Response * Store :=
  tryCatch
    (match errors with
     | _ :: _ => mret (validationFailed errors)
     | [] =>
         j ← castId jobId;
         job ← Job.findById j;
         match job with
         | None => mret (failure 404 "Job not found")
         | Some job =>
             if negb (jobSchema.isActive job)
             then mret (failure 400 "This job is no longer accepting applications")
             else if match jobSchema.applicationDeadline job with
                     | Some deadline => now >? deadline
                     | None => false
                     end
             then mret (failure 400 "Application deadline has passed")
             else
               existingApplication ← Application.findOne j (Requester._id user);
               match existingApplication with
               | Some _ => mret (failure 400 "You have already applied to this job")
               | None =>
                   if (jobSchema.createdBy job =? Requester._id user)%N
                   then mret (failure 400 "You cannot apply to your own job posting")
                   else
                     let application :=
                       Application.new j (Requester._id user) resumeLink coverLetter in
                     Application.save newId application now;;
                     Job.findByIdAndUpdate_incApplicationsCount j 1;;
                     populatedApplication ← Application.findById newId;
                     mret (mkResponse 201 true
                             (Some "Application submitted successfully")
                             (ApplicationData populatedApplication))
               end
         end
     end)
    (fun _ => failure 500 "Server error submitting application").

(** [PUT /api/applications/:id/status] (lines 300-384) *)
Definition updateApplicationStatus (user : Requester.t) (now : Z)
    (errors : list string) (id status : string) (notes : option string)
    : list bool → Store → Response * Store :=
  tryCatch
    (match errors with
     | _ :: _ => mret (validationFailed errors)
     | [] =>
         i ← castId id;
         application ← Application.findById_populate i;
         match application with
         | None => mret (failure 404 "Application not found")
         | Some application =>
             job ← match Application.job application with
                   | Some job => mret job
                   | None => throw TypeError
                   end;
             if negb (jobSchema.createdBy job =? Requester._id user)%N
                && negb (String.eqb (Requester.role user) "admin")
             then mret (failure 403
                    "Access denied. You can only update applications for your own jobs.")
             else
               let a := Application.doc application in
               let a' :=
                 applicationSchema.mk
                   (applicationSchema.job a) (applicationSchema.applicant a)
                   (applicationSchema.coverLetter a) (applicationSchema.resumeLink a)
                   status
                   (if truthy notes then notes else applicationSchema.notes a)
                   (Some now)
                   (Some (Requester._id user)) in
               Application.saveModified i a a' now;;
               updatedApplication ← Application.findById i;
               mret (mkResponse 200 true
                       (Some "Application status updated successfully")
                       (ApplicationData updatedApplication))
         end
     end)
    (fun _ => failure 500 "Server error updating application status").

(** [GET /api/applications/:id] (lines 389-425) *)
Definition getApplication (user : Requester.t) (id : string)
    : list bool → Store → Response * Store :=
  tryCatch
    (i ← castId id;
     application ← Application.findById_populate i;
     match application with
     | None => mret (failure 404 "Application not found")
     | Some application =>
         let a := Application.doc application in
         applicant ← match Application.applicant application with
                     | Some _ => mret (applicationSchema.applicant a)
                     | None => throw TypeError
                     end;
         job ← match Application.job application with
               | Some job => mret job
               | None => throw TypeError
               end;
         let isApplicant := (applicant =? Requester._id user)%N in
         let isJobCreator := (jobSchema.createdBy job =? Requester._id user)%N in
         let isAdmin := String.eqb (Requester.role user) "admin" in
         if negb isApplicant && negb isJobCreator && negb isAdmin
         then mret (failure 403
                "Access denied. You can only view your own applications or applications to your jobs.")
         else mret (mkResponse 200 true None (ApplicationData (Some a)))
     end)
    (fun _ => failure 500 "Server error fetching application").

(** [DELETE /api/applications/:id] (lines 430-477): withdraw an
    application *)
Definition withdrawApplication (user : Requester.t) (id : string)
    : list bool → Store → Response * Store :=
  tryCatch
    (i ← castId id;
     application ← Application.findById i;
     match application with
     | None => mret (failure 404 "Application not found")
     | Some application =>
         if negb (applicationSchema.applicant application =? Requester._id user)%N
         then mret (failure 403
                "Access denied. You can only withdraw your own applications.")
         else if existsb (String.eqb (applicationSchema.status application))
                   ["hired"; "rejected"]
         then mret (failure 400
                "Cannot withdraw application that has already been processed")
         else
           promiseAll
             (Application.findByIdAndDelete i)
             (Job.findByIdAndUpdate_incApplicationsCount
                (applicationSchema.job application) (-1));;
           mret (mkResponse 200 true (Some "Application withdrawn successfully") NoData)
     end)
    (fun _ => failure 500 "Server error withdrawing application").

End applicationRoutes.

(** ** The job routes, [src/unnamed/part_000] *)

Module jobRoutes.

(** A query-string parameter that may be repeated. *)
Inductive param : Type :=
  | One (s : string)
  | Many (l : list string).

(** [req.query] of [GET /api/jobs] *)
Record JobsQuery := mkJobsQuery {
  page : option string;
  limit : option string;
  keyword : option string;
  location : option string;
  type : option param;
  category : option param;
  minSalary : option string;
  maxSalary : option string;
  experienceLevel : option param;
  sortBy : option string;
  sortOrder : option string;
  featured : option string
}.

(** [Array.isArray(p) ? { $in: p } : p], when [p] is truthy *)
Definition oneOrMany (key : string) (p : option param)
    (q : list (string * condition)) : list (string * condition) :=
  match p with
  | Some (Many l) => assign key (AnyOf l) q
  | Some (One s) => if String.eqb s "" then q else assign key (Equals (JStr s)) q
  | None => q
  end.

(**
<<
if (minSalary || maxSalary) {
  query["salary.min"] = {};
  if (minSalary) query["salary.min"].$gte = parseInt(minSalary);
  if (maxSalary) query["salary.max"] = { $lte: parseInt(maxSalary) };
}
>> *)
Definition salaryFilter (minSalary maxSalary : option string)
    (q : list (string * condition)) : list (string * condition) :=
  if truthy minSalary || truthy maxSalary then
    let q1 := assign "salary.min" (Equals (JObj [])) q in
    let q2 := if truthy minSalary
              then assign "salary.min" (Gte (parseInt (default "" minSalary))) q1
              else q1 in
    if truthy maxSalary
    then assign "salary.max" (Lte (parseInt (default "" maxSalary))) q2
    else q2
  else q.

(** The filter object of [GET /api/jobs]; [None] when [new RegExp]
    throws. *)
Definition buildQuery (eng : Engine) (rq : JobsQuery) : option (list (string * condition)) :=
  let q0 := [("isActive", Equals (JBool true))] in
  let q1 := if truthy (keyword rq)
            then assign "$text" (TextSearch (default "" (keyword rq))) q0 else q0 in
  q2 ← (if truthy (location rq)
        then (fun test => assign "location" (Matches test) q1)
               <$> regExp eng (default "" (location rq))
        else Some q1);
  let q3 := oneOrMany "type" (type rq) q2 in
  let q4 := oneOrMany "category" (category rq) q3 in
  let q5 := oneOrMany "experienceLevel" (experienceLevel rq) q4 in
  let q6 := salaryFilter (minSalary rq) (maxSalary rq) q5 in
  Some (if bool_decide (featured rq = Some "true")
        then assign "featured" (Equals (JBool true)) q6 else q6).

Definition buildSort (rq : JobsQuery) : list (string * order) :=
  let sortBy := default "createdAt" (sortBy rq) in
  let direction :=
    if String.eqb (default "desc" (sortOrder rq)) "desc" then Descending else Ascending in
  let s0 := if truthy (keyword rq) then [("score", TextScore)] else [] in
  if String.eqb sortBy "salary" then assign "salary.min" direction s0
  else if String.eqb sortBy "applications" then assign "applicationsCount" direction s0
  else assign sortBy direction s0.

(** [a < b] on two numbers that may be [NaN] *)
Definition less (a b : option Z) : bool :=
  match a, b with
  | Some x, Some y => x <? y
  | _, _ => false
  end.

(** [Math.ceil(total / n)] for a positive [n] *)
Definition ceilDiv (total n : Z) : Z := - ((- total) / n).

(** [appMap[id] || null], where [appMap] is
    [userApplications.reduce((acc, app) => { acc[app.job] = app.status; return acc; }, {})] *)
Definition appMapLookup (userApplications : list (ObjectId * applicationSchema.t))
    (id : ObjectId) : option string :=
  match List.find (fun d => (applicationSchema.job d.2 =? id)%N) (rev userApplications) with
  | Some d =>
      if String.eqb (applicationSchema.status d.2) "" then None
      else Some (applicationSchema.status d.2)
  | None => None
  end.

(** [GET /api/jobs] (lines 18-164) *)
Definition getJobs (eng : Engine) (user : option Requester.t) (errors : list string)
    (rq : JobsQuery) : list bool → Store → Response * Store :=
  tryCatch
    (match errors with
     | _ :: _ => mret (validationFailed errors)
     | [] =>
         query ← match buildQuery eng rq with
                 | Some q => mret q
                 | None => throw SyntaxError
                 end;
         let sortOptions := buildSort rq in
         let pageNumber := match page rq with Some p => parseInt p | None => Some 1 end in
         let limitNumber := match limit rq with Some l => parseInt l | None => Some 10 end in
         let skip := p ← pageNumber; l ← limitNumber; Some ((p - 1) * l) in
         '(jobs, total) ← promiseAll
                            (Job.find eng query sortOptions skip limitNumber)
                            (Job.countDocuments eng query);
         jobsWithStatus ←
           match user with
           | Some user =>
               userApplications ← Application.find (Requester._id user) (fst <$> jobs);
               mret ((fun d : ObjectId * jobSchema.t =>
                        (d.1, d.2, Some (appMapLookup userApplications d.1))) <$> jobs)
           | None =>
               mret ((fun d : ObjectId * jobSchema.t => (d.1, d.2, None)) <$> jobs)
           end;
         let totalPages := ceilDiv total <$> limitNumber in
         mret (mkResponse 200 true None
                 (JobsPage jobsWithStatus
                    (mkPagination pageNumber totalPages total limitNumber
                       (less pageNumber totalPages)
                       (less (Some 1) pageNumber))))
     end)
    (fun _ => failure 500 "Server error fetching jobs").

(** [GET /api/jobs/:id] (lines 171-211) *)
Definition getJob (user : option Requester.t) (id : string)
    : list bool → Store → Response * Store :=
  tryCatch
    (i ← castId id;
     job ← Job.findById i;
     match job with
     | None => mret (failure 404 "Job not found or inactive")
     | Some job =>
         if negb (jobSchema.isActive job)
         then mret (failure 404 "Job not found or inactive")
         else
           Job.findByIdAndUpdate_incViewsCount i 1;;
           userApplicationStatus ←
             match user with
             | Some user =>
                 application ← Application.findOne i (Requester._id user);
                 mret ((fun d : ObjectId * applicationSchema.t =>
                          applicationSchema.status d.2) <$> application)
             | None => mret None
             end;
           mret (mkResponse 200 true None (JobWithStatus job userApplicationStatus))
     end)
    (fun error =>
       match error with
       | CastError => failure 400 "Invalid job ID format"
       | _ => failure 500 "Server error fetching job"
       end).

(** [obj.tags = v], for an object that has the member *)
Definition replaceMember (key : string) (v : jsval) (o : list (string * jsval))
    : list (string * jsval) :=
  (fun '(k, v') => if String.eqb k key then (k, v) else (k, v')) <$> o.

(** [tags.map((tag) => tag.toLowerCase().trim())]; a tag that is not a
    string has no [toLowerCase]. *)
Fixpoint lowerTrimmed (tags : list jsval) : Exn + list string :=
  match tags with
  | [] => inr []
  | JStr tag :: r => (fun r' => trim (toLowerCase tag) :: r') <$> lowerTrimmed r
  | _ :: _ => inl TypeError
  end.

(**
<<
if (data.tags && Array.isArray(data.tags)) {
  data.tags = [...new Set(data.tags.map((tag) => tag.toLowerCase().trim()))];
}
>> *)
Definition normalizeTags (data : list (string * jsval)) : Exn + list (string * jsval) :=
  match member "tags" data with
  | Some (JArr tags) =>
      (fun l => replaceMember "tags" (JArr (JStr <$> setOf l)) data) <$> lowerTrimmed tags
  | _ => inr data
  end.

(** [POST /api/jobs] (lines 218-313); the handler runs once
    [isEmployerOrAdmin] has let the request through.  [newId] is the [_id] the driver gives the new
    document. *)
Definition createJob (user : Requester.t) (newId : ObjectId) (errors : list string)
    (body : list (string * jsval)) : list bool → Store → Response * Store :=
  tryCatch
    (match errors with
     | _ :: _ => mret (validationFailed errors)
     | [] =>
         jobData ← lift (normalizeTags body);
         job ← lift (Job.new (Requester._id user) jobData);
         Job.save newId job;;
         populatedJob ← Job.findById newId;
         mret (mkResponse 201 true (Some "Job created successfully") (JobData populatedJob))
     end)
    (fun _ => failure 500 "Server error creating job").

Definition allowedUpdates : list string :=
  ["title"; "company"; "description"; "requirements"; "location"; "type";
   "category"; "salary"; "tags"; "logo"; "experienceLevel"; "benefits";
   "applicationDeadline"; "isActive"; "featured"].

(**
<<
const updates = {};
for (const key of Object.keys(req.body)) {
  if (allowedUpdates.includes(key)) updates[key] = req.body[key];
}
>> *)
Definition pickUpdates (body : list (string * jsval)) : list (string * jsval) :=
  List.filter (fun '(key, _) => existsb (String.eqb key) allowedUpdates) body.

(** [PUT /api/jobs/:id] (lines 320-380) *)
Definition updateJob (user : Requester.t) (id : string) (body : list (string * jsval))
    : list bool → Store → Response * Store :=
  tryCatch
    (i ← castId id;
     job ← Job.findById i;
     match job with
     | None => mret (failure 404 "Job not found")
     | Some job =>
         if negb (jobSchema.createdBy job =? Requester._id user)%N
            && negb (String.eqb (Requester.role user) "admin")
         then mret (failure 403 "Access denied")
         else
           updates ← lift (normalizeTags (pickUpdates body));
           updatedJob ← Job.findByIdAndUpdate_set i updates;
           mret (mkResponse 200 true (Some "Job updated successfully") (JobData updatedJob))
     end)
    (fun _ => failure 500 "Server error updating job").

(** [DELETE /api/jobs/:id] (lines 387-413) *)
Definition deleteJob (user : Requester.t) (id : string)
    : list bool → Store → Response * Store :=
  tryCatch
    (i ← castId id;
     job ← Job.findById i;
     match job with
     | None => mret (failure 404 "Job not found")
     | Some job =>
         if negb (jobSchema.createdBy job =? Requester._id user)%N
            && negb (String.eqb (Requester.role user) "admin")
         then mret (failure 403 "Access denied")
         else
           promiseAll (Job.findByIdAndDelete i) (Application.deleteMany i);;
           mret (mkResponse 200 true (Some "Job deleted successfully") NoData)
     end)
    (fun _ => failure 500 "Server error deleting job").

End jobRoutes.

(** ** The service as a transition system *)

(** A request that has reached its handler. *)
Inductive Request : Type :=
  | Apply (user : Requester.t) (newId : ObjectId) (errors : list string)
      (jobId resumeLink : string) (coverLetter : option string)
  | UpdateStatus (user : Requester.t) (errors : list string)
      (id status : string) (notes : option string)
  | GetOne (user : Requester.t) (id : string)
  | Withdraw (user : Requester.t) (id : string)
  | List (user : option Requester.t) (errors : list string) (rq : jobRoutes.JobsQuery)
  | Get (user : option Requester.t) (id : string)
  | Create (user : Requester.t) (newId : ObjectId) (errors : list string)
      (body : list (string * jsval))
  | Update (user : Requester.t) (id : string) (body : list (string * jsval))
  | Delete (user : Requester.t) (id : string).

(** One request served at time [now] under a fault schedule. *)
Definition handle (eng : Engine) (now : Z) (faults : list bool) (rq : Request)
    : Store → Response * Store :=
  match rq with
  | Apply user newId errors jobId resumeLink coverLetter =>
      applicationRoutes.applyToJob user now newId errors jobId resumeLink coverLetter faults
  | UpdateStatus user errors id status notes =>
      applicationRoutes.updateApplicationStatus user now errors id status notes faults
  | GetOne user id => applicationRoutes.getApplication user id faults
  | Withdraw user id => applicationRoutes.withdrawApplication user id faults
  | List user errors rq => jobRoutes.getJobs eng user errors rq faults
  | Get user id => jobRoutes.getJob user id faults
  | Create user newId errors body => jobRoutes.createJob user newId errors body faults
  | Update user id body => jobRoutes.updateJob user id body faults
  | Delete user id => jobRoutes.deleteJob user id faults
  end.

(** The store after a sequence of requests, each with its time and its
    fault schedule. *)
Fixpoint serve (eng : Engine) (trace : list (Z * list bool * Request)) (st : Store) : Store :=
  match trace with
  | [] => st
  | (now, faults, rq) :: rest => serve eng rest (handle eng now faults rq st).2
  end.

(** ** The error kinds of the specification

    A failure response carries a status code and a message; the kinds of
    the specification are read off the two. *)
Module Kind.
Inductive t : Set :=
  | ValidationError | NotFound | Conflict | Forbidden | InvalidOperation | Unavailable.
End Kind.

Definition invalidOperationMessages : list string :=
  ["This job is no longer accepting applications";
   "Application deadline has passed";
   "You cannot apply to your own job posting";
   "Cannot withdraw application that has already been processed"].

Definition kindOf (r : Response) : option Kind.t :=
  if success r then None
  else if statusCode r =? 404 then Some Kind.NotFound
  else if statusCode r =? 403 then Some Kind.Forbidden
  else if statusCode r =? 400 then
    match message r with
    | Some m =>
        if String.eqb m "You have already applied to this job" then Some Kind.Conflict
        else if existsb (String.eqb m) invalidOperationMessages
        then Some Kind.InvalidOperation
        else Some Kind.ValidationError
    | None => Some Kind.ValidationError
    end
  else Some Kind.Unavailable.

(** At most one Application per (job, applicant) pair. *)
Definition uniquePairs (apps : gmap N applicationSchema.t) : Prop :=
  ∀ i1 i2 a1 a2,
    apps !! i1 = Some a1 →
    apps !! i2 = Some a2 →
    applicationSchema.job a1 = applicationSchema.job a2 →
    applicationSchema.applicant a1 = applicationSchema.applicant a2 →
    i1 = i2.

Definition uniqueApplications (st : Store) : Prop := uniquePairs (applications st).

(** Some Application of applicant [a] to Job [j] is stored. *)
Definition hasApplied (st : Store) (j a : ObjectId) : Prop :=
  ∃ k b, applications st !! k = Some b
         ∧ applicationSchema.job b = j ∧ applicationSchema.applicant b = a.

(** Job [job] does not take applications at time [now]. *)
Definition closedAt (now : Z) (job : jobSchema.t) : Prop :=
  jobSchema.isActive job = false
  ∨ ∃ deadline, jobSchema.applicationDeadline job = Some deadline ∧ deadline < now.

(** [salary.min <= salary.max] when both are present. *)
Definition salaryOrdered (j : jobSchema.t) : Prop :=
  ∀ mn mx,
    Salary.min (jobSchema.salary j) = Some mn →
    Salary.max (jobSchema.salary j) = Some mx →
    mn <= mx.

(** The Jobs a response carries in its page, if it carries one. *)
Definition returnedJobs (r : Response) : list (ObjectId * jobSchema.t) :=
  match data r with
  | JobsPage jobs _ => (fun d : ObjectId * jobSchema.t * option (option string) => d.1) <$> jobs
  | _ => []
  end.

(** The flag that the [n]-th awaited storage call of a handler takes. *)
Definition faultAt (n : nat) (faults : list bool) : bool := nth n faults false.

(** How one request may change the Application collection. *)
Inductive applicationsStep (apps : gmap N applicationSchema.t)
    : gmap N applicationSchema.t → Prop :=
  | StepSame : applicationsStep apps apps
  | StepInsert i a :
      (∀ k b, apps !! k = Some b →
              ¬ (applicationSchema.job b = applicationSchema.job a
                 ∧ applicationSchema.applicant b = applicationSchema.applicant a)) →
      applicationsStep apps (<[i := a]> apps)
  | StepModify i a b :
      apps !! i = Some b →
      applicationSchema.job a = applicationSchema.job b →
      applicationSchema.applicant a = applicationSchema.applicant b →
      applicationsStep apps (<[i := a]> apps)
  | StepDelete i : applicationsStep apps (delete i apps)
  | StepDeleteMany j :
      applicationsStep apps
        (filter (λ d : N * applicationSchema.t, applicationSchema.job d.2 ≠ j) apps).

(** ** The listings of the applications

    The two listing routes of [src/Routes/applicationRoutes.js].  The
    order of two Applications under [{ createdAt: -1 }] is the engine's;
    the handlers take it as [newestFirst]. *)

Fixpoint insertBy {A} (before : A → A → bool) (x : A) (l : list A) : list A :=
  match l with
  | [] => [x]
  | y :: r => if before y x then y :: insertBy before x r else x :: l
  end.

Definition sortBy {A} (before : A → A → bool) (l : list A) : list A :=
  foldr (insertBy before) [] l.

(** [try { body } catch (error) { handler }] for a handler with a result
    of its own. *)
Definition tryCatchAs {R} (body : M R) (handler : Exn → R)
    (faults : list bool) (st : Store) : R * Store :=
  match body (st, faults) with
  | (inr r, (st', _)) => (r, st')
  | (inl e, (st', _)) => (handler e, st')
  end.

(** What [populate("job", "title company location type salary logo isActive")]
    puts in the place of the reference to a Job. *)
Module JobCard.
Record t := mk {
  title : string;
  company : string;
  location : string;
  type : string;
  salary : Salary.t;
  logo : string;
  isActive : bool
}.

Definition select (j : jobSchema.t) : t :=
  mk (jobSchema.title j) (jobSchema.company j) (jobSchema.location j) (jobSchema.type j)
     (jobSchema.salary j) (jobSchema.logo j) (jobSchema.isActive j).
End JobCard.

Module applicationPages.

(** [queryObj]: the keys it may hold *)
Record Filter := mkFilter {
  applicant : option ObjectId;
  job : option ObjectId;
  status : option string
}.

Definition satisfies (f : Filter) (a : applicationSchema.t) : bool :=
  optionally (N.eqb (applicationSchema.applicant a)) (applicant f)
  && optionally (N.eqb (applicationSchema.job a)) (job f)
  && optionally (String.eqb (applicationSchema.status a)) (status f).

(** [Application.find(queryObj).sort({ createdAt: -1 }).skip(k).limit(n)];
    outside the range that the validators of the routes admit the call
    rejects, as [Job.find] does. *)
Definition find (f : Filter)
    (newestFirst : ObjectId * applicationSchema.t → ObjectId * applicationSchema.t → bool)
    (skip limit : option Z) : M (list (ObjectId * applicationSchema.t)) :=
  await (fun st =>
    match skip, limit with
    | Some k, Some n =>
        if (0 <=? k) && (1 <=? n)
        then inr (take (Z.to_nat n) (drop (Z.to_nat k)
                    (sortBy newestFirst
                       (List.filter (fun d => satisfies f d.2)
                          (map_to_list (applications st))))), st)
        else inl MongoServerError
    | _, _ => inl MongoServerError
    end).

(** [Application.find(queryObj).populate("job", ...).sort({ createdAt: -1 })]
    [.skip(k).limit(n).lean()]:
    each Application of the page comes with the card of its Job, or with
    [null] when the reference resolves to nothing. *)
Definition find_populate_job (f : Filter)
    (newestFirst : ObjectId * applicationSchema.t → ObjectId * applicationSchema.t → bool)
    (skip limit : option Z)
    : M (list (ObjectId * applicationSchema.t * option JobCard.t)) :=
  await (fun st =>
    match skip, limit with
    | Some k, Some n =>
        if (0 <=? k) && (1 <=? n)
        then inr ((fun d : ObjectId * applicationSchema.t =>
                     (d.1, d.2, JobCard.select <$> jobs st !! applicationSchema.job d.2))
                  <$> take (Z.to_nat n) (drop (Z.to_nat k)
                        (sortBy newestFirst
                           (List.filter (fun d => satisfies f d.2)
                              (map_to_list (applications st))))), st)
        else inl MongoServerError
    | _, _ => inl MongoServerError
    end).

(** [Application.countDocuments(queryObj)] *)
Definition countDocuments (f : Filter) : M Z :=
  await (fun st =>
    inr (Z.of_nat (length (List.filter (fun d => satisfies f d.2)
                             (map_to_list (applications st)))), st)).

Record Pagination := mkPagination {
  currentPage : option Z;
  totalPages : option Z;
  totalApplications : Z;
  limit : option Z
}.

(** [{ id: job._id, title: job.title, company: job.company }] *)
Record JobSummary := mkJobSummary {
  id : ObjectId;
  title : string;
  company : string
}.

(** What a listing answers: a failure; a page of the requester's own
    Applications, each with the card of its Job; or a page of the
    Applications to one Job (their populated applicants and reviewers are
    not shown), with the summary of that Job. *)
Inductive Result : Type :=
  | Failed (r : Response)
  | ListedOwn (applications : list (ObjectId * applicationSchema.t * option JobCard.t))
              (pagination : Pagination)
  | Listed (applications : list (ObjectId * applicationSchema.t))
           (job : option JobSummary) (pagination : Pagination).

(** [if (status) queryObj.status = status] *)
Definition withStatus (status : option string) : option string :=
  if truthy status then status else None.

Definition pageNumber (page : option string) : option Z :=
  match page with Some p => parseInt p | None => Some 1 end.

Definition limitNumber (limit : option string) : option Z :=
  match limit with Some l => parseInt l | None => Some 10 end.

(** [(parseInt(page) - 1) * parseInt(limit)] *)
Definition skipOf (page limit : option string) : option Z :=
  p ← pageNumber page; l ← limitNumber limit; Some ((p - 1) * l).

(** [GET /api/applications/my] (lines 116-189) *)
Definition getMyApplications (user : Requester.t) (errors : list string)
    (page limit status : option string)
    (newestFirst : ObjectId * applicationSchema.t → ObjectId * applicationSchema.t → bool)
    : list bool → Store → Result * Store :=
  tryCatchAs
    (match errors with
     | _ :: _ => mret (Failed (validationFailed errors))
     | [] =>
         let queryObj := mkFilter (Some (Requester._id user)) None (withStatus status) in
         '(applications, total) ← promiseAll
                                    (find_populate_job queryObj newestFirst
                                       (skipOf page limit) (limitNumber limit))
                                    (countDocuments queryObj);
         mret (ListedOwn applications
                 (mkPagination (pageNumber page)
                    (jobRoutes.ceilDiv total <$> limitNumber limit)
                    total (limitNumber limit)))
     end)
    (fun _ => Failed (failure 500 "Server error fetching applications")).

(** [GET /api/applications/job/:jobId] (lines 194-295) *)
Definition getJobApplications (user : Requester.t) (errors : list string)
    (jobId : string) (page limit status : option string)
    (newestFirst : ObjectId * applicationSchema.t → ObjectId * applicationSchema.t → bool)
    : list bool → Store → Result * Store :=
  tryCatchAs
    (match errors with
     | _ :: _ => mret (Failed (validationFailed errors))
     | [] =>
         j ← castId jobId;
         job ← Job.findById j;
         match job with
         | None => mret (Failed (failure 404 "Job not found"))
         | Some job =>
             if negb (jobSchema.createdBy job =? Requester._id user)%N
                && negb (String.eqb (Requester.role user) "admin")
             then mret (Failed (failure 403
                    "Access denied. You can only view applications for your own jobs."))
             else
               let queryObj := mkFilter None (Some j) (withStatus status) in
               '(applications, total) ← promiseAll
                                          (find queryObj newestFirst (skipOf page limit)
                                             (limitNumber limit))
                                          (countDocuments queryObj);
               mret (Listed applications
                       (Some (mkJobSummary j (jobSchema.title job) (jobSchema.company job)))
                       (mkPagination (pageNumber page)
                          (jobRoutes.ceilDiv total <$> limitNumber limit)
                          total (limitNumber limit)))
         end
     end)
    (fun _ => Failed (failure 500 "Server error fetching job applications")).

End applicationPages.

(** ** The derived counter *)

(** The number of stored Applications that reference Job [j]. *)
Definition applicationsOf (st : Store) (j : ObjectId) : nat :=
  size (filter (λ d : N * applicationSchema.t, applicationSchema.job d.2 = j)
          (applications st)).

(** [applicationsCount] of every stored Job is the number of the
    Applications that reference it. *)
Definition countersExact (st : Store) : Prop :=
  ∀ k j, jobs st !! k = Some j →
         jobSchema.applicationsCount j = Z.of_nat (applicationsOf st k).

(** Every stored Application references a stored Job. *)
Definition referencesResolve (st : Store) : Prop :=
  ∀ i a, applications st !! i = Some a → is_Some (jobs st !! applicationSchema.job a).

(** No awaited call of the request is rejected. *)
Definition noFault (faults : list bool) : Prop := ∀ n, faultAt n faults = false.

(** A request that does not hand the counter a value of its own: the body
    of a [Create] has no [applicationsCount] member. *)
Definition leavesCounter (rq : Request) : Prop :=
  match rq with
  | Create _ _ _ body => member "applicationsCount" body = None
  | _ => True
  end.

(** The requester is the owner of the Job or an administrator. *)
Definition mayManage (user : Requester.t) (job : jobSchema.t) : Prop :=
  jobSchema.createdBy job = Requester._id user ∨ Requester.role user = "admin".

(** ** Tags as the handlers leave them *)

(** A string that does not start with white space. *)
Definition startsBlack (s : string) : bool :=
  match s with
  | String c _ => negb (isWhiteSpace c)
  | EmptyString => true
  end.

(** A string of the ASCII range, on which [trim] and [toLowerCase] are
    those of JavaScript. *)
Fixpoint asciiString (s : string) : bool :=
  match s with
  | String c r => (N_of_ascii c <? 128)%N && asciiString r
  | EmptyString => true
  end.

Definition asciiStrings (items : list jsval) : bool :=
  forallb (fun v => match v with JStr s => asciiString s | _ => false end) items.

(** A member of a body that has the JSON type of the path it names, with
    its strings in the ASCII range: the mapper stores it without
    converting it. *)
Definition plainValue (p : jobSchema.path) (v : jsval) : bool :=
  match p, v with
  | (jobSchema.Ptitle | jobSchema.Pcompany | jobSchema.Pdescription
     | jobSchema.Prequirements | jobSchema.Plocation | jobSchema.Ptype
     | jobSchema.Pcategory | jobSchema.Plogo | jobSchema.PexperienceLevel), JStr s =>
      asciiString s
  | jobSchema.Psalary, JObj o =>
      optionally (fun v => match v with JNum _ => true | _ => false end) (member "min" o)
      && optionally (fun v => match v with JNum _ => true | _ => false end) (member "max" o)
      && optionally (fun v => match v with JStr s => asciiString s | _ => false end)
           (member "currency" o)
      && optionally (fun v => match v with JStr s => asciiString s | _ => false end)
           (member "period" o)
  | (jobSchema.Ptags | jobSchema.Pbenefits), JArr items => asciiStrings items
  | (jobSchema.Ptags | jobSchema.Pbenefits), JStr s => asciiString s
  | jobSchema.PapplicationDeadline, JDate _ => true
  | (jobSchema.PisActive | jobSchema.Pfeatured), JBool _ => true
  | (jobSchema.PapplicationsCount | jobSchema.PviewsCount), JNum _ => true
  | jobSchema.PcreatedBy, _ => true
  | _, _ => false
  end.

(** A body each of whose members that names a path is plain.
    ([createdBy] is the one path whose member the handlers never hand to
    the mapper.) *)
Definition plainBody (body : list (string * jsval)) : Prop :=
  forallb (fun '(key, v) =>
    match jobSchema.pathOf key with
    | Some p => plainValue p v
    | None => true
    end) body = true.

(** A body each of whose keys names a path of the schema.  ([new Job]
    drops a key that names none, but reads a dotted key such as
    ["salary.min"] and the keys [_id], [createdAt] and [updatedAt], which
    are no paths of the modelled Job.) *)
Definition schemaKeys (body : list (string * jsval)) : Prop :=
  forallb (fun '(key, _) =>
    match jobSchema.pathOf key with
    | Some _ => true
    | None => false
    end) body = true.

(** A tag on which [trim] and [toLowerCase] do nothing. *)
Definition normalTag (t : string) : Prop := trim t = t ∧ toLowerCase t = t.

(** The tags of a Job are distinct ASCII strings, trimmed and in lower
    case. *)
Definition tagsNormal (j : jobSchema.t) : Prop :=
  NoDup (jobSchema.tags j)
  ∧ Forall normalTag (jobSchema.tags j)
  ∧ Forall (fun t => asciiString t = true) (jobSchema.tags j).

(** The keys of an object are distinct. *)
Definition distinctKeys {A} (o : list (string * A)) : Prop := NoDup (fst <$> o).

(** ** Listings *)

(** The stored Jobs that satisfy a filter, in the order of the
    collection. *)
Definition matchingJobs (eng : Engine) (q : list (string * condition)) (st : Store)
    : list (ObjectId * jobSchema.t) :=
  List.filter (fun d => Query.matches eng q d.2) (map_to_list (jobs st)).

(** The number of entries on page [p] of a listing of [total] entries,
    [n] to the page. *)
Definition pageLength (total p n : Z) : Z := Z.min n (Z.max 0 (total - (p - 1) * n)).

(** ** The steps of the store *)

(** What one request may make of the Job stored under [k]: [j'] is the
    Job found there after the request. *)
Inductive jobChange (st : Store) (k : ObjectId) (j' : jobSchema.t) : Prop :=
  | JobKept : jobs st !! k = Some j' → jobChange st k j'
  | JobCounted j d :
      jobs st !! k = Some j →
      d = 1 ∨ d = -1 →
      j' = jobSchema.incApplicationsCount d j →
      jobChange st k j'
  | JobViewed j :
      jobs st !! k = Some j → j' = jobSchema.incViewsCount 1 j → jobChange st k j'
  | JobCreated creator :
      jobs st !! k = None →
      jobSchema.validate j' = true →
      jobSchema.createdBy j' = creator →
      jobChange st k j'
  | JobUpdated j updates :
      jobs st !! k = Some j →
      Job.applySet false updates j = inr j' →
      Job.updateValidators updates j' = true →
      (∀ key v, In (key, v) updates → key ∈ jobRoutes.allowedUpdates) →
      jobChange st k j'.

(** Every stored Job passes the validators of its schema. *)
Definition jobsValid (st : Store) : Prop :=
  ∀ k j, jobs st !! k = Some j → jobSchema.validate j = true.

(** What a request makes of the store when none of its storage calls is
    rejected. *)
Inductive settledStep (st : Store) : Store → Prop :=
  | SettledSame : settledStep st st
  | SettledApplied i job newId a :
      jobs st !! i = Some job →
      applications st !! newId = None →
      applicationSchema.job a = i →
      settledStep st
        (withJobs <[i := jobSchema.incApplicationsCount 1 job]>
           (withApplications <[newId := a]> st))
  | SettledReviewed i a a' :
      applications st !! i = Some a →
      applicationSchema.job a' = applicationSchema.job a →
      settledStep st (withApplications <[i := a']> st)
  | SettledWithdrawn i a :
      applications st !! i = Some a →
      settledStep st
        (withJobs (alter (jobSchema.incApplicationsCount (-1)) (applicationSchema.job a))
           (withApplications (delete i) st))
  | SettledViewed i :
      settledStep st (withJobs (alter (jobSchema.incViewsCount 1) i) st)
  | SettledCreated i job :
      jobs st !! i = None →
      jobSchema.applicationsCount job = 0 →
      settledStep st (withJobs <[i := job]> st)
  | SettledUpdated i job job' :
      jobs st !! i = Some job →
      jobSchema.applicationsCount job' = jobSchema.applicationsCount job →
      settledStep st (withJobs <[i := job']> st)
  | SettledDeleted i :
      settledStep st
        (withJobs (delete i)
           (withApplications
              (filter (λ d : N * applicationSchema.t, applicationSchema.job d.2 ≠ i)) st)).

(** A sequence of requests none of which meets a rejected storage call or
    hands the counter a value. *)
Definition settled (trace : list (Z * list bool * Request)) : Prop :=
  Forall (fun '(_, faults, rq) => noFault faults ∧ leavesCounter rq) trace.

(** ** Sample data *)

Definition recruiter : Requester.t := Requester.mk 1%N "recruiter".
Definition seeker : Requester.t := Requester.mk 2%N "job_seeker".

(** The 24-digit spelling of the identifiers 10 and 11. *)
Definition id10 : string := "00000000000000000000000a".
Definition id11 : string := "00000000000000000000000b".

(** An active Job of [recruiter] with the given salary bounds and
    deadline. *)
Definition sampleJob (mn mx : option Z) (deadline : option Z) : jobSchema.t :=
  jobSchema.mk "Engineer" "Acme"
    "Builds and maintains the services behind the job board." None
    "Paris" "full-time" "technology"
    (Salary.mk mn mx (Some "USD") (Some "yearly")) ["remote"] "" "mid" []
    deadline true false 0 0 1%N.

Definition sampleUsers : gmap N UserSchema.t :=
  {[ 1%N := UserSchema.mk "Rita" "rita@example.org" "secret" "recruiter";
     2%N := UserSchema.mk "Sam" "sam@example.org" "secret" "job_seeker" ]}.

(** A store with one Job, number 10. *)
Definition storeWithJob (j : jobSchema.t) : Store :=
  mkStore {[ 10%N := j ]} ∅ sampleUsers.

(** A store with Job 10 and one Application to it, number 11. *)
Definition storeWithApplication (j : jobSchema.t) (a : applicationSchema.t) : Store :=
  mkStore {[ 10%N := j ]} {[ 11%N := a ]} sampleUsers.

(** An engine that matches every pattern and keyword and leaves the
    documents in their order. *)
Definition castingEngine : Engine :=
  mkEngine (fun _ => Some (fun _ => true)) (fun _ _ => true) (fun _ _ _ => true).

Definition cv : string := "https://example.org/cv.pdf".

(** A fresh Application of [seeker] to Job 10, and one of [recruiter] to
    the same Job. *)
Definition pendingApplication : applicationSchema.t := Application.new 10%N 2%N cv None.

Definition ownApplication : applicationSchema.t := Application.new 10%N 1%N cv None.

(** [GET /api/jobs?maxSalary=9000] *)
Definition maxSalaryOnly : jobRoutes.JobsQuery :=
  jobRoutes.mkJobsQuery None None None None None None None (Some "9000")
    None None None None.

(** The body of a [POST /api/jobs] with the given salary bounds, and the
    body of a [PUT /api/jobs/:id] that inverts them. *)
Definition jobBody (mn mx : Z) : list (string * jsval) :=
  [("title", JStr "Engineer"); ("company", JStr "Acme");
   ("description", JStr "Builds and maintains the services behind the job board.");
   ("location", JStr "Paris");
   ("type", JStr "full-time"); ("category", JStr "technology");
   ("salary", JObj [("min", JNum mn); ("max", JNum mx)])].

Definition invertedSalary : list (string * jsval) :=
  [("salary", JObj [("min", JNum 5000); ("max", JNum 3000)])].

(** * Properties *)

(** ** Running a handler

    The equations of the handler monad, and the tactic that runs a handler
    with them up to the next point where it depends on something unknown:
    a fault flag, a lookup in the store, a test on the request. *)

Lemma bind_run {A B} (m : M A) (k : A → M B) w :
  (m ≫= k) w = match m w with
               | (inr a, w') => k a w'
               | (inl e, w') => (inl e, w')
               end.
Proof. reflexivity. Qed.

Lemma ret_run {A} (a : A) w : (mret a : M A) w = (inr a, w).
Proof. reflexivity. Qed.

Lemma throw_run {A} (e : Exn) w : (throw e : M A) w = (inl e, w).
Proof. reflexivity. Qed.

Lemma await_run {A} (op : Store → Exn + (A * Store)) st faults :
  await op (st, faults) =
  if faultAt 0 faults
  then (inl (Error "storage unavailable"), (st, tail faults))
  else match op st with
       | inr (a, st') => (inr a, (st', tail faults))
       | inl e => (inl e, (st, tail faults))
       end.
Proof. destruct faults as [|[] ?]; reflexivity. Qed.

Lemma faultAt_tail n faults : faultAt n (tail faults) = faultAt (S n) faults.
Proof. destruct faults; [by destruct n|done]. Qed.

Lemma promiseAll_run {A B} (p : M A) (q : M B) w :
  promiseAll p q w =
  match p w with
  | (ra, w1) =>
      match q w1 with
      | (rb, w2) =>
          match ra, rb with
          | inr a, inr b => (inr (a, b), w2)
          | inl e, _ => (inl e, w2)
          | _, inl e => (inl e, w2)
          end
      end
  end.
Proof. unfold promiseAll. destruct (p w) as [ra w1]. reflexivity. Qed.

Ltac mred := cbv beta iota; cbn [negb andb orb fst snd].
Ltac mstep :=
  first [ rewrite bind_run | rewrite ret_run | rewrite throw_run
        | rewrite promiseAll_run
        | rewrite await_run; rewrite ?faultAt_tail ]; mred.
Ltac mrun := mred; repeat mstep.

(** [$inc] on a stored document is the assignment of the incremented
    document. *)
Lemma alter_present {A} (f : A → A) (m : gmap N A) i x :
  m !! i = Some x → alter f i m = <[i := f x]> m.
Proof.
  intros H. apply map_eq. intros k. destruct (decide (i = k)) as [->|Hne].
  - by rewrite lookup_alter_eq, lookup_insert_eq, H.
  - by rewrite lookup_alter_ne, lookup_insert_ne.
Qed.

(** ** The schemas and the Application collection *)

(** The hook of [applicationSchema] leaves a pending Application alone. *)
Lemma preSave_pending isModifiedStatus now a :
  applicationSchema.status a = "pending" →
  applicationSchema.preSave isModifiedStatus now a = a.
Proof.
  intros H. unfold applicationSchema.preSave. rewrite H. cbn. by rewrite andb_false_r.
Qed.

(** The hook of the schema, by itself, never overwrites a [reviewedAt]
    that is set. *)
Lemma preSave_keeps_set_reviewedAt isModifiedStatus now a t :
  applicationSchema.reviewedAt a = Some t →
  applicationSchema.preSave isModifiedStatus now a = a.
Proof.
  intros H. unfold applicationSchema.preSave.
  rewrite bool_decide_eq_true_2 by eauto. by rewrite andb_false_r.
Qed.

(** [Application.findOne({ job, applicant })] finds nothing exactly when no
    Application of the pair is stored. *)
Lemma findOne_None apps j a :
  List.find (Application.sameJobAndApplicant j a) (map_to_list apps) = None →
  ∀ k b, apps !! k = Some b →
         ¬ (applicationSchema.job b = j ∧ applicationSchema.applicant b = a).
Proof.
  intros Hfind k b Hk [Hj Ha].
  pose proof (find_none _ _ Hfind (k, b)) as H.
  rewrite <- list_elem_of_In, elem_of_map_to_list in H. specialize (H Hk).
  unfold Application.sameJobAndApplicant in H. cbn in H.
  rewrite Hj, Ha, !N.eqb_refl in H. discriminate.
Qed.

Lemma findOne_Some apps j a d :
  List.find (Application.sameJobAndApplicant j a) (map_to_list apps) = Some d →
  apps !! d.1 = Some d.2
  ∧ applicationSchema.job d.2 = j ∧ applicationSchema.applicant d.2 = a.
Proof.
  intros Hfind. apply find_some in Hfind as [Hin Hsame].
  rewrite <- list_elem_of_In in Hin. destruct d as [k b].
  apply elem_of_map_to_list in Hin. split; [exact Hin|].
  unfold Application.sameJobAndApplicant in Hsame.
  apply andb_true_iff in Hsame as [H1 H2]. by apply N.eqb_eq in H1, H2.
Qed.

Lemma findOne_applied st j a :
  hasApplied st j a →
  ∃ d, List.find (Application.sameJobAndApplicant j a) (map_to_list (applications st)) = Some d.
Proof.
  intros (k & b & Hk & Hj & Ha).
  destruct (List.find _ _) as [d|] eqn:Hfind; [by eexists|].
  exfalso. by eapply findOne_None.
Qed.

(** The pairs stay unique along every step of the collection. *)
Lemma uniquePairs_step apps apps' :
  uniquePairs apps → applicationsStep apps apps' → uniquePairs apps'.
Proof.
  intros Hu Hstep. destruct Hstep as [|i a Hfree|i a b Hi Hj Ha|i|j]; [done|..].
  - intros i1 i2 a1 a2 H1 H2 Hj Ha.
    destruct (decide (i1 = i)) as [->|N1], (decide (i2 = i)) as [->|N2]; [done|..].
    + rewrite lookup_insert_eq in H1. rewrite lookup_insert_ne in H2 by congruence.
      injection H1 as <-. destruct (Hfree _ _ H2). by split.
    + rewrite lookup_insert_eq in H2. rewrite lookup_insert_ne in H1 by congruence.
      injection H2 as <-. destruct (Hfree _ _ H1). by split.
    + rewrite lookup_insert_ne in H1, H2 by congruence. by eapply Hu.
  - intros i1 i2 a1 a2 H1 H2 Hj' Ha'.
    destruct (decide (i1 = i)) as [->|N1], (decide (i2 = i)) as [->|N2]; [done|..].
    + rewrite lookup_insert_eq in H1. rewrite lookup_insert_ne in H2 by congruence.
      injection H1 as <-. eapply Hu; [exact Hi|exact H2|congruence|congruence].
    + rewrite lookup_insert_eq in H2. rewrite lookup_insert_ne in H1 by congruence.
      injection H2 as <-. eapply Hu; [exact H1|exact Hi|congruence|congruence].
    + rewrite lookup_insert_ne in H1, H2 by congruence. by eapply Hu.
  - intros i1 i2 a1 a2 H1 H2. apply lookup_delete_Some in H1 as [_ H1].
    apply lookup_delete_Some in H2 as [_ H2]. by eapply Hu.
  - intros i1 i2 a1 a2 H1 H2. apply map_lookup_filter_Some in H1 as [H1 _].
    apply map_lookup_filter_Some in H2 as [H2 _]. by eapply Hu.
Qed.

(** ** Application Tracker: applying *)

Ltac apply_unfold :=
  unfold applicationRoutes.applyToJob, tryCatch, castId, Job.findById, Application.findOne,
    Application.save, Job.findByIdAndUpdate_incApplicationsCount, Application.findById.

(** What a successful [Apply] has found and done. *)
Lemma applyToJob_success user now newId errors jobId resume cover faults st :
  success (applicationRoutes.applyToJob user now newId errors jobId resume cover faults st).1
    = true →
  ∃ i job,
    castObjectId jobId = Some i
    ∧ jobs st !! i = Some job
    ∧ jobSchema.isActive job = true
    ∧ ¬ hasApplied st i (Requester._id user)
    ∧ (applicationRoutes.applyToJob user now newId errors jobId resume cover faults st).2
      = withJobs <[i := jobSchema.incApplicationsCount 1 job]>
          (withApplications
             <[newId := Application.new i (Requester._id user) resume cover]> st).
Proof.
  apply_unfold.
  destruct errors as [|err errors]; mrun; [|discriminate].
  destruct (castObjectId jobId) as [i|]; mrun; [|discriminate].
  destruct (faultAt 0 faults); mrun; [discriminate|].
  destruct (jobs st !! i) as [job|] eqn:Hjob; mrun; [|discriminate].
  destruct (jobSchema.isActive job) eqn:Hact; mrun; [|discriminate].
  destruct (match jobSchema.applicationDeadline job with Some _ => _ | None => _ end);
    mrun; [discriminate|].
  destruct (faultAt 1 faults); mrun; [discriminate|].
  destruct (List.find _ _) as [d|] eqn:Hfind; mrun; [discriminate|].
  destruct (_ =? _)%N; mrun; [discriminate|].
  destruct (faultAt 2 faults); mrun; [discriminate|].
  destruct (negb (applicationSchema.validate _)); mrun; [discriminate|].
  rewrite preSave_pending by done.
  destruct (applications st !! newId); mrun; [discriminate|].
  cbn [Application.new applicationSchema.job applicationSchema.applicant]. rewrite Hfind. mrun.
  destruct (faultAt 3 faults); mrun; [discriminate|].
  destruct (faultAt 4 faults); mrun; [discriminate|].
  intros _. exists i, job. split; [done|]. split; [done|]. split; [done|]. split.
  - intros (k & b & Hk & Hb). by eapply findOne_None.
  - unfold withJobs, withApplications. cbn [jobs applications users].
    by rewrite (alter_present _ _ _ _ Hjob).
Qed.

(** An [Apply] for a pair that has an Application already never succeeds
    and changes nothing. *)
Lemma applyToJob_applied user now newId errors jobId resume cover faults st i :
  castObjectId jobId = Some i →
  hasApplied st i (Requester._id user) →
  success (applicationRoutes.applyToJob user now newId errors jobId resume cover faults st).1
    = false
  ∧ (applicationRoutes.applyToJob user now newId errors jobId resume cover faults st).2 = st
  ∧ (errors = [] → faultAt 0 faults = false → faultAt 1 faults = false →
     ∀ job, jobs st !! i = Some job → ¬ closedAt now job →
     (applicationRoutes.applyToJob user now newId errors jobId resume cover faults st).1
       = failure 400 "You have already applied to this job").
Proof.
  intros Hid Happlied. destruct (findOne_applied _ _ _ Happlied) as [d Hfind].
  apply_unfold. rewrite Hid.
  destruct errors as [|err errors]; mrun; [|by split_and!].
  destruct (faultAt 0 faults); mrun; [by split_and!|].
  destruct (jobs st !! i) as [job|] eqn:Hjob; mrun; [|by split_and!].
  destruct (jobSchema.isActive job) eqn:Hact; mrun.
  2:{ split_and!; [done|done|]. intros _ _ _ ? [= <-] Hopen. destruct Hopen. by left. }
  destruct (jobSchema.applicationDeadline job) as [deadline|] eqn:Hd.
  - destruct (now >? deadline) eqn:Hlate; mrun.
    { split_and!; [done|done|]. intros _ _ _ ? [= <-] Hopen. destruct Hopen.
      right. exists deadline. split; [done|lia]. }
    destruct (faultAt 1 faults); mrun; [by split_and!|].
    rewrite Hfind. mrun. by split_and!.
  - mrun. destruct (faultAt 1 faults); mrun; [by split_and!|].
    rewrite Hfind. mrun. by split_and!.
Qed.

(** The step each handler takes on the Application collection. *)
Lemma applyToJob_step user now newId errors jobId resume cover faults st :
  applicationsStep (applications st)
    (applications
       (applicationRoutes.applyToJob user now newId errors jobId resume cover faults st).2).
Proof.
  apply_unfold.
  destruct errors as [|err errors]; mrun; [|constructor].
  destruct (castObjectId jobId) as [i|]; mrun; [|constructor].
  destruct (faultAt 0 faults); mrun; [constructor|].
  destruct (jobs st !! i) as [job|] eqn:Hjob; mrun; [|constructor].
  destruct (jobSchema.isActive job) eqn:Hact; mrun; [|constructor].
  destruct (match jobSchema.applicationDeadline job with Some _ => _ | None => _ end);
    mrun; [constructor|].
  destruct (faultAt 1 faults); mrun; [constructor|].
  destruct (List.find _ _) as [d|] eqn:Hfind; mrun; [constructor|].
  destruct (_ =? _)%N; mrun; [constructor|].
  destruct (faultAt 2 faults); mrun; [constructor|].
  destruct (negb (applicationSchema.validate _)); mrun; [constructor|].
  rewrite preSave_pending by done.
  destruct (applications st !! newId); mrun; [constructor|].
  cbn [Application.new applicationSchema.job applicationSchema.applicant]. rewrite Hfind. mrun.
  assert (Hins : applicationsStep (applications st)
            (<[newId := Application.new i (Requester._id user) resume cover]> (applications st))).
  { apply StepInsert. intros k b Hk. by eapply findOne_None. }
  destruct (faultAt 3 faults); mrun; [exact Hins|].
  destruct (faultAt 4 faults); mrun; exact Hins.
Qed.

Lemma updateApplicationStatus_step user now errors id status notes faults st :
  applicationsStep (applications st)
    (applications
       (applicationRoutes.updateApplicationStatus user now errors id status notes faults st).2).
Proof.
  unfold applicationRoutes.updateApplicationStatus, tryCatch, castId,
    Application.findById_populate, Application.saveModified, Application.findById.
  destruct errors as [|err errors]; mrun; [|constructor].
  destruct (castObjectId id) as [i|]; mrun; [|constructor].
  destruct (faultAt 0 faults); mrun; [constructor|].
  destruct (applications st !! i) as [a|] eqn:Ha; cbn [fmap option_fmap option_map]; mrun;
    [|constructor].
  cbn [Application.job Application.doc].
  destruct (jobs st !! applicationSchema.job a) as [job|]; mrun; [|constructor].
  destruct (negb (_ =? _)%N && _); mrun; [constructor|].
  destruct (faultAt 1 faults); mrun; [constructor|].
  destruct (negb (applicationSchema.validate _)); mrun; [constructor|].
  rewrite Ha. mrun.
  erewrite preSave_keeps_set_reviewedAt by reflexivity.
  assert (Hmod : applicationsStep (applications st)
            (<[i := applicationSchema.mk (applicationSchema.job a)
                      (applicationSchema.applicant a) (applicationSchema.coverLetter a)
                      (applicationSchema.resumeLink a) status
                      (if truthy notes then notes else applicationSchema.notes a)
                      (Some now) (Some (Requester._id user))]> (applications st))).
  { by eapply StepModify. }
  destruct (faultAt 2 faults); mrun; exact Hmod.
Qed.

Lemma getApplication_store user id faults st :
  (applicationRoutes.getApplication user id faults st).2 = st.
Proof.
  unfold applicationRoutes.getApplication, tryCatch, castId, Application.findById_populate.
  destruct (castObjectId id) as [i|]; mrun; [|done].
  destruct (faultAt 0 faults); mrun; [done|].
  destruct (applications st !! i) as [a|]; cbn [fmap option_fmap option_map]; mrun; [|done].
  cbn [Application.applicant Application.job Application.doc].
  destruct (users st !! _); mrun; [|done].
  destruct (jobs st !! _); mrun; [|done].
  by destruct (negb _ && negb _ && negb _).
Qed.

Lemma withdrawApplication_step user id faults st :
  applicationsStep (applications st)
    (applications (applicationRoutes.withdrawApplication user id faults st).2).
Proof.
  unfold applicationRoutes.withdrawApplication, tryCatch, castId, Application.findById,
    Application.findByIdAndDelete, Job.findByIdAndUpdate_incApplicationsCount.
  destruct (castObjectId id) as [i|]; mrun; [|constructor].
  destruct (faultAt 0 faults); mrun; [constructor|].
  destruct (applications st !! i) as [a|]; mrun; [|constructor].
  destruct (negb (_ =? _)%N); mrun; [constructor|].
  destruct (existsb _ _); mrun; [constructor|].
  destruct (faultAt 1 faults); mrun; (destruct (faultAt 2 faults); mrun); constructor.
Qed.

Lemma find_store eng q s k n w : (Job.find eng q s k n w).2 = (w.1, tail w.2).
Proof.
  destruct w as [st faults]. unfold Job.find. rewrite await_run.
  destruct (faultAt 0 faults); [done|].
  destruct k; [|done]. destruct n; [|done].
  destruct (forallb _ q); [|done]. by destruct (_ && _).
Qed.

Lemma countDocuments_store eng q w : (Job.countDocuments eng q w).2 = (w.1, tail w.2).
Proof.
  destruct w as [st faults]. unfold Job.countDocuments. rewrite await_run.
  destruct (faultAt 0 faults); [done|]. by destruct (forallb _ q).
Qed.

Lemma getJobs_store eng user errors rq faults st :
  (jobRoutes.getJobs eng user errors rq faults st).2 = st.
Proof.
  unfold jobRoutes.getJobs, tryCatch, Application.find.
  destruct errors as [|err errors]; mrun; [|done].
  destruct (jobRoutes.buildQuery eng rq) as [q|]; mrun; [|done].
  match goal with
  | |- context [Job.find eng q ?s ?k ?n (st, faults)] =>
      pose proof (find_store eng q s k n (st, faults)) as H1;
      destruct (Job.find eng q s k n (st, faults)) as [r1 w1]
  end.
  cbn in H1. subst w1.
  pose proof (countDocuments_store eng q (st, tail faults)) as H2.
  destruct (Job.countDocuments eng q (st, tail faults)) as [r2 w2]. cbn in H2. subst w2.
  destruct r1 as [e|l]; [done|]. destruct r2 as [e|n]; [done|]. mrun.
  destruct n; destruct user as [user|]; mrun; try done;
    by (destruct (faultAt 2 faults); mrun).
Qed.

Lemma getJob_applications user id faults st :
  applications (jobRoutes.getJob user id faults st).2 = applications st.
Proof.
  unfold jobRoutes.getJob, tryCatch, castId, Job.findById,
    Job.findByIdAndUpdate_incViewsCount, Application.findOne.
  destruct (castObjectId id) as [i|]; mrun; [|done].
  destruct (faultAt 0 faults); mrun; [done|].
  destruct (jobs st !! i) as [job|]; mrun; [|done].
  destruct (jobSchema.isActive job); mrun; [|done].
  destruct (faultAt 1 faults); mrun; [done|].
  destruct user as [user|]; mrun; [|done].
  by destruct (faultAt 2 faults); mrun.
Qed.

Lemma createJob_applications user newId errors body faults st :
  applications (jobRoutes.createJob user newId errors body faults st).2 = applications st.
Proof.
  unfold jobRoutes.createJob, tryCatch, lift, Job.save, Job.findById.
  destruct errors as [|err errors]; mrun; [|done].
  destruct (jobRoutes.normalizeTags body) as [e|jobData]; mrun; [done|].
  destruct (Job.new _ jobData) as [e|job]; mrun; [done|].
  destruct (faultAt 0 faults); mrun; [done|].
  destruct (negb (jobSchema.validate job)); mrun; [done|].
  destruct (jobSchema.preSave job) as [e|job']; mrun; [done|].
  destruct (jobs st !! newId); mrun; [done|].
  by destruct (faultAt 1 faults); mrun.
Qed.

Lemma updateJob_applications user id body faults st :
  applications (jobRoutes.updateJob user id body faults st).2 = applications st.
Proof.
  unfold jobRoutes.updateJob, tryCatch, castId, Job.findById, Job.findByIdAndUpdate_set, lift.
  destruct (castObjectId id) as [i|]; mrun; [|done].
  destruct (faultAt 0 faults); mrun; [done|].
  destruct (jobs st !! i) as [job|] eqn:Hjob; mrun; [|done].
  destruct (negb (_ =? _)%N && _); mrun; [done|].
  destruct (jobRoutes.normalizeTags _) as [e|updates]; mrun; [done|].
  destruct (faultAt 1 faults); mrun; [done|].
  rewrite Hjob. mrun.
  destruct (Job.applySet false updates job) as [e|job']; mrun; [done|].
  by destruct (Job.updateValidators updates job'); mrun.
Qed.

Lemma deleteJob_step user id faults st :
  applicationsStep (applications st) (applications (jobRoutes.deleteJob user id faults st).2).
Proof.
  unfold jobRoutes.deleteJob, tryCatch, castId, Job.findById, Job.findByIdAndDelete,
    Application.deleteMany.
  destruct (castObjectId id) as [i|]; mrun; [|constructor].
  destruct (faultAt 0 faults); mrun; [constructor|].
  destruct (jobs st !! i) as [job|]; mrun; [|constructor].
  destruct (negb (_ =? _)%N && _); mrun; [constructor|].
  destruct (faultAt 1 faults); mrun; (destruct (faultAt 2 faults); mrun); constructor.
Qed.

Lemma handle_step eng now faults rq st :
  applicationsStep (applications st) (applications (handle eng now faults rq st).2).
Proof.
  destruct rq; cbn [handle].
  - apply applyToJob_step.
  - apply updateApplicationStatus_step.
  - rewrite getApplication_store. constructor.
  - apply withdrawApplication_step.
  - rewrite getJobs_store. constructor.
  - rewrite getJob_applications. constructor.
  - rewrite createJob_applications. constructor.
  - rewrite updateJob_applications. constructor.
  - apply deleteJob_step.
Qed.

Lemma serve_unique eng trace : ∀ st,
  uniqueApplications st → uniqueApplications (serve eng trace st).
Proof.
  induction trace as [|[[now faults] rq] rest IH]; intros st Hu; [done|].
  cbn [serve]. apply IH. eapply uniquePairs_step; [exact Hu|apply handle_step].
Qed.

(** C1 as the specification words it fails: a second [Apply]
    made once the deadline of the Job has passed is refused for the
    deadline (InvalidOperation), not as a duplicate (Conflict). *)
Lemma second_apply_after_deadline_is_not_conflict :
  let st := storeWithJob (sampleJob None None (Some 150)) in
  let first := applicationRoutes.applyToJob seeker 100 11%N [] id10 cv None [] st in
  let second := applicationRoutes.applyToJob seeker 200 12%N [] id10 cv None [] first.2 in
  success first.1 = true
  ∧ second.1 = failure 400 "Application deadline has passed"
  ∧ kindOf second.1 = Some Kind.InvalidOperation
  ∧ kindOf second.1 ≠ Some Kind.Conflict.
Proof. vm_compute. split_and!; done. Qed.

(** C1, amended. Along every sequence of requests, whatever the faults, at
    most one Application per (job, applicant) pair is stored.  After a
    successful [Apply], every further [Apply] of the same applicant to the
    same Job fails and leaves the store unchanged; the failure is 400 "You
    have already applied to this job" (Conflict) whenever the second
    request passes validation, its two lookups are served, and the Job is
    still active with its deadline not passed at the time of the call. *)
Theorem one_application_per_pair :
  (∀ eng trace st, uniqueApplications st → uniqueApplications (serve eng trace st))
  ∧ (∀ user now newId errors jobId resume cover faults st,
       let first :=
         applicationRoutes.applyToJob user now newId errors jobId resume cover faults st in
       success first.1 = true →
       ∀ now' newId' errors' resume' cover' faults',
         let second :=
           applicationRoutes.applyToJob user now' newId' errors' jobId resume' cover' faults'
             first.2 in
         success second.1 = false
         ∧ second.2 = first.2
         ∧ (errors' = [] → faultAt 0 faults' = false → faultAt 1 faults' = false →
            (∀ i job, castObjectId jobId = Some i → jobs first.2 !! i = Some job →
                      ¬ closedAt now' job) →
            second.1 = failure 400 "You have already applied to this job"
            ∧ kindOf second.1 = Some Kind.Conflict)).
Proof.
  split; [exact serve_unique|].
  intros user now newId errors jobId resume cover faults st first Hok
    now' newId' errors' resume' cover' faults' second.
  destruct (applyToJob_success _ _ _ _ _ _ _ _ _ Hok)
    as (i & job & Hid & Hjob & Hact & Hnew & Hst).
  fold first in Hst.
  assert (Happlied : hasApplied first.2 i (Requester._id user)).
  { exists newId, (Application.new i (Requester._id user) resume cover).
    rewrite Hst. cbn [applications withJobs withApplications].
    by rewrite lookup_insert_eq. }
  destruct (applyToJob_applied user now' newId' errors' jobId resume' cover' faults'
              first.2 i Hid Happlied) as (Hfail & Hsame & Hconflict).
  fold second in Hfail, Hsame, Hconflict.
  split; [exact Hfail|]. split; [exact Hsame|].
  intros He F0 F1 Hopen.
  assert (Hjob' : jobs first.2 !! i = Some (jobSchema.incApplicationsCount 1 job)).
  { rewrite Hst. cbn [jobs withJobs withApplications]. by rewrite lookup_insert_eq. }
  rewrite (Hconflict He F0 F1 _ Hjob' (Hopen _ _ Hid Hjob')). done.
Qed.

(** The theorem at work: two applications of [seeker] to Job 10, twenty
    milliseconds apart and before its deadline. *)
Lemma one_application_per_pair_witness :
  let st := storeWithJob (sampleJob None None (Some 150)) in
  let first := applicationRoutes.applyToJob seeker 100 11%N [] id10 cv None [] st in
  let second := applicationRoutes.applyToJob seeker 120 12%N [] id10 cv None [] first.2 in
  uniqueApplications
    (serve castingEngine [(100, [], Apply seeker 11%N [] id10 cv None);
                      (120, [], Apply seeker 12%N [] id10 cv None)] st)
  ∧ second.1 = failure 400 "You have already applied to this job"
  ∧ second.2 = first.2.
Proof.
  intros st first second.
  destruct one_application_per_pair as [Hunique Hsecond].
  split.
  - apply Hunique. intros i1 i2 a1 a2 H1.
    unfold st, storeWithJob in H1. cbn [applications] in H1.
    rewrite lookup_empty in H1. discriminate.
  - destruct (Hsecond seeker 100 11%N [] id10 cv None [] st eq_refl
                120 12%N [] cv None []) as (_ & Hsame & Hconflict).
    split; [|exact Hsame].
    apply Hconflict; [reflexivity..|].
    intros i job [= <-] Hjob. vm_compute in Hjob. injection Hjob as <-.
    intros [Hc|[d [[= <-] Hd]]]; [discriminate|lia].
Defined.

(** C4 as the specification words it fails: when an
    Application of the owner to the own, open Job is stored, the duplicate
    check comes first and the owner is answered Conflict. *)
Lemma owner_with_application_gets_conflict :
  let st := storeWithApplication (sampleJob None None None) ownApplication in
  jobSchema.createdBy (sampleJob None None None) = Requester._id recruiter
  ∧ applicationRoutes.applyToJob recruiter 100 12%N [] id10 cv None [] st
    = (failure 400 "You have already applied to this job", st)
  ∧ kindOf (applicationRoutes.applyToJob recruiter 100 12%N [] id10 cv None [] st).1
    = Some Kind.Conflict.
Proof. vm_compute. split_and!; done. Qed.

(** C4, amended. [Apply] by the owner of an existing Job always fails and
    leaves the store unchanged.  For a request that passes validation and
    whose lookups are served, the guards answer in the order of the
    handler: an inactive Job and a passed deadline with their own messages
    (InvalidOperation both), then a stored Application of the owner to the
    Job with "You have already applied to this job" (Conflict), and only
    then the own-job check with "You cannot apply to your own job posting"
    (InvalidOperation). *)
Theorem applyToJob_own_job user now newId errors jobId resume cover faults st i job :
  castObjectId jobId = Some i →
  jobs st !! i = Some job →
  jobSchema.createdBy job = Requester._id user →
  let result :=
    applicationRoutes.applyToJob user now newId errors jobId resume cover faults st in
  success result.1 = false
  ∧ result.2 = st
  ∧ (errors = [] → faultAt 0 faults = false →
     (jobSchema.isActive job = false →
        result.1 = failure 400 "This job is no longer accepting applications")
     ∧ (jobSchema.isActive job = true → closedAt now job →
        result.1 = failure 400 "Application deadline has passed")
     ∧ (closedAt now job → kindOf result.1 = Some Kind.InvalidOperation)
     ∧ (¬ closedAt now job → faultAt 1 faults = false →
        (hasApplied st i (Requester._id user) →
           result.1 = failure 400 "You have already applied to this job"
           ∧ kindOf result.1 = Some Kind.Conflict)
        ∧ (¬ hasApplied st i (Requester._id user) →
           result.1 = failure 400 "You cannot apply to your own job posting"
           ∧ kindOf result.1 = Some Kind.InvalidOperation))).
Proof.
  intros Hid Hjob Hown. apply_unfold. rewrite Hid.
  destruct errors as [|err errors]; mrun; [|by split_and!].
  destruct (faultAt 0 faults) eqn:F0; mrun; [by split_and!|].
  rewrite Hjob. mrun.
  destruct (jobSchema.isActive job) eqn:Hact; mrun.
  2:{ split_and!; [done|done|]. intros _ _. split_and!; [done|done|done|].
      intros Hopen. destruct Hopen. by left. }
  assert (Hclosed : ∀ deadline, jobSchema.applicationDeadline job = Some deadline →
                    (now >? deadline) = true → closedAt now job).
  { intros d Hd Hlate. right. exists d. split; [done|lia]. }
  assert (Hopen : (match jobSchema.applicationDeadline job with
                   | Some deadline => now >? deadline | None => false end) = false →
                  ¬ closedAt now job).
  { intros Hd [Hc|[d [Hd' Hlt]]]; [congruence|]. rewrite Hd' in Hd. lia. }
  destruct (match jobSchema.applicationDeadline job with
            | Some deadline => now >? deadline | None => false end) eqn:Hlate; mrun.
  { split_and!; [done|done|]. intros _ _. split_and!; [done|done|done|].
    intros Hnot. destruct Hnot. destruct (jobSchema.applicationDeadline job); [|done].
    by eapply Hclosed. }
  specialize (Hopen eq_refl).
  destruct (faultAt 1 faults) eqn:F1; mrun.
  { split_and!; [done|done|]. intros _ _. split_and!; [done|done|done|]. intros _ ?. done. }
  destruct (List.find _ _) as [d|] eqn:Hfind; mrun.
  - split_and!; [done|done|]. intros _ _. split_and!; [done|done|done|].
    intros _ _. split; [done|].
    intros Hnot. destruct Hnot. apply findOne_Some in Hfind as (? & ? & ?).
    by exists d.1, d.2.
  - rewrite Hown, N.eqb_refl. mrun.
    split_and!; [done|done|]. intros _ _. split_and!; [done|done|done|].
    intros _ _. split; [|done].
    intros (k & b & Hk & Hb). exfalso. by eapply findOne_None.
Qed.

(** The theorem at work: [recruiter] applies to the own Job 10, open and
    without any Application. *)
Lemma applyToJob_own_job_witness :
  let st := storeWithJob (sampleJob None None None) in
  let result := applicationRoutes.applyToJob recruiter 100 11%N [] id10 cv None [] st in
  success result.1 = false
  ∧ result.2 = st
  ∧ kindOf result.1 = Some Kind.InvalidOperation.
Proof.
  intros st result.
  destruct (applyToJob_own_job recruiter 100 11%N [] id10 cv None [] st 10%N
              (sampleJob None None None) eq_refl eq_refl eq_refl)
    as (Hfail & Hsame & Hkinds).
  split; [exact Hfail|]. split; [exact Hsame|].
  destruct (Hkinds eq_refl eq_refl) as (_ & _ & _ & Hopen).
  assert (Hnot : ¬ closedAt 100 (sampleJob None None None)).
  { intros [Hc|[d [Hd _]]]; discriminate. }
  destruct (Hopen Hnot eq_refl) as [_ Hnone].
  apply Hnone. intros (k & b & Hk & _).
  unfold st, storeWithJob in Hk. cbn [applications] in Hk.
  rewrite lookup_empty in Hk. discriminate.
Defined.

(** ** Application Tracker: the review timestamp *)

(** Every [UpdateStatus] that succeeds leaves the Application with the
    requested status and with [reviewedAt] equal to the time of this very
    call, whatever it held before. *)
Lemma updateApplicationStatus_success user now errors id status notes faults st i :
  castObjectId id = Some i →
  success (applicationRoutes.updateApplicationStatus user now errors id status notes faults st).1
    = true →
  ∃ a, applications (applicationRoutes.updateApplicationStatus
                       user now errors id status notes faults st).2 !! i = Some a
       ∧ applicationSchema.status a = status
       ∧ applicationSchema.reviewedAt a = Some now.
Proof.
  intros Hid.
  unfold applicationRoutes.updateApplicationStatus, tryCatch, castId,
    Application.findById_populate, Application.saveModified, Application.findById.
  destruct errors as [|err errors]; mrun; [|discriminate].
  rewrite Hid. mrun.
  destruct (faultAt 0 faults); mrun; [discriminate|].
  destruct (applications st !! i) as [a|] eqn:Ha; cbn [fmap option_fmap option_map]; mrun;
    [|discriminate].
  cbn [Application.job Application.doc].
  destruct (jobs st !! applicationSchema.job a) as [job|]; mrun; [|discriminate].
  destruct (negb (_ =? _)%N && _); mrun; [discriminate|].
  destruct (faultAt 1 faults); mrun; [discriminate|].
  destruct (negb (applicationSchema.validate _)); mrun; [discriminate|].
  rewrite Ha. mrun.
  destruct (faultAt 2 faults); mrun; [discriminate|].
  intros _. cbn [applications withApplications]. rewrite lookup_insert_eq.
  eexists. split; [reflexivity|].
  unfold applicationSchema.preSave. cbn [applicationSchema.reviewedAt applicationSchema.status].
  rewrite bool_decide_eq_true_2 by eauto. rewrite andb_false_r. done.
Qed.

(** C2. The handler against the specification, on a pending Application reviewed
    at time 200 and shortlisted at time 300: both calls succeed, and
    [reviewedAt] is 200 after the first and 300 after the second.  The
    specification has it stay 200. *)
Theorem updateApplicationStatus_overwrites_reviewedAt :
  let st0 := storeWithApplication (sampleJob None None None) pendingApplication in
  let first := applicationRoutes.updateApplicationStatus
                 recruiter 200 [] id11 "reviewed" None [] st0 in
  let second := applicationRoutes.updateApplicationStatus
                  recruiter 300 [] id11 "shortlisted" None [] first.2 in
  (applicationSchema.status <$> applications st0 !! 11%N) = Some "pending"
  ∧ (applicationSchema.reviewedAt <$> applications st0 !! 11%N) = Some None
  ∧ success first.1 = true
  ∧ (applicationSchema.status <$> applications first.2 !! 11%N) = Some "reviewed"
  ∧ (applicationSchema.reviewedAt <$> applications first.2 !! 11%N) = Some (Some 200)
  ∧ success second.1 = true
  ∧ (applicationSchema.status <$> applications second.2 !! 11%N) = Some "shortlisted"
  ∧ (applicationSchema.reviewedAt <$> applications second.2 !! 11%N) = Some (Some 300).
Proof. vm_compute. done. Qed.

(** ** Application Tracker: withdrawal *)

Lemma terminal_status s :
  existsb (String.eqb s) ["hired"; "rejected"] = true ↔ s = "hired" ∨ s = "rejected".
Proof.
  cbn [existsb]. rewrite !orb_true_iff, !String.eqb_eq. intuition discriminate.
Qed.

(** C5. For an existing Application whose applicant is the requester
    (and whose lookup succeeds), [Withdraw] fails with InvalidOperation
    exactly when the status is "hired" or "rejected", and then changes
    nothing; for every other status, when the two storage calls go
    through, it succeeds, removes the Application and lowers
    [applicationsCount] of the referenced Job by exactly one, leaving
    every other Job alone. *)
Theorem withdraw_terminal_iff user id i a faults st :
  castObjectId id = Some i →
  applications st !! i = Some a →
  applicationSchema.applicant a = Requester._id user →
  faultAt 0 faults = false →
  let terminal :=
    applicationSchema.status a = "hired" ∨ applicationSchema.status a = "rejected" in
  let result := applicationRoutes.withdrawApplication user id faults st in
  (kindOf result.1 = Some Kind.InvalidOperation ↔ terminal)
  ∧ (terminal → result.2 = st)
  ∧ (¬ terminal → faultAt 1 faults = false → faultAt 2 faults = false →
     result.1 = mkResponse 200 true (Some "Application withdrawn successfully") NoData
     ∧ applications result.2 = delete i (applications st)
     ∧ (∀ j, jobs st !! applicationSchema.job a = Some j →
          ∃ j', jobs result.2 !! applicationSchema.job a = Some j'
                ∧ jobSchema.applicationsCount j' = jobSchema.applicationsCount j - 1)
     ∧ (∀ k, k ≠ applicationSchema.job a → jobs result.2 !! k = jobs st !! k)).
Proof.
  intros Hid Happ Hown F0 terminal result. subst result.
  unfold applicationRoutes.withdrawApplication, tryCatch, castId, Application.findById,
    Application.findByIdAndDelete, Job.findByIdAndUpdate_incApplicationsCount.
  rewrite Hid. mrun. rewrite F0, Happ. mrun. rewrite Hown, N.eqb_refl. mrun.
  destruct (existsb _ _) eqn:Hterm.
  - apply terminal_status in Hterm. mrun. split; [|split]; [done|done|done].
  - assert (Hnt : ¬ terminal).
    { intros H. apply terminal_status in H. congruence. }
    mrun. split; [|split].
    + split; [|done]. destruct (faultAt 1 faults); mrun; destruct (faultAt 2 faults); mrun; intros H; by vm_compute in H.
    + done.
    + intros _ F1 F2. rewrite F1. mrun. rewrite F2. mrun. cbn [applications jobs withJobs withApplications].
      split; [done|]. split; [done|]. split.
      * intros j Hj. rewrite lookup_alter_eq, Hj. eexists. split; [done|]. by destruct j; cbn; lia.
      * intros k Hk. by rewrite lookup_alter_ne.
Qed.

(** The theorem at work: [seeker] withdraws the pending Application 11. *)
Lemma withdraw_terminal_iff_witness :
  let st := storeWithApplication (sampleJob None None None) pendingApplication in
  (applicationRoutes.withdrawApplication seeker id11 [] st).1
    = mkResponse 200 true (Some "Application withdrawn successfully") NoData
  ∧ applications (applicationRoutes.withdrawApplication seeker id11 [] st).2
    = delete 11%N (applications st).
Proof.
  intros st.
  pose proof (withdraw_terminal_iff seeker id11 11%N pendingApplication [] st
                eq_refl eq_refl eq_refl eq_refl) as (_ & _ & H).
  destruct H as (H1 & H2 & _);
    [intros [?|?]; discriminate | reflexivity | reflexivity |].
  exact (conj H1 H2).
Defined.

(** ** Job Catalog: the salary range *)

(** C3. The handlers against the specification: a Job created with the bounds
    3000 and 5000 and then updated with [salary: { min: 5000, max: 3000 }]
    is stored with [salary.min > salary.max]; the update succeeds, since
    [findByIdAndUpdate] runs the validators of the paths but not the
    [pre("save")] hook that holds the range check. *)
Theorem updateJob_stores_inverted_salary :
  let created := jobRoutes.createJob recruiter 10%N [] (jobBody 3000 5000) [] emptyStore in
  let updated := jobRoutes.updateJob recruiter id10 invertedSalary [] created.2 in
  success created.1 = true
  ∧ (jobSchema.salary <$> jobs created.2 !! 10%N)
    = Some (Salary.mk (Some 3000) (Some 5000) (Some "USD") (Some "yearly"))
  ∧ success updated.1 = true
  ∧ (jobSchema.salary <$> jobs updated.2 !! 10%N)
    = Some (Salary.mk (Some 5000) (Some 3000) None None)
  ∧ ∃ j, jobs updated.2 !! 10%N = Some j ∧ ¬ salaryOrdered j.
Proof.
  intros created updated.
  assert (Hs : (jobSchema.salary <$> jobs updated.2 !! 10%N)
               = Some (Salary.mk (Some 5000) (Some 3000) None None))
    by (vm_compute; done).
  split; [by vm_compute|]. split; [by vm_compute|]. split; [by vm_compute|].
  split; [exact Hs|].
  destruct (jobs updated.2 !! 10%N) as [j|]; [|discriminate].
  exists j. split; [done|]. injection Hs as Hs. intros H.
  specialize (H 5000 3000). rewrite Hs in H. specialize (H eq_refl eq_refl). lia.
Qed.

(** Through [Create] the same bounds are refused by the hook; the handler
    reports the generic 500 and stores nothing. *)
Example createJob_rejects_inverted_salary :
  jobRoutes.createJob recruiter 10%N [] (jobBody 5000 3000) [] emptyStore
  = (failure 500 "Server error creating job", emptyStore).
Proof. vm_compute. done. Qed.

(** The hook tests its operands for truthiness, so a bound of 0 passes
    for an absent one: [Create] stores the bounds 5000 and 0. *)
Example createJob_stores_zero_maximum :
  let created := jobRoutes.createJob recruiter 10%N [] (jobBody 5000 0) [] emptyStore in
  success created.1 = true
  ∧ (jobSchema.salary <$> jobs created.2 !! 10%N)
    = Some (Salary.mk (Some 5000) (Some 0) (Some "USD") (Some "yearly")).
Proof. vm_compute. done. Qed.

(** What the hook does guarantee when it lets a Job through: the bounds
    are ordered provided neither is 0. *)
Lemma preSave_ordered j j' :
  jobSchema.preSave j = inr j' →
  j' = j ∧ ∀ mn mx,
    Salary.min (jobSchema.salary j) = Some mn →
    Salary.max (jobSchema.salary j) = Some mx →
    mn ≠ 0 → mx ≠ 0 → mn <= mx.
Proof.
  unfold jobSchema.preSave, jobSchema.truthy, jobSchema.greater. intros H.
  destruct (Salary.min (jobSchema.salary j)) as [mn|],
           (Salary.max (jobSchema.salary j)) as [mx|];
    rewrite ?andb_false_r in H; cbn [andb] in H;
    try (injection H as <-; split; [done|]; intros; discriminate).
  destruct (negb (mn =? 0) && negb (mx =? 0) && (mn >? mx)) eqn:E; [discriminate|].
  injection H as <-. split; [done|]. intros ? ? [= <-] [= <-] Hn Hx.
  apply andb_false_iff in E as [E|E]; [apply andb_false_iff in E as [E|E]|]; lia.
Qed.

(** ** Job Catalog: reading one Job *)

(** C10. [Get] with an identifier that is not a valid document id answers
    400 "Invalid job ID format" -- a ValidationError, neither NotFound nor
    the generic failure -- whatever the store and the fault schedule, and
    leaves the store as it was. *)
Theorem getJob_invalid_id user id faults st :
  castObjectId id = None →
  jobRoutes.getJob user id faults st = (failure 400 "Invalid job ID format", st)
  ∧ kindOf (jobRoutes.getJob user id faults st).1 = Some Kind.ValidationError.
Proof.
  intros Hid. unfold jobRoutes.getJob, tryCatch, castId. rewrite Hid. mrun. done.
Qed.

(** The theorem at work on an identifier that is no ObjectId. *)
Lemma getJob_invalid_id_witness :
  jobRoutes.getJob None "not-an-id" [] emptyStore
    = (failure 400 "Invalid job ID format", emptyStore)
  ∧ kindOf (jobRoutes.getJob None "not-an-id" [] emptyStore).1 = Some Kind.ValidationError.
Proof. apply (getJob_invalid_id None "not-an-id" [] emptyStore). reflexivity. Defined.

(** C6 as the specification words it fails: on an existing
    active Job, when the lookup succeeds and the increment of [viewsCount]
    is rejected, the read does not return the Job; it answers the generic
    500. *)
Lemma getJob_increment_failure_aborts_read :
  let st := storeWithJob (sampleJob None None None) in
  jobs st !! 10%N = Some (sampleJob None None None)
  ∧ jobSchema.isActive (sampleJob None None None) = true
  ∧ jobRoutes.getJob None id10 [false; true] st
    = (failure 500 "Server error fetching job", st)
  ∧ success (jobRoutes.getJob None id10 [false; true] st).1 = false.
Proof. vm_compute. done. Qed.

(** C6, amended. On an existing active Job whose lookup succeeds: when the
    increment goes through, [viewsCount] of the stored Job grows by exactly
    one (nothing else changes) and the Job, as read before the increment,
    is returned provided the lookup of the requester's application, if
    any, succeeds too; when the increment is rejected the read fails with
    the generic 500 and the store is as it was. *)
Theorem getJob_counts_view user id i job faults st :
  castObjectId id = Some i →
  jobs st !! i = Some job →
  jobSchema.isActive job = true →
  faultAt 0 faults = false →
  (faultAt 1 faults = false →
     (jobRoutes.getJob user id faults st).2
       = withJobs <[i := jobSchema.incViewsCount 1 job]> st
     ∧ jobSchema.viewsCount (jobSchema.incViewsCount 1 job) = jobSchema.viewsCount job + 1
     ∧ (user = None ∨ faultAt 2 faults = false →
        ∃ s, (jobRoutes.getJob user id faults st).1
             = mkResponse 200 true None (JobWithStatus job s)))
  ∧ (faultAt 1 faults = true →
     jobRoutes.getJob user id faults st = (failure 500 "Server error fetching job", st)).
Proof.
  intros Hid Hjob Hact F0.
  unfold jobRoutes.getJob, tryCatch, castId, Job.findById,
    Job.findByIdAndUpdate_incViewsCount, Application.findOne.
  rewrite Hid. mrun. rewrite F0, Hjob. mrun. rewrite Hact. mrun.
  unfold withJobs at 1 2. rewrite (alter_present _ _ _ _ Hjob).
  split; intros F1; rewrite F1; mrun; [|reflexivity].
  split; [|split; [by destruct job|]].
  - destruct user as [user|]; mrun; [destruct (faultAt 2 faults); mrun|]; reflexivity.
  - destruct user as [user|]; mrun.
    + intros [?|F2]; [done|]. rewrite F2. mrun. eexists. reflexivity.
    + intros _. eexists. reflexivity.
Qed.

(** The theorem at work on Job 10: a read that counts, and a read whose
    increment is rejected. *)
Lemma getJob_counts_view_witness :
  (jobRoutes.getJob (Some seeker) id10 [] (storeWithJob (sampleJob None None None))).2
    = withJobs <[10%N := jobSchema.incViewsCount 1 (sampleJob None None None)]>
        (storeWithJob (sampleJob None None None))
  ∧ jobRoutes.getJob (Some seeker) id10 [false; true] (storeWithJob (sampleJob None None None))
    = (failure 500 "Server error fetching job", storeWithJob (sampleJob None None None)).
Proof.
  pose proof (getJob_counts_view (Some seeker) id10 10%N (sampleJob None None None) []
                (storeWithJob (sampleJob None None None))
                eq_refl eq_refl eq_refl eq_refl) as [H1 _].
  pose proof (getJob_counts_view (Some seeker) id10 10%N (sampleJob None None None)
                [false; true] (storeWithJob (sampleJob None None None))
                eq_refl eq_refl eq_refl eq_refl) as [_ H2].
  split; [exact (proj1 (H1 eq_refl)) | exact (H2 eq_refl)].
Defined.

(** ** Job Catalog: deletion cascades *)

(** C7. After a [Delete] of Job [i] that reports success, the Job is gone,
    no stored Application references it, and [GetOne] on any Application
    that referenced it answers 404 "Application not found" (NotFound) as
    soon as its lookup is served. *)
Theorem deleteJob_cascades user id i faults st :
  castObjectId id = Some i →
  success (jobRoutes.deleteJob user id faults st).1 = true →
  let st' := (jobRoutes.deleteJob user id faults st).2 in
  jobs st' !! i = None
  ∧ (∀ k a, applications st' !! k = Some a → applicationSchema.job a ≠ i)
  ∧ (∀ k a requester ks faults',
       applications st !! k = Some a →
       applicationSchema.job a = i →
       castObjectId ks = Some k →
       faultAt 0 faults' = false →
       applicationRoutes.getApplication requester ks faults' st'
         = (failure 404 "Application not found", st')
       ∧ kindOf (applicationRoutes.getApplication requester ks faults' st').1
         = Some Kind.NotFound).
Proof.
  intros Hid. 
  unfold jobRoutes.deleteJob, tryCatch, castId, Job.findById, Job.findByIdAndDelete,
    Application.deleteMany.
  rewrite Hid. mrun.
  destruct (faultAt 0 faults); mrun; [discriminate|].
  destruct (jobs st !! i) as [job|] eqn:Hjob; mrun; [|discriminate].
  destruct (negb (_ =? _)%N && _); mrun; [discriminate|].
  destruct (faultAt 1 faults); mrun; (destruct (faultAt 2 faults); mrun; [discriminate|]);
    [discriminate|].
  intros _. cbn [jobs applications withJobs withApplications].
  assert (Hgone : ∀ k a, filter (λ d : N * applicationSchema.t, applicationSchema.job d.2 ≠ i)
                           (applications st) !! k = Some a → applicationSchema.job a ≠ i).
  { intros k a H. apply map_lookup_filter_Some in H. apply H. }
  split; [apply lookup_delete_eq|]. split; [exact Hgone|].
  intros k a requester ks faults' Hk Ha Hks F0'.
  unfold applicationRoutes.getApplication, tryCatch, castId, Application.findById_populate.
  rewrite Hks. mrun. rewrite F0'. mrun. cbn [jobs applications users withJobs withApplications].
  destruct (filter _ (applications st) !! k) as [a'|] eqn:Hk'.
  - exfalso. pose proof (Hgone _ _ Hk') as Hne.
    apply map_lookup_filter_Some in Hk' as [Hk' _]. congruence.
  - cbn [fmap option_fmap option_map]. mrun. done.
Qed.

(** The theorem at work: [recruiter] deletes Job 10 and [seeker] asks for
    the Application 11 that referenced it. *)
Lemma deleteJob_cascades_witness :
  let st := storeWithApplication (sampleJob None None None) pendingApplication in
  let st' := (jobRoutes.deleteJob recruiter id10 [] st).2 in
  applicationRoutes.getApplication seeker id11 [] st'
    = (failure 404 "Application not found", st').
Proof.
  intros st st'.
  pose proof (deleteJob_cascades recruiter id10 10%N [] st eq_refl eq_refl) as (_ & _ & H).
  exact (proj1 (H 11%N pendingApplication seeker id11 [] eq_refl eq_refl eq_refl eq_refl)).
Defined.

(** ** Job Catalog: what an update may change *)

Lemma pathOf_name key p : jobSchema.pathOf key = Some p → jobSchema.pathName p = key.
Proof.
  unfold jobSchema.pathOf. intros H. apply find_some in H as [_ H].
  by apply String.eqb_eq.
Qed.

Lemma set_frame onNew p v j j' :
  jobSchema.set onNew p v j = inr j' →
  ∀ p', p' ≠ p → jobSchema.get p' j' = jobSchema.get p' j.
Proof.
  intros H p' Hne. destruct j. unfold jobSchema.set in H.
  destruct p;
    match type of H with
    | _ <$> ?c = _ => destruct c as [e|x]; cbn in H; [discriminate|]
    end;
    injection H as <-; destruct p'; try reflexivity; congruence.
Qed.

Lemma applySet_cons onNew key v r j :
  Job.applySet onNew ((key, v) :: r) j =
  match jobSchema.pathOf key with
  | Some p =>
      match jobSchema.set onNew p v j with
      | inr j' => Job.applySet onNew r j'
      | inl e => inl e
      end
  | None => Job.applySet onNew r j
  end.
Proof. reflexivity. Qed.

Lemma applySet_frame onNew updates : ∀ j j',
  Job.applySet onNew updates j = inr j' →
  ∀ p, (∀ key v, In (key, v) updates → jobSchema.pathOf key ≠ Some p) →
       jobSchema.get p j' = jobSchema.get p j.
Proof.
  induction updates as [|[key v] r IH]; intros j j' H p Hp.
  - by injection H as <-.
  - rewrite applySet_cons in H. destruct (jobSchema.pathOf key) as [q|] eqn:Hq.
    + destruct (jobSchema.set onNew q v j) as [e|j1] eqn:Hset; [discriminate|].
      rewrite (IH _ _ H p); [|intros; eapply Hp; by right].
      eapply set_frame; [exact Hset|]. intros ->. eapply Hp; [by left|done].
    + apply (IH _ _ H p). intros; eapply Hp; by right.
Qed.

Lemma replaceMember_keys key v o k x :
  In (k, x) (jobRoutes.replaceMember key v o) → ∃ x', In (k, x') o.
Proof.
  unfold jobRoutes.replaceMember. intros H. apply in_map_iff in H as [[k' x'] [H Hin]].
  destruct (String.eqb k' key); injection H as <- <-; eauto.
Qed.

Lemma normalizeTags_keys o o' k x :
  jobRoutes.normalizeTags o = inr o' → In (k, x) o' → ∃ x', In (k, x') o.
Proof.
  unfold jobRoutes.normalizeTags. intros H Hin.
  destruct (member "tags" o) as [[]|]; try (injection H as <-; eauto; fail).
  destruct (jobRoutes.lowerTrimmed items) as [e|l]; cbn in H; [discriminate|].
  injection H as <-. by eapply replaceMember_keys.
Qed.

Lemma allowed_spec key :
  key ∈ jobRoutes.allowedUpdates ↔ existsb (String.eqb key) jobRoutes.allowedUpdates = true.
Proof.
  rewrite list_elem_of_In, existsb_exists. split.
  - intros H. exists key. by rewrite String.eqb_refl.
  - intros [x [Hx Heq]]. by apply String.eqb_eq in Heq as ->.
Qed.

Lemma pickUpdates_allowed body k x :
  In (k, x) (jobRoutes.pickUpdates body) → k ∈ jobRoutes.allowedUpdates.
Proof.
  unfold jobRoutes.pickUpdates. intros H. apply filter_In in H as [_ H].
  by apply allowed_spec.
Qed.

(** C8. Whatever keys the body of an [Update] carries, and however the
    request ends, every stored Job is still stored afterwards and agrees
    with its former self on every schema path outside the allow-list; in
    particular [createdBy], [applicationsCount] and [viewsCount] are
    unchanged.  The Applications and the Users are untouched. *)
Theorem updateJob_changes_allowed_paths_only user id body faults st k j :
  jobs st !! k = Some j →
  let st' := (jobRoutes.updateJob user id body faults st).2 in
  (∃ j', jobs st' !! k = Some j'
     ∧ (∀ p, jobSchema.pathName p ∉ jobRoutes.allowedUpdates →
             jobSchema.get p j' = jobSchema.get p j)
     ∧ jobSchema.createdBy j' = jobSchema.createdBy j
     ∧ jobSchema.applicationsCount j' = jobSchema.applicationsCount j
     ∧ jobSchema.viewsCount j' = jobSchema.viewsCount j)
  ∧ applications st' = applications st
  ∧ users st' = users st.
Proof.
  intros Hk.
  assert (Hsame : (∃ j', jobs st !! k = Some j'
     ∧ (∀ p, jobSchema.pathName p ∉ jobRoutes.allowedUpdates →
             jobSchema.get p j' = jobSchema.get p j)
     ∧ jobSchema.createdBy j' = jobSchema.createdBy j
     ∧ jobSchema.applicationsCount j' = jobSchema.applicationsCount j
     ∧ jobSchema.viewsCount j' = jobSchema.viewsCount j)
    ∧ applications st = applications st ∧ users st = users st).
  { split; [|done]. exists j. done. }
  unfold jobRoutes.updateJob, tryCatch, castId, Job.findById, Job.findByIdAndUpdate_set, lift.
  destruct (castObjectId id) as [i|]; mrun; [|exact Hsame].
  destruct (faultAt 0 faults); mrun; [exact Hsame|].
  destruct (jobs st !! i) as [job|] eqn:Hjob; mrun; [|exact Hsame].
  destruct (negb (_ =? _)%N && _); mrun; [exact Hsame|].
  destruct (jobRoutes.normalizeTags _) as [e|updates] eqn:Hnorm; mrun; [exact Hsame|].
  destruct (faultAt 1 faults); mrun; [exact Hsame|].
  rewrite Hjob. mrun.
  destruct (Job.applySet false updates job) as [e|job'] eqn:Hset; mrun; [exact Hsame|].
  destruct (Job.updateValidators updates job'); mrun; [|exact Hsame].
  cbn [jobs applications users withJobs]. split; [|done].
  destruct (decide (i = k)) as [->|Hne].
  - rewrite lookup_insert_eq. exists job'. split; [done|].
    assert (j = job) as -> by congruence.
    assert (Hframe : ∀ p, jobSchema.pathName p ∉ jobRoutes.allowedUpdates →
                          jobSchema.get p job' = jobSchema.get p job).
    { intros p Hp. eapply applySet_frame; [exact Hset|].
      intros key v Hin Hpath. apply pathOf_name in Hpath. subst key.
      destruct (normalizeTags_keys _ _ _ _ Hnorm Hin) as [v' Hin'].
      apply Hp. by eapply pickUpdates_allowed. }
    split; [exact Hframe|].
    assert (H1 := Hframe jobSchema.PcreatedBy ltac:(by rewrite allowed_spec)).
    assert (H2 := Hframe jobSchema.PapplicationsCount ltac:(by rewrite allowed_spec)).
    assert (H3 := Hframe jobSchema.PviewsCount ltac:(by rewrite allowed_spec)).
    cbn in H1, H2, H3. split; [congruence|]. split; congruence.
  - rewrite lookup_insert_ne by done. exists j. done.
Qed.

(** The theorem at work on a body that names [viewsCount] and [createdBy]
    next to [title]. *)
Lemma updateJob_changes_allowed_paths_only_witness :
  let st := storeWithJob (sampleJob None None None) in
  let body := [("title", JStr "Senior Engineer"); ("viewsCount", JNum 999);
               ("createdBy", JStr id11)] in
  ∃ j', jobs (jobRoutes.updateJob recruiter id10 body [] st).2 !! 10%N = Some j'
        ∧ jobSchema.viewsCount j' = 0
        ∧ jobSchema.createdBy j' = 1%N.
Proof.
  intros st body.
  destruct (updateJob_changes_allowed_paths_only recruiter id10 body [] st 10%N
              (sampleJob None None None) eq_refl)
    as [(j' & Hj' & _ & Hc & _ & Hv) _].
  exists j'. split; [exact Hj'|]. split; [exact Hv | exact Hc].
Defined.

(** ** Job Catalog: the salary filter of the listing *)

Lemma member_assign_eq {A} key (v : A) o : member key (assign key v o) = Some v.
Proof.
  induction o as [|[k v'] r IH]; cbn.
  - by rewrite String.eqb_refl.
  - destruct (String.eqb k key) eqn:E; cbn; rewrite E; [done|exact IH].
Qed.

Lemma member_assign_ne {A} key key' (v : A) o :
  key ≠ key' → member key (assign key' v o) = member key o.
Proof.
  intros Hne. induction o as [|[k v'] r IH]; cbn.
  - destruct (String.eqb key' key) eqn:E; [|done]. apply String.eqb_eq in E. congruence.
  - destruct (String.eqb k key') eqn:E; cbn.
    + apply String.eqb_eq in E as ->.
      destruct (String.eqb key' key) eqn:E'; [|done]. apply String.eqb_eq in E'. congruence.
    + by rewrite IH.
Qed.

Lemma member_In {A} key (v : A) o : member key o = Some v → In (key, v) o.
Proof.
  induction o as [|[k v'] r IH]; cbn; [done|].
  destruct (String.eqb k key) eqn:E.
  - apply String.eqb_eq in E as ->. intros [= ->]. by left.
  - intros H. right. by apply IH.
Qed.

Lemma matches_member eng key c q j :
  member key q = Some c → Query.holds eng key c j = false → Query.matches eng q j = false.
Proof.
  intros Hm Hh. apply member_In in Hm. unfold Query.matches.
  apply not_true_iff_false. intros Hall. rewrite forallb_forall in Hall.
  specialize (Hall _ Hm). cbn in Hall. congruence.
Qed.

Lemma salaryFilter_maxSalary_only mn mx q :
  truthy mx = true → truthy mn = false →
  jobRoutes.salaryFilter mn mx q
  = assign "salary.max" (Lte (parseInt (default "" mx)))
      (assign "salary.min" (Equals (JObj [])) q).
Proof. intros Hx Hn. unfold jobRoutes.salaryFilter. by rewrite Hx, Hn. Qed.

Lemma buildQuery_maxSalary_only eng rq q :
  truthy (jobRoutes.maxSalary rq) = true →
  truthy (jobRoutes.minSalary rq) = false →
  jobRoutes.buildQuery eng rq = Some q →
  member "salary.min" q = Some (Equals (JObj []))
  ∧ member "salary.max" q
    = Some (Lte (parseInt (default "" (jobRoutes.maxSalary rq)))).
Proof.
  intros Hx Hn. unfold jobRoutes.buildQuery.
  destruct (if truthy (jobRoutes.location rq) then _ else _) as [q2|]; cbn; [|done].
  intros [= <-]. rewrite (salaryFilter_maxSalary_only _ _ _ Hx Hn).
  destruct (bool_decide _); rewrite ?(member_assign_ne _ "featured") by done;
    (split; [rewrite member_assign_ne by done|]); apply member_assign_eq.
Qed.

(** The filter is built whenever the pattern of the location, if one is
    given, compiles. *)
Lemma buildQuery_Some eng rq :
  (truthy (jobRoutes.location rq) = true →
   is_Some (regExp eng (default "" (jobRoutes.location rq)))) →
  is_Some (jobRoutes.buildQuery eng rq).
Proof.
  intros Hre. unfold jobRoutes.buildQuery.
  destruct (truthy (jobRoutes.location rq)); [|by eexists].
  destruct (Hre eq_refl) as [test ->]. by eexists.
Qed.

Lemma empty_condition_holds_never eng j :
  Query.holds eng "salary.min" (Equals (JObj [])) j = false.
Proof. reflexivity. Qed.

(** The cast of a query refuses a filter that binds [salary.min] to the
    empty object. *)
Lemma empty_condition_refused q :
  member "salary.min" q = Some (Equals (JObj [])) →
  forallb (fun '(key, c) => Query.accepts key c) q = false.
Proof.
  intros Hm. apply member_In in Hm. apply not_true_iff_false. intros Hall.
  rewrite forallb_forall in Hall. specialize (Hall _ Hm). discriminate.
Qed.

(** C9 as the specification words it fails: it speaks of the page that a
    [List] call with [maxSalary] and no [minSalary] returns, and such a
    call returns none.  On a store whose only Job pays between 3000 and
    5000, listed with [maxSalary=9000] and every storage call served, the
    answer is the generic 500. *)
Lemma getJobs_maxSalary_only_returns_no_page :
  let st := storeWithJob (sampleJob (Some 3000) (Some 5000) None) in
  let response := (jobRoutes.getJobs castingEngine None [] maxSalaryOnly [] st).1 in
  truthy (jobRoutes.maxSalary maxSalaryOnly) = true
  ∧ truthy (jobRoutes.minSalary maxSalaryOnly) = false
  ∧ response = failure 500 "Server error fetching jobs"
  ∧ success response = false
  ∧ ∀ jobs pagination, data response ≠ JobsPage jobs pagination.
Proof. vm_compute. split_and!; done. Qed.

(** C9, amended. A [List] call that has passed validation and gives
    [maxSalary] and no [minSalary]: whenever the pattern of the location,
    if one is given, compiles, the handler builds a filter that binds
    [salary.min] to the empty object and [salary.max] to the bound of the
    request; no Job at all satisfies that filter, and the mapper refuses
    it when it casts the query, so both queries of the listing reject
    with a cast error as soon as they are served.  The call therefore
    returns no page: whatever the store, the requester and the fault
    schedule, it answers the generic 500 and leaves the store as it
    was. *)
Theorem getJobs_maxSalary_only eng user rq faults st :
  truthy (jobRoutes.maxSalary rq) = true →
  truthy (jobRoutes.minSalary rq) = false →
  ((truthy (jobRoutes.location rq) = true →
    is_Some (regExp eng (default "" (jobRoutes.location rq)))) →
   ∃ q, jobRoutes.buildQuery eng rq = Some q
        ∧ member "salary.min" q = Some (Equals (JObj []))
        ∧ member "salary.max" q
          = Some (Lte (parseInt (default "" (jobRoutes.maxSalary rq))))
        ∧ (∀ j, Query.matches eng q j = false)
        ∧ (faultAt 0 faults = false →
           (∀ s k n, (Job.find eng q s (Some k) (Some n) (st, faults)).1 = inl CastError)
           ∧ (Job.countDocuments eng q (st, faults)).1 = inl CastError))
  ∧ jobRoutes.getJobs eng user [] rq faults st
    = (failure 500 "Server error fetching jobs", st)
  ∧ kindOf (jobRoutes.getJobs eng user [] rq faults st).1 = Some Kind.Unavailable
  ∧ returnedJobs (jobRoutes.getJobs eng user [] rq faults st).1 = [].
Proof.
  intros Hx Hn.
  assert (Hanswer : jobRoutes.getJobs eng user [] rq faults st
                    = (failure 500 "Server error fetching jobs", st)).
  { unfold jobRoutes.getJobs, tryCatch, Job.find, Job.countDocuments. mrun.
    destruct (jobRoutes.buildQuery eng rq) as [q|] eqn:Hq; mrun; [|done].
    destruct (buildQuery_maxSalary_only _ _ _ Hx Hn Hq) as [Hmin _].
    rewrite (empty_condition_refused _ Hmin).
    destruct (faultAt 0 faults); mrun; [by destruct (faultAt 1 faults); mrun|].
    destruct (p ← _; _) as [k|], (match jobRoutes.limit rq with Some _ => _ | None => _ end)
      as [n|]; mrun; by destruct (faultAt 1 faults); mrun. }
  split; [|by rewrite Hanswer].
  intros Hre. destruct (buildQuery_Some eng rq Hre) as [q Hq]. exists q.
  destruct (buildQuery_maxSalary_only _ _ _ Hx Hn Hq) as [Hmin Hmax].
  split_and!; [done|done|done| |].
  - intros j. eapply matches_member; [exact Hmin|reflexivity].
  - intros F0. split; [intros s k n|]; unfold Job.find, Job.countDocuments;
      by rewrite await_run, F0, (empty_condition_refused _ Hmin).
Qed.

(** The theorem at work on a store whose only Job pays between 3000 and
    5000, listed with [maxSalary=9000]. *)
Lemma getJobs_maxSalary_only_witness :
  let st := storeWithJob (sampleJob (Some 3000) (Some 5000) None) in
  (∃ q, jobRoutes.buildQuery castingEngine maxSalaryOnly = Some q
        ∧ member "salary.min" q = Some (Equals (JObj [])))
  ∧ jobRoutes.getJobs castingEngine None [] maxSalaryOnly [] st
    = (failure 500 "Server error fetching jobs", st).
Proof.
  intros st.
  destruct (getJobs_maxSalary_only castingEngine None maxSalaryOnly [] st eq_refl eq_refl)
    as (Hq & Hr & _).
  split; [|exact Hr].
  destruct Hq as (q & Hq & Hmin & _); [discriminate|]. by exists q.
Defined.

(** * Further properties of the handlers *)

(** ** Who may do what *)

(** The test that the handlers for the owner of a Job make. *)
Lemma denied_iff user job :
  negb (jobSchema.createdBy job =? Requester._id user)%N
  && negb (String.eqb (Requester.role user) "admin") = true
  ↔ ¬ mayManage user job.
Proof.
  unfold mayManage. rewrite andb_true_iff, !negb_true_iff, N.eqb_neq, String.eqb_neq.
  tauto.
Qed.

Lemma denied_false user job :
  mayManage user job →
  negb (jobSchema.createdBy job =? Requester._id user)%N
  && negb (String.eqb (Requester.role user) "admin") = false.
Proof.
  intros H. apply not_true_is_false. rewrite denied_iff. tauto.
Qed.

(** X1. [UpdateStatus] on a stored Application of a stored Job, past
    validation and with its lookup served, answers 403 (Forbidden) exactly
    when the requester is neither the owner of the Job nor an
    administrator, and then leaves the store as it was; the applicant
    alone cannot change the status of the own Application. *)
Theorem updateApplicationStatus_access user now id status notes faults st i a job :
  castObjectId id = Some i →
  applications st !! i = Some a →
  jobs st !! applicationSchema.job a = Some job →
  faultAt 0 faults = false →
  let result :=
    applicationRoutes.updateApplicationStatus user now [] id status notes faults st in
  (result = (failure 403
               "Access denied. You can only update applications for your own jobs.", st)
   ↔ ¬ mayManage user job)
  ∧ (kindOf result.1 = Some Kind.Forbidden ↔ ¬ mayManage user job).
Proof.
  intros Hid Ha Hjob F0 result. subst result.
  unfold applicationRoutes.updateApplicationStatus, tryCatch, castId,
    Application.findById_populate, Application.saveModified, Application.findById.
  mrun. rewrite Hid. mrun. rewrite F0, Ha. cbn [fmap option_fmap option_map]. mrun.
  cbn [Application.job Application.doc]. rewrite Hjob. mrun.
  rewrite <- denied_iff.
  destruct (negb (_ =? _)%N && _); mrun; [done|].
  destruct (faultAt 1 faults); mrun; [by split; split|].
  destruct (negb (applicationSchema.validate _)); mrun; [by split; split|].
  rewrite Ha. mrun.
  destruct (faultAt 2 faults); mrun; by split; split.
Qed.

(** The theorem at work: [seeker] tries to shortlist the own
    Application 11. *)
Lemma updateApplicationStatus_access_witness :
  let st := storeWithApplication (sampleJob None None None) pendingApplication in
  applicationRoutes.updateApplicationStatus seeker 200 [] id11 "shortlisted" None [] st
  = (failure 403 "Access denied. You can only update applications for your own jobs.", st).
Proof.
  intros st.
  apply (updateApplicationStatus_access seeker 200 id11 "shortlisted" None [] st 11%N
           pendingApplication (sampleJob None None None) eq_refl eq_refl eq_refl eq_refl).
  intros [H|H]; discriminate.
Defined.

(** X2. [GetOne] on a stored Application whose applicant and Job are
    stored, with its lookup served: the Application is returned when the
    requester is its applicant, the owner of its Job or an administrator,
    and the answer is 403 otherwise; the store is never touched. *)
Theorem getApplication_access user id faults st i a u job :
  castObjectId id = Some i →
  applications st !! i = Some a →
  users st !! applicationSchema.applicant a = Some u →
  jobs st !! applicationSchema.job a = Some job →
  faultAt 0 faults = false →
  let allowed :=
    applicationSchema.applicant a = Requester._id user ∨ mayManage user job in
  let result := applicationRoutes.getApplication user id faults st in
  (allowed → result = (mkResponse 200 true None (ApplicationData (Some a)), st))
  ∧ (¬ allowed →
     result = (failure 403
       "Access denied. You can only view your own applications or applications to your jobs.",
       st)
     ∧ kindOf result.1 = Some Kind.Forbidden).
Proof.
  intros Hid Ha Hu Hjob F0 allowed result. subst result allowed.
  unfold applicationRoutes.getApplication, tryCatch, castId, Application.findById_populate.
  rewrite Hid. mrun. rewrite F0, Ha. cbn [fmap option_fmap option_map]. mrun.
  cbn [Application.applicant Application.job Application.doc]. rewrite Hu, Hjob. mrun.
  unfold mayManage.
  destruct (N.eqb_spec (applicationSchema.applicant a) (Requester._id user)),
           (N.eqb_spec (jobSchema.createdBy job) (Requester._id user)),
           (String.eqb_spec (Requester.role user) "admin"); mrun;
    split; intros H; try done; try (exfalso; tauto).
Qed.

(** The theorem at work: the applicant reads the Application 11, and a
    third user is refused. *)
Lemma getApplication_access_witness :
  let st := storeWithApplication (sampleJob None None None) pendingApplication in
  applicationRoutes.getApplication seeker id11 [] st
    = (mkResponse 200 true None (ApplicationData (Some pendingApplication)), st)
  ∧ kindOf (applicationRoutes.getApplication (Requester.mk 3%N "job_seeker") id11 [] st).1
    = Some Kind.Forbidden.
Proof.
  intros st. split.
  - apply (getApplication_access seeker id11 [] st 11%N pendingApplication
             (UserSchema.mk "Sam" "sam@example.org" "secret" "job_seeker")
             (sampleJob None None None) eq_refl eq_refl eq_refl eq_refl eq_refl).
    by left.
  - apply (getApplication_access (Requester.mk 3%N "job_seeker") id11 [] st 11%N
             pendingApplication
             (UserSchema.mk "Sam" "sam@example.org" "secret" "job_seeker")
             (sampleJob None None None) eq_refl eq_refl eq_refl eq_refl eq_refl).
    intros [H|[H|H]]; discriminate.
Defined.

(** X3. [Withdraw] is for the applicant alone: on a stored Application of
    somebody else the request never succeeds and never changes the store,
    whatever the role of the requester (the owner of the Job and an
    administrator included) and whatever the status of the Application;
    with the lookup served the answer is 403. *)
Theorem withdrawApplication_applicant_only user id faults st i a :
  castObjectId id = Some i →
  applications st !! i = Some a →
  applicationSchema.applicant a ≠ Requester._id user →
  let result := applicationRoutes.withdrawApplication user id faults st in
  success result.1 = false
  ∧ result.2 = st
  ∧ (faultAt 0 faults = false →
     result.1 = failure 403 "Access denied. You can only withdraw your own applications."
     ∧ kindOf result.1 = Some Kind.Forbidden).
Proof.
  intros Hid Ha Hne result. subst result.
  unfold applicationRoutes.withdrawApplication, tryCatch, castId, Application.findById.
  rewrite Hid. mrun.
  destruct (faultAt 0 faults); mrun; [by split_and!|].
  rewrite Ha. mrun. apply N.eqb_neq in Hne. rewrite Hne. mrun. by split_and!.
Qed.

(** The theorem at work: the owner of Job 10 tries to withdraw the
    Application of [seeker]. *)
Lemma withdrawApplication_applicant_only_witness :
  let st := storeWithApplication (sampleJob None None None) pendingApplication in
  (applicationRoutes.withdrawApplication recruiter id11 [] st).2 = st
  ∧ (applicationRoutes.withdrawApplication recruiter id11 [] st).1
    = failure 403 "Access denied. You can only withdraw your own applications.".
Proof.
  intros st.
  destruct (withdrawApplication_applicant_only recruiter id11 [] st 11%N pendingApplication
              eq_refl eq_refl) as (_ & Hst & Hr); [discriminate|].
  split; [exact Hst | exact (proj1 (Hr eq_refl))].
Defined.

(** X4. [Update] and [Delete] of a stored Job, with the lookup served,
    answer 403 "Access denied" exactly when the requester is neither the
    owner of the Job nor an administrator, and then change nothing. *)
Theorem job_owner_or_admin user id body faults st i job :
  castObjectId id = Some i →
  jobs st !! i = Some job →
  faultAt 0 faults = false →
  (jobRoutes.updateJob user id body faults st = (failure 403 "Access denied", st)
   ↔ ¬ mayManage user job)
  ∧ (jobRoutes.deleteJob user id faults st = (failure 403 "Access denied", st)
     ↔ ¬ mayManage user job).
Proof.
  intros Hid Hjob F0. rewrite <- denied_iff. split.
  - unfold jobRoutes.updateJob, tryCatch, castId, Job.findById, Job.findByIdAndUpdate_set, lift.
    rewrite Hid. mrun. rewrite F0, Hjob. mrun.
    destruct (negb (_ =? _)%N && _); mrun; [done|].
    destruct (jobRoutes.normalizeTags _) as [e|updates]; mrun; [by split|].
    destruct (faultAt 1 faults); mrun; [by split|].
    rewrite Hjob. mrun.
    destruct (Job.applySet false updates job) as [e|job']; mrun; [by split|].
    destruct (Job.updateValidators updates job'); mrun; by split.
  - unfold jobRoutes.deleteJob, tryCatch, castId, Job.findById, Job.findByIdAndDelete,
      Application.deleteMany.
    rewrite Hid. mrun. rewrite F0, Hjob. mrun.
    destruct (negb (_ =? _)%N && _); mrun; [done|].
    destruct (faultAt 1 faults); mrun; (destruct (faultAt 2 faults); mrun); by split.
Qed.

(** The theorem at work: [seeker] tries to delete Job 10 of
    [recruiter]. *)
Lemma job_owner_or_admin_witness :
  let st := storeWithJob (sampleJob None None None) in
  jobRoutes.deleteJob seeker id10 [] st = (failure 403 "Access denied", st).
Proof.
  intros st.
  apply (job_owner_or_admin seeker id10 [] [] st 10%N (sampleJob None None None)
           eq_refl eq_refl eq_refl).
  intros [H|H]; discriminate.
Defined.

(** ** Documents that are not there, identifiers that are none *)

(** X5. The three routes that take the identifier of an Application
    answer 404 "Application not found" (NotFound) when no such
    Application is stored and the lookup is served, and change nothing. *)
Theorem application_not_found user now id status notes faults st i :
  castObjectId id = Some i →
  applications st !! i = None →
  faultAt 0 faults = false →
  let answer := (failure 404 "Application not found", st) in
  applicationRoutes.getApplication user id faults st = answer
  ∧ applicationRoutes.withdrawApplication user id faults st = answer
  ∧ applicationRoutes.updateApplicationStatus user now [] id status notes faults st = answer
  ∧ kindOf answer.1 = Some Kind.NotFound.
Proof.
  intros Hid Hnone F0 answer. subst answer. split_and!; [| | |done].
  - unfold applicationRoutes.getApplication, tryCatch, castId, Application.findById_populate.
    rewrite Hid. mrun. rewrite F0, Hnone. cbn [fmap option_fmap option_map]. by mrun.
  - unfold applicationRoutes.withdrawApplication, tryCatch, castId, Application.findById.
    rewrite Hid. mrun. rewrite F0, Hnone. by mrun.
  - unfold applicationRoutes.updateApplicationStatus, tryCatch, castId,
      Application.findById_populate.
    mrun. rewrite Hid. mrun. rewrite F0, Hnone. cbn [fmap option_fmap option_map]. by mrun.
Qed.

(** The theorem at work: Application 11 in a store that holds Job 10
    only. *)
Lemma application_not_found_witness :
  let st := storeWithJob (sampleJob None None None) in
  applicationRoutes.withdrawApplication seeker id11 [] st
  = (failure 404 "Application not found", st).
Proof.
  intros st.
  exact (proj1 (proj2 (application_not_found seeker 0 id11 "" None [] st 11%N
                         eq_refl eq_refl eq_refl))).
Defined.

(** X6. [Get] of a Job, with the lookup served, answers 404 "Job not found
    or inactive" exactly when no Job of that identifier is stored or the
    stored one is inactive; an inactive Job is hidden from everybody, its
    owner included, and the refused read counts no view. *)
Theorem getJob_hidden_iff user id faults st i :
  castObjectId id = Some i →
  faultAt 0 faults = false →
  (jobRoutes.getJob user id faults st = (failure 404 "Job not found or inactive", st)
   ↔ ∀ job, jobs st !! i = Some job → jobSchema.isActive job = false)
  ∧ (kindOf (jobRoutes.getJob user id faults st).1 = Some Kind.NotFound
     ↔ ∀ job, jobs st !! i = Some job → jobSchema.isActive job = false).
Proof.
  intros Hid F0.
  unfold jobRoutes.getJob, tryCatch, castId, Job.findById,
    Job.findByIdAndUpdate_incViewsCount, Application.findOne.
  rewrite Hid. mrun. rewrite F0. mrun.
  destruct (jobs st !! i) as [job|] eqn:Hjob; mrun; [|by split; split].
  destruct (jobSchema.isActive job) eqn:Hact; mrun.
  2:{ split; (split; [intros _ ? [= <-]; exact Hact|done]). }
  assert (Hno : ¬ ∀ job0, Some job = Some job0 → jobSchema.isActive job0 = false).
  { intros H. specialize (H job eq_refl). congruence. }
  destruct (faultAt 1 faults); mrun; [by split; split|].
  destruct user as [user|]; mrun; [|by split; split].
  destruct (faultAt 2 faults); mrun; by split; split.
Qed.

(** The theorem at work: the owner asks for the own Job, which is
    inactive. *)
Lemma getJob_hidden_iff_witness :
  let closed := jobSchema.mk "Engineer" "Acme"
    "Builds and maintains the services behind the job board." None
    "Paris" "full-time" "technology" (Salary.mk None None None None) [] "" "mid" []
    None false false 0 0 1%N in
  jobRoutes.getJob (Some recruiter) id10 [] (storeWithJob closed)
  = (failure 404 "Job not found or inactive", storeWithJob closed).
Proof.
  intros closed.
  apply (getJob_hidden_iff (Some recruiter) id10 [] (storeWithJob closed) 10%N
           eq_refl eq_refl).
  intros job [= <-]. reflexivity.
Defined.

(** X7. The routes that start from the identifier of a Job -- [Update],
    [Delete], [Apply] and the listing of the Applications of a Job -- answer
    404 "Job not found" when no such Job is stored and the lookup is
    served, and change nothing. *)
Theorem job_not_found user now newId id body resume cover page limit status newestFirst
    faults st i :
  castObjectId id = Some i →
  jobs st !! i = None →
  faultAt 0 faults = false →
  let answer := failure 404 "Job not found" in
  jobRoutes.updateJob user id body faults st = (answer, st)
  ∧ jobRoutes.deleteJob user id faults st = (answer, st)
  ∧ applicationRoutes.applyToJob user now newId [] id resume cover faults st = (answer, st)
  ∧ applicationPages.getJobApplications user [] id page limit status newestFirst faults st
    = (applicationPages.Failed answer, st)
  ∧ kindOf answer = Some Kind.NotFound.
Proof.
  intros Hid Hnone F0 answer. subst answer. split_and!; [| | | |done].
  - unfold jobRoutes.updateJob, tryCatch, castId, Job.findById.
    rewrite Hid. mrun. rewrite F0, Hnone. by mrun.
  - unfold jobRoutes.deleteJob, tryCatch, castId, Job.findById.
    rewrite Hid. mrun. rewrite F0, Hnone. by mrun.
  - unfold applicationRoutes.applyToJob, tryCatch, castId, Job.findById.
    mrun. rewrite Hid. mrun. rewrite F0, Hnone. by mrun.
  - unfold applicationPages.getJobApplications, tryCatchAs, castId, Job.findById.
    mrun. rewrite Hid. mrun. rewrite F0, Hnone. by mrun.
Qed.

(** The theorem at work: an application to a Job that the empty store
    does not hold. *)
Lemma job_not_found_witness :
  applicationRoutes.applyToJob seeker 100 11%N [] id10 cv None [] emptyStore
  = (failure 404 "Job not found", emptyStore).
Proof.
  exact (proj1 (proj2 (proj2
    (job_not_found seeker 100 11%N id10 [] cv None None None None (fun _ _ => true)
       [] emptyStore 10%N eq_refl eq_refl eq_refl)))).
Defined.

(** X8. Only [Get] of a Job tells a malformed identifier from a failure
    of the storage: on an identifier that is no ObjectId the other routes
    that take one in their path answer their generic 500, each with its
    own message, whatever the store and the fault schedule, and change
    nothing. *)
Theorem malformed_id_generic_failure user now id status notes body page limit filter
    newestFirst faults st :
  castObjectId id = None →
  applicationRoutes.getApplication user id faults st
    = (failure 500 "Server error fetching application", st)
  ∧ applicationRoutes.updateApplicationStatus user now [] id status notes faults st
    = (failure 500 "Server error updating application status", st)
  ∧ applicationRoutes.withdrawApplication user id faults st
    = (failure 500 "Server error withdrawing application", st)
  ∧ jobRoutes.updateJob user id body faults st
    = (failure 500 "Server error updating job", st)
  ∧ jobRoutes.deleteJob user id faults st
    = (failure 500 "Server error deleting job", st)
  ∧ applicationPages.getJobApplications user [] id page limit filter newestFirst faults st
    = (applicationPages.Failed (failure 500 "Server error fetching job applications"), st).
Proof.
  intros Hid.
  unfold applicationRoutes.getApplication, applicationRoutes.updateApplicationStatus,
    applicationRoutes.withdrawApplication, jobRoutes.updateJob, jobRoutes.deleteJob,
    applicationPages.getJobApplications, tryCatch, tryCatchAs, castId.
  rewrite Hid. split_and!; by mrun.
Qed.

(** The theorem at work on an identifier that is no ObjectId. *)
Lemma malformed_id_generic_failure_witness :
  jobRoutes.deleteJob recruiter "not-an-id" [] emptyStore
  = (failure 500 "Server error deleting job", emptyStore).
Proof.
  exact (proj1 (proj2 (proj2 (proj2 (proj2
    (malformed_id_generic_failure recruiter 0 "not-an-id" "" None [] None None None
       (fun _ _ => true) [] emptyStore eq_refl)))))).
Defined.

(** ** Applying *)

(** X9. An [Apply] to a stored Job that takes no applications at the time
    of the request -- inactive, or with its deadline passed -- is refused
    with 400 (InvalidOperation) for every requester, with the message of
    the first of the two guards that fires, and changes nothing. *)
Theorem applyToJob_closed user now newId jobId resume cover faults st i job :
  castObjectId jobId = Some i →
  jobs st !! i = Some job →
  faultAt 0 faults = false →
  closedAt now job →
  let result := applicationRoutes.applyToJob user now newId [] jobId resume cover faults st in
  result = (failure 400 (if jobSchema.isActive job
                         then "Application deadline has passed"
                         else "This job is no longer accepting applications"), st)
  ∧ kindOf result.1 = Some Kind.InvalidOperation.
Proof.
  intros Hid Hjob F0 Hclosed result. subst result.
  unfold applicationRoutes.applyToJob, tryCatch, castId, Job.findById.
  mrun. rewrite Hid. mrun. rewrite F0, Hjob. mrun.
  destruct (jobSchema.isActive job) eqn:Hact; mrun; [|done].
  destruct Hclosed as [?|(d & Hd & Hlate)]; [congruence|].
  rewrite Hd. replace (now >? d) with true by lia. by mrun.
Qed.

(** The theorem at work: an application at time 200 to a Job whose
    deadline was 150. *)
Lemma applyToJob_closed_witness :
  let st := storeWithJob (sampleJob None None (Some 150)) in
  applicationRoutes.applyToJob seeker 200 11%N [] id10 cv None [] st
  = (failure 400 "Application deadline has passed", st).
Proof.
  intros st.
  apply (applyToJob_closed seeker 200 11%N id10 cv None [] st 10%N
           (sampleJob None None (Some 150)) eq_refl eq_refl eq_refl).
  right. exists 150. split; [reflexivity|lia].
Defined.

(** X10. What a successful [Apply] has found and done: the Job is stored,
    takes applications at the time of the request and is not the
    requester's own; the requester had no Application to it, and the
    identifier of the new document was free.  The response is 201 with the
    new Application, which is pending and carries the resume link and the
    cover letter of the request; the store gains this Application,
    [applicationsCount] of the Job grows by one, and nothing else
    changes. *)
Theorem applyToJob_effect user now newId errors jobId resume cover faults st :
  let result :=
    applicationRoutes.applyToJob user now newId errors jobId resume cover faults st in
  success result.1 = true →
  ∃ i job,
    let application := Application.new i (Requester._id user) resume cover in
    castObjectId jobId = Some i
    ∧ jobs st !! i = Some job
    ∧ ¬ closedAt now job
    ∧ jobSchema.createdBy job ≠ Requester._id user
    ∧ ¬ hasApplied st i (Requester._id user)
    ∧ applications st !! newId = None
    ∧ result.1 = mkResponse 201 true (Some "Application submitted successfully")
                   (ApplicationData (Some application))
    ∧ applications result.2 = <[newId := application]> (applications st)
    ∧ jobs result.2 = <[i := jobSchema.incApplicationsCount 1 job]> (jobs st)
    ∧ jobSchema.applicationsCount (jobSchema.incApplicationsCount 1 job)
      = jobSchema.applicationsCount job + 1
    ∧ users result.2 = users st.
Proof.
  intros result. subst result. apply_unfold.
  destruct errors as [|err errors]; mrun; [|discriminate].
  destruct (castObjectId jobId) as [i|]; mrun; [|discriminate].
  destruct (faultAt 0 faults); mrun; [discriminate|].
  destruct (jobs st !! i) as [job|] eqn:Hjob; mrun; [|discriminate].
  destruct (jobSchema.isActive job) eqn:Hact; mrun; [|discriminate].
  destruct (match jobSchema.applicationDeadline job with Some _ => _ | None => _ end)
    eqn:Hlate; mrun; [discriminate|].
  destruct (faultAt 1 faults); mrun; [discriminate|].
  destruct (List.find _ _) as [d|] eqn:Hfind; mrun; [discriminate|].
  destruct (N.eqb_spec (jobSchema.createdBy job) (Requester._id user)) as [|Hother];
    mrun; [discriminate|].
  destruct (faultAt 2 faults); mrun; [discriminate|].
  destruct (negb (applicationSchema.validate _)); mrun; [discriminate|].
  rewrite preSave_pending by done.
  destruct (applications st !! newId) eqn:Hfree; mrun; [discriminate|].
  cbn [Application.new applicationSchema.job applicationSchema.applicant]. rewrite Hfind. mrun.
  destruct (faultAt 3 faults); mrun; [discriminate|].
  destruct (faultAt 4 faults); mrun; [discriminate|].
  intros _. exists i, job. cbn zeta.
  cbn [jobs applications users withJobs withApplications].
  split_and!; try done.
  - intros [Hc|(dl & Hd & Hlt)]; [congruence|]. rewrite Hd in Hlate. lia.
  - intros (k & b & Hk & Hb). by eapply findOne_None.
  - by rewrite lookup_insert_eq.
  - by rewrite (alter_present _ _ _ _ Hjob).
  - by destruct job; cbn.
Qed.

(** The theorem at work: [seeker] applies to Job 10. *)
Lemma applyToJob_effect_witness :
  let st := storeWithJob (sampleJob None None None) in
  ∃ i job,
    castObjectId id10 = Some i
    ∧ jobs st !! i = Some job
    ∧ jobs (applicationRoutes.applyToJob seeker 100 11%N [] id10 cv None [] st).2
      = <[i := jobSchema.incApplicationsCount 1 job]> (jobs st).
Proof.
  intros st.
  destruct (applyToJob_effect seeker 100 11%N [] id10 cv None [] st eq_refl)
    as (i & job & H).
  exists i, job. cbn zeta in H. tauto.
Defined.

(** The lookup of the duplicate check finds nothing for a pair without an
    Application. *)
Lemma findOne_not_applied st j a :
  ¬ hasApplied st j a →
  List.find (Application.sameJobAndApplicant j a) (map_to_list (applications st)) = None.
Proof.
  intros Hnot. destruct (List.find _ _) as [d|] eqn:Hfind; [|done].
  destruct Hnot. apply findOne_Some in Hfind as (? & ? & ?). by exists d.1, d.2.
Qed.

Lemma open_deadline now job :
  ¬ closedAt now job →
  jobSchema.isActive job = true
  ∧ match jobSchema.applicationDeadline job with
    | Some deadline => now >? deadline
    | None => false
    end = false.
Proof.
  intros Hopen. split.
  - destruct (jobSchema.isActive job) eqn:Hact; [done|]. destruct Hopen. by left.
  - destruct (jobSchema.applicationDeadline job) as [d|] eqn:Hd; [|done].
    destruct (now >? d) eqn:Hlate; [|done].
    destruct Hopen. right. exists d. split; [done|lia].
Qed.

(** X11. When an [Apply] goes through.  A request that has passed the
    validators, for a stored Job that takes applications at that time, by
    a user who is not its owner and has no Application to it, with a resume
    link that is not empty and a cover letter of at most 2000 characters,
    under a free identifier and with its five storage calls served, is
    answered 201, stores the pending Application and counts it on the
    Job. *)
Theorem applyToJob_succeeds user now newId jobId resume cover faults st i job :
  castObjectId jobId = Some i →
  jobs st !! i = Some job →
  ¬ closedAt now job →
  jobSchema.createdBy job ≠ Requester._id user →
  ¬ hasApplied st i (Requester._id user) →
  applications st !! newId = None →
  resume ≠ "" →
  (∀ c, cover = Some c → (String.length c <= 2000)%nat) →
  (∀ n, (n < 5)%nat → faultAt n faults = false) →
  applicationRoutes.applyToJob user now newId [] jobId resume cover faults st
  = (mkResponse 201 true (Some "Application submitted successfully")
       (ApplicationData (Some (Application.new i (Requester._id user) resume cover))),
     withJobs <[i := jobSchema.incApplicationsCount 1 job]>
       (withApplications <[newId := Application.new i (Requester._id user) resume cover]> st)).
Proof.
  intros Hid Hjob Hopen Hother Hnot Hfree Hresume Hcover Hserved.
  destruct (open_deadline _ _ Hopen) as [Hact Hlate].
  apply_unfold. mrun. rewrite Hid. mrun.
  rewrite (Hserved 0%nat), Hjob by lia. mrun. rewrite Hact. mrun. rewrite Hlate. mrun.
  rewrite (Hserved 1%nat), (findOne_not_applied _ _ _ Hnot) by lia. mrun.
  apply N.eqb_neq in Hother. rewrite Hother. mrun.
  rewrite (Hserved 2%nat) by lia. mrun.
  assert (Hvalid : applicationSchema.validate
                     (Application.new i (Requester._id user) resume cover) = true).
  { unfold applicationSchema.validate, Application.new.
    cbn [applicationSchema.coverLetter applicationSchema.resumeLink
         applicationSchema.status applicationSchema.notes optionally].
    apply String.eqb_neq in Hresume. unfold required. rewrite Hresume.
    replace (enum applicationSchema.statusEnum "pending") with true by reflexivity.
    rewrite !andb_true_r. destruct cover as [c|]; [|done].
    cbn. apply Nat.leb_le. by apply Hcover. }
  rewrite Hvalid. mrun. rewrite preSave_pending by done. rewrite Hfree.
  cbn [Application.new applicationSchema.job applicationSchema.applicant].
  rewrite (findOne_not_applied _ _ _ Hnot). mrun.
  rewrite (Hserved 3%nat) by lia. mrun. rewrite (Hserved 4%nat) by lia. mrun.
  cbn [applications withJobs withApplications]. rewrite lookup_insert_eq.
  unfold withJobs. cbn [jobs withApplications applications users].
  by rewrite (alter_present _ _ _ _ Hjob).
Qed.

(** The theorem at work: [seeker] applies to Job 10, which has no
    deadline. *)
Lemma applyToJob_succeeds_witness :
  let st := storeWithJob (sampleJob None None None) in
  success (applicationRoutes.applyToJob seeker 100 11%N [] id10 cv None [] st).1 = true.
Proof.
  intros st.
  rewrite (applyToJob_succeeds seeker 100 11%N id10 cv None [] st 10%N
             (sampleJob None None None) eq_refl eq_refl).
  - reflexivity.
  - intros [H|(d & H & _)]; discriminate.
  - discriminate.
  - intros (k & b & Hk & _). unfold st, storeWithJob in Hk. cbn [applications] in Hk.
    rewrite lookup_empty in Hk. discriminate.
  - reflexivity.
  - discriminate.
  - discriminate.
  - intros n _. by destruct n.
Defined.

(** X12. The counter can fall behind.  [Apply] saves the Application and
    then counts it on the Job in a second call; when the save is served
    and a later call is rejected, the requester is answered 500 while the
    Application stays stored: without its count if the increment was the
    call that failed, with it if only the final read was.  A retry finds
    the Application and is refused. *)
Theorem applyToJob_failure_after_save user now newId jobId resume cover faults st i job :
  castObjectId jobId = Some i →
  jobs st !! i = Some job →
  ¬ closedAt now job →
  jobSchema.createdBy job ≠ Requester._id user →
  ¬ hasApplied st i (Requester._id user) →
  applications st !! newId = None →
  applicationSchema.validate (Application.new i (Requester._id user) resume cover) = true →
  (∀ n, (n < 3)%nat → faultAt n faults = false) →
  faultAt 3 faults = true ∨ faultAt 4 faults = true →
  let result := applicationRoutes.applyToJob user now newId [] jobId resume cover faults st in
  result.1 = failure 500 "Server error submitting application"
  ∧ applications result.2
    = <[newId := Application.new i (Requester._id user) resume cover]> (applications st)
  ∧ jobs result.2 = (if faultAt 3 faults then jobs st
                     else <[i := jobSchema.incApplicationsCount 1 job]> (jobs st))
  ∧ hasApplied result.2 i (Requester._id user).
Proof.
  intros Hid Hjob Hopen Hother Hnot Hfree Hvalid Hserved Hfault result. subst result.
  destruct (open_deadline _ _ Hopen) as [Hact Hlate].
  apply_unfold. mrun. rewrite Hid. mrun.
  rewrite (Hserved 0%nat), Hjob by lia. mrun. rewrite Hact. mrun. rewrite Hlate. mrun.
  rewrite (Hserved 1%nat), (findOne_not_applied _ _ _ Hnot) by lia. mrun.
  apply N.eqb_neq in Hother. rewrite Hother. mrun.
  rewrite (Hserved 2%nat) by lia. mrun.
  rewrite Hvalid. mrun. rewrite preSave_pending by done. rewrite Hfree.
  cbn [Application.new applicationSchema.job applicationSchema.applicant].
  rewrite (findOne_not_applied _ _ _ Hnot). mrun.
  assert (Happlied : ∀ js,
            hasApplied (mkStore js (<[newId := applicationSchema.mk i (Requester._id user)
                                        cover resume "pending" None None None]>
                                      (applications st)) (users st))
              i (Requester._id user)).
  { intros js. eexists newId, _. cbn [applications]. rewrite lookup_insert_eq.
    split; [reflexivity|]. done. }
  destruct (faultAt 3 faults) eqn:F3; mrun.
  - split_and!; try done. apply Happlied.
  - destruct Hfault as [?|F4]; [done|]. rewrite F4. mrun.
    cbn [jobs applications withJobs withApplications].
    split_and!; try done.
    + by rewrite (alter_present _ _ _ _ Hjob).
    + apply Happlied.
Qed.

(** The theorem at work: the increment of the counter of Job 10 is
    rejected. *)
Lemma applyToJob_failure_after_save_witness :
  let st := storeWithJob (sampleJob None None None) in
  let result :=
    applicationRoutes.applyToJob seeker 100 11%N [] id10 cv None
      [false; false; false; true] st in
  result.1 = failure 500 "Server error submitting application"
  ∧ applications result.2 = <[11%N := pendingApplication]> (applications st)
  ∧ jobs result.2 = jobs st.
Proof.
  intros st result.
  destruct (applyToJob_failure_after_save seeker 100 11%N id10 cv None
              [false; false; false; true] st 10%N (sampleJob None None None)
              eq_refl eq_refl) as (H1 & H2 & H3 & _).
  - intros [H|(d & H & _)]; discriminate.
  - discriminate.
  - intros (k & b & Hk & _). unfold st, storeWithJob in Hk. cbn [applications] in Hk.
    rewrite lookup_empty in Hk. discriminate.
  - reflexivity.
  - reflexivity.
  - intros n Hn. by do 3 (destruct n as [|n]; [reflexivity|]); lia.
  - by left.
  - by split_and!.
Defined.

(** ** Withdrawing, deleting, and calls that fail half-way *)

(** X13. [Withdraw] issues the deletion of the Application and the
    decrement of the counter together, and each takes effect or fails on
    its own.  For a withdrawal that passes the guards, when exactly one of
    the two calls is rejected the answer is 500 and the store is left
    half-changed: the Application is still there but counted no more, or
    it is gone and still counted. *)
Theorem withdrawApplication_half_done user id faults st i a :
  castObjectId id = Some i →
  applications st !! i = Some a →
  applicationSchema.applicant a = Requester._id user →
  applicationSchema.status a ≠ "hired" →
  applicationSchema.status a ≠ "rejected" →
  faultAt 0 faults = false →
  faultAt 1 faults ≠ faultAt 2 faults →
  let result := applicationRoutes.withdrawApplication user id faults st in
  result.1 = failure 500 "Server error withdrawing application"
  ∧ (faultAt 1 faults = true →
     applications result.2 = applications st
     ∧ jobs result.2
       = alter (jobSchema.incApplicationsCount (-1)) (applicationSchema.job a) (jobs st))
  ∧ (faultAt 2 faults = true →
     applications result.2 = delete i (applications st)
     ∧ jobs result.2 = jobs st).
Proof.
  intros Hid Ha Hown Hh Hr F0 Hdiff result. subst result.
  unfold applicationRoutes.withdrawApplication, tryCatch, castId, Application.findById,
    Application.findByIdAndDelete, Job.findByIdAndUpdate_incApplicationsCount.
  rewrite Hid. mrun. rewrite F0, Ha. mrun. rewrite Hown, N.eqb_refl. mrun.
  assert (Hterm : existsb (String.eqb (applicationSchema.status a)) ["hired"; "rejected"]
                  = false).
  { apply not_true_is_false. rewrite terminal_status. tauto. }
  rewrite Hterm. mrun.
  destruct (faultAt 1 faults); mrun; (destruct (faultAt 2 faults); mrun); try done.
Qed.

(** The theorem at work: the deletion of Application 11 is rejected, the
    decrement on Job 10 is served. *)
Lemma withdrawApplication_half_done_witness :
  let st := storeWithApplication (sampleJob None None None) pendingApplication in
  let result := applicationRoutes.withdrawApplication seeker id11 [false; true; false] st in
  result.1 = failure 500 "Server error withdrawing application"
  ∧ applications result.2 = applications st
  ∧ jobs result.2 = alter (jobSchema.incApplicationsCount (-1)) 10%N (jobs st).
Proof.
  intros st result.
  destruct (withdrawApplication_half_done seeker id11 [false; true; false] st 11%N
              pendingApplication eq_refl eq_refl eq_refl) as (H1 & H2 & _);
    [discriminate..|reflexivity|discriminate|].
  destruct (H2 eq_refl) as [H3 H4]. by split_and!.
Defined.

(** X14. [Delete] issues the deletion of the Job and that of its
    Applications together.  When the Job is deleted and the deletion of
    the Applications is rejected, the answer is 500, the Job is gone and
    its Applications stay; each of them, its Job no more resolving, can
    then be neither read nor reviewed: [GetOne] and [UpdateStatus] on it
    answer their generic 500 for every requester. *)
Theorem deleteJob_orphans user id faults st i job :
  castObjectId id = Some i →
  jobs st !! i = Some job →
  mayManage user job →
  faultAt 0 faults = false →
  faultAt 1 faults = false →
  faultAt 2 faults = true →
  let result := jobRoutes.deleteJob user id faults st in
  result.1 = failure 500 "Server error deleting job"
  ∧ jobs result.2 = delete i (jobs st)
  ∧ applications result.2 = applications st
  ∧ ∀ k a u requester now ks status notes faults',
      applications st !! k = Some a →
      applicationSchema.job a = i →
      users st !! applicationSchema.applicant a = Some u →
      castObjectId ks = Some k →
      faultAt 0 faults' = false →
      applicationRoutes.getApplication requester ks faults' result.2
        = (failure 500 "Server error fetching application", result.2)
      ∧ applicationRoutes.updateApplicationStatus requester now [] ks status notes faults'
          result.2
        = (failure 500 "Server error updating application status", result.2).
Proof.
  intros Hid Hjob Hmay F0 F1 F2 result. subst result.
  unfold jobRoutes.deleteJob, tryCatch, castId, Job.findById, Job.findByIdAndDelete,
    Application.deleteMany.
  rewrite Hid. mrun. rewrite F0, Hjob. mrun. rewrite (denied_false _ _ Hmay). mrun.
  rewrite F1. mrun. rewrite F2. mrun.
  split_and!; try done.
  intros k a u requester now ks status notes faults' Hk Ha Hu Hks F0'.
  unfold applicationRoutes.getApplication, applicationRoutes.updateApplicationStatus,
    tryCatch, castId, Application.findById_populate.
  rewrite Hks. mrun. rewrite F0'. cbn [jobs applications users withJobs].
  rewrite Hk. cbn [fmap option_fmap option_map]. mrun.
  cbn [Application.applicant Application.job Application.doc].
  rewrite Hu, Ha, lookup_delete_eq. by mrun.
Qed.

(** The theorem at work: the deletion of Job 10 goes through, that of its
    Applications does not, and the applicant asks for Application 11. *)
Lemma deleteJob_orphans_witness :
  let st := storeWithApplication (sampleJob None None None) pendingApplication in
  let result := jobRoutes.deleteJob recruiter id10 [false; false; true] st in
  applications result.2 = applications st
  ∧ applicationRoutes.getApplication seeker id11 [] result.2
    = (failure 500 "Server error fetching application", result.2).
Proof.
  intros st result.
  destruct (deleteJob_orphans recruiter id10 [false; false; true] st 10%N
              (sampleJob None None None) eq_refl eq_refl (or_introl eq_refl)
              eq_refl eq_refl eq_refl) as (_ & _ & Happs & Horphan).
  split; [exact Happs|].
  exact (proj1 (Horphan 11%N pendingApplication
                  (UserSchema.mk "Sam" "sam@example.org" "secret" "job_seeker")
                  seeker 0 id11 "" None [] eq_refl eq_refl eq_refl eq_refl eq_refl)).
Defined.

Lemma incApplicationsCount_inverse j :
  jobSchema.incApplicationsCount (-1) (jobSchema.incApplicationsCount 1 j) = j.
Proof. destruct j. cbn. f_equal. lia. Qed.

(** A successful [Apply] has stored its Application under an identifier
    that was free. *)
Lemma applyToJob_fresh user now newId errors jobId resume cover faults st :
  success (applicationRoutes.applyToJob user now newId errors jobId resume cover faults st).1
    = true →
  applications st !! newId = None.
Proof.
  apply_unfold.
  destruct errors as [|err errors]; mrun; [|discriminate].
  destruct (castObjectId jobId) as [i'|]; mrun; [|discriminate].
  destruct (faultAt 0 faults); mrun; [discriminate|].
  destruct (jobs st !! i') as [job'|]; mrun; [|discriminate].
  destruct (jobSchema.isActive job'); mrun; [|discriminate].
  destruct (match jobSchema.applicationDeadline job' with Some _ => _ | None => _ end);
    mrun; [discriminate|].
  destruct (faultAt 1 faults); mrun; [discriminate|].
  destruct (List.find _ _); mrun; [discriminate|].
  destruct (_ =? _)%N; mrun; [discriminate|].
  destruct (faultAt 2 faults); mrun; [discriminate|].
  destruct (negb (applicationSchema.validate _)); mrun; [discriminate|].
  by destruct (applications st !! newId).
Qed.

(** X15. Applying and withdrawing cancel out.  After an [Apply] that
    succeeded, the [Withdraw] of the new Application by the applicant,
    with its storage calls served, succeeds; the Applications and the
    Users are then those from before the [Apply], the same Jobs are
    stored, and each of them has every path of the schema,
    [applicationsCount] included, at the value it had before.  (The
    [updatedAt] stamp of the Job, which the mapper moves with each of the
    two increments, is not a path of the model.) *)
Theorem apply_then_withdraw user now newId errors jobId resume cover faults st id faults' :
  let applied :=
    applicationRoutes.applyToJob user now newId errors jobId resume cover faults st in
  success applied.1 = true →
  castObjectId id = Some newId →
  (∀ n, (n < 3)%nat → faultAt n faults' = false) →
  let withdrawn := applicationRoutes.withdrawApplication user id faults' applied.2 in
  withdrawn.1 = mkResponse 200 true (Some "Application withdrawn successfully") NoData
  ∧ applications withdrawn.2 = applications st
  ∧ users withdrawn.2 = users st
  ∧ ∀ k, match jobs st !! k with
         | Some j =>
             ∃ j', jobs withdrawn.2 !! k = Some j'
                   ∧ ∀ p, jobSchema.get p j' = jobSchema.get p j
         | None => jobs withdrawn.2 !! k = None
         end.
Proof.
  intros applied Hok Hid Hserved withdrawn.
  destruct (applyToJob_success _ _ _ _ _ _ _ _ _ Hok)
    as (i & job & _ & Hjob & _ & _ & Hst).
  pose proof (applyToJob_fresh _ _ _ _ _ _ _ _ _ Hok) as Hfree.
  fold applied in Hst. subst withdrawn. rewrite Hst.
  unfold applicationRoutes.withdrawApplication, tryCatch, castId, Application.findById,
    Application.findByIdAndDelete, Job.findByIdAndUpdate_incApplicationsCount.
  rewrite Hid. mrun. rewrite (Hserved 0%nat) by lia.
  cbn [jobs applications users withJobs withApplications].
  rewrite lookup_insert_eq. mrun.
  cbn [Application.new applicationSchema.applicant applicationSchema.status
       applicationSchema.job].
  rewrite N.eqb_refl. mrun.
  replace (existsb (String.eqb "pending") ["hired"; "rejected"]) with false by reflexivity.
  mrun. rewrite (Hserved 1%nat) by lia. mrun. rewrite (Hserved 2%nat) by lia. mrun.
  cbn [jobs applications users withJobs withApplications].
  split_and!; [done|by apply delete_insert_id|done|].
  intros k. erewrite alter_present by apply lookup_insert_eq.
  rewrite insert_insert_eq, incApplicationsCount_inverse, insert_id by done.
  destruct (jobs st !! k) as [j|]; [by exists j|done].
Qed.

(** The theorem at work: [seeker] applies to Job 10 under the identifier
    11 and withdraws. *)
Lemma apply_then_withdraw_witness :
  let st := storeWithJob (sampleJob None None None) in
  let withdrawn :=
    applicationRoutes.withdrawApplication seeker id11 []
      (applicationRoutes.applyToJob seeker 100 11%N [] id10 cv None [] st).2 in
  applications withdrawn.2 = applications st
  ∧ ∃ j', jobs withdrawn.2 !! 10%N = Some j'
          ∧ jobSchema.get jobSchema.PapplicationsCount j'
            = jobSchema.get jobSchema.PapplicationsCount (sampleJob None None None).
Proof.
  intros st withdrawn.
  destruct (apply_then_withdraw seeker 100 11%N [] id10 cv None [] st id11 []
              eq_refl eq_refl) as (_ & Happs & _ & Hjobs).
  { intros n _. by destruct n. }
  split; [exact Happs|].
  specialize (Hjobs 10%N). cbn in Hjobs. destruct Hjobs as (j' & Hj' & Hp).
  exists j'. split; [exact Hj'|apply Hp].
Defined.

(** ** Reviewing *)

(** X16. What a successful [UpdateStatus] has found and done: the
    Application and its Job are stored and the requester is the owner of
    the Job or an administrator.  The stored Application takes the status
    of the request, the requester as its reviewer and the time of the
    request as [reviewedAt]; its notes are replaced only by notes that
    are not empty; its Job, applicant, resume link and cover letter stay.
    Nothing else in the store changes, and the response carries the
    Application as stored. *)
Theorem updateApplicationStatus_effect user now errors id status notes faults st :
  let result :=
    applicationRoutes.updateApplicationStatus user now errors id status notes faults st in
  success result.1 = true →
  ∃ i a job,
    let reviewed :=
      applicationSchema.mk (applicationSchema.job a) (applicationSchema.applicant a)
        (applicationSchema.coverLetter a) (applicationSchema.resumeLink a) status
        (if truthy notes then notes else applicationSchema.notes a)
        (Some now) (Some (Requester._id user)) in
    castObjectId id = Some i
    ∧ applications st !! i = Some a
    ∧ jobs st !! applicationSchema.job a = Some job
    ∧ mayManage user job
    ∧ In status applicationSchema.statusEnum
    ∧ result = (mkResponse 200 true (Some "Application status updated successfully")
                  (ApplicationData (Some reviewed)),
                withApplications <[i := reviewed]> st).
Proof.
  intros result. subst result.
  unfold applicationRoutes.updateApplicationStatus, tryCatch, castId,
    Application.findById_populate, Application.saveModified, Application.findById.
  destruct errors as [|err errors]; mrun; [|discriminate].
  destruct (castObjectId id) as [i|]; mrun; [|discriminate].
  destruct (faultAt 0 faults); mrun; [discriminate|].
  destruct (applications st !! i) as [a|] eqn:Ha; cbn [fmap option_fmap option_map]; mrun;
    [|discriminate].
  cbn [Application.job Application.doc].
  destruct (jobs st !! applicationSchema.job a) as [job|] eqn:Hjob; mrun; [|discriminate].
  destruct (negb (_ =? _)%N && _) eqn:Hdenied; mrun; [discriminate|].
  destruct (faultAt 1 faults); mrun; [discriminate|].
  destruct (negb (applicationSchema.validate _)) eqn:Hvalid; mrun; [discriminate|].
  rewrite Ha. mrun.
  erewrite preSave_keeps_set_reviewedAt by reflexivity.
  destruct (faultAt 2 faults); mrun; [discriminate|].
  intros _. exists i, a, job. cbn zeta.
  cbn [applications withApplications]. rewrite lookup_insert_eq.
  split_and!; try done.
  - destruct (decide (mayManage user job)) as [|Hno]; [done|].
    apply denied_iff in Hno. congruence.
  - apply negb_false_iff in Hvalid. unfold applicationSchema.validate in Hvalid.
    cbn [applicationSchema.status] in Hvalid.
    apply andb_true_iff in Hvalid as [Hvalid _]. apply andb_true_iff in Hvalid as [_ Hs].
    unfold enum in Hs. apply existsb_exists in Hs as (s & Hin & Heq).
    apply String.eqb_eq in Heq. by subst s.
Qed.

(** The theorem at work: [recruiter] reviews Application 11. *)
Lemma updateApplicationStatus_effect_witness :
  let st := storeWithApplication (sampleJob None None None) pendingApplication in
  ∃ i a job,
    castObjectId id11 = Some i
    ∧ applications st !! i = Some a
    ∧ jobs st !! applicationSchema.job a = Some job
    ∧ mayManage recruiter job.
Proof.
  intros st.
  destruct (updateApplicationStatus_effect recruiter 200 [] id11 "reviewed" None [] st
              eq_refl) as (i & a & job & H).
  exists i, a, job. cbn zeta in H. tauto.
Defined.

(** X17. The handler knows no order of the statuses.  On a stored, valid
    Application of a stored Job, every request of the owner of the Job or
    of an administrator for a status of the schema, with notes of at most
    1000 characters and its storage calls served, goes through, whatever
    the status the Application has: one that is hired or rejected can be
    set back to pending. *)
Theorem updateApplicationStatus_any_transition user now id status notes faults st i a job :
  castObjectId id = Some i →
  applications st !! i = Some a →
  applicationSchema.validate a = true →
  jobs st !! applicationSchema.job a = Some job →
  mayManage user job →
  In status applicationSchema.statusEnum →
  (∀ n, notes = Some n → (String.length n <= 1000)%nat) →
  (∀ n, (n < 3)%nat → faultAt n faults = false) →
  let result :=
    applicationRoutes.updateApplicationStatus user now [] id status notes faults st in
  success result.1 = true
  ∧ (applicationSchema.status <$> applications result.2 !! i) = Some status.
Proof.
  intros Hid Ha Hvalid Hjob Hmay Hstatus Hnotes Hserved result. subst result.
  unfold applicationRoutes.updateApplicationStatus, tryCatch, castId,
    Application.findById_populate, Application.saveModified, Application.findById.
  mrun. rewrite Hid. mrun. rewrite (Hserved 0%nat), Ha by lia.
  cbn [fmap option_fmap option_map]. mrun.
  cbn [Application.job Application.doc]. rewrite Hjob. mrun.
  rewrite (denied_false _ _ Hmay). mrun. rewrite (Hserved 1%nat) by lia. mrun.
  match goal with
  | |- context [negb (applicationSchema.validate ?x)] =>
      assert (Hvalid' : applicationSchema.validate x = true)
  end.
  { unfold applicationSchema.validate in *.
    cbn [applicationSchema.coverLetter applicationSchema.resumeLink
         applicationSchema.status applicationSchema.notes].
    repeat (apply andb_true_iff in Hvalid as [Hvalid ?]).
    repeat (apply andb_true_iff; split); try done.
    - unfold enum. apply existsb_exists. exists status. split; [done|apply String.eqb_refl].
    - destruct (truthy notes); [|done]. destruct notes as [n|]; [|done].
      cbn. apply Nat.leb_le. by apply Hnotes. }
  rewrite Hvalid'. mrun. rewrite Ha. mrun.
  erewrite preSave_keeps_set_reviewedAt by reflexivity.
  rewrite (Hserved 2%nat) by lia. mrun.
  cbn [applications withApplications]. by rewrite lookup_insert_eq.
Qed.

(** The theorem at work: [recruiter] sets an Application that was
    rejected back to pending. *)
Lemma updateApplicationStatus_any_transition_witness :
  let rejected := applicationSchema.mk 10%N 2%N None cv "rejected" None (Some 50) (Some 1%N) in
  let st := storeWithApplication (sampleJob None None None) rejected in
  (applicationSchema.status <$>
     applications
       (applicationRoutes.updateApplicationStatus recruiter 200 [] id11 "pending" None [] st).2
       !! 11%N)
  = Some "pending".
Proof.
  intros rejected st.
  apply (updateApplicationStatus_any_transition recruiter 200 id11 "pending" None [] st
           11%N rejected (sampleJob None None None) eq_refl eq_refl eq_refl eq_refl
           (or_introl eq_refl) (or_introl eq_refl)).
  - discriminate.
  - intros n _. by destruct n.
Defined.

(** ** Creating and updating a Job *)

(** *** Strings *)

Lemma isWhiteSpace_lowerChar c : isWhiteSpace (lowerChar c) = isWhiteSpace c.
Proof. destruct c as [[] [] [] [] [] [] [] []]; reflexivity. Qed.

Lemma lowerChar_idem c : lowerChar (lowerChar c) = lowerChar c.
Proof. destruct c as [[] [] [] [] [] [] [] []]; reflexivity. Qed.

Lemma toLowerCase_idem s : toLowerCase (toLowerCase s) = toLowerCase s.
Proof. induction s as [|c r IH]; cbn; [done|]. by rewrite lowerChar_idem, IH. Qed.

Lemma trimStart_toLowerCase s : trimStart (toLowerCase s) = toLowerCase (trimStart s).
Proof.
  induction s as [|c r IH]; cbn; [done|]. rewrite isWhiteSpace_lowerChar.
  by destruct (isWhiteSpace c).
Qed.

Lemma trimEnd_toLowerCase s : trimEnd (toLowerCase s) = toLowerCase (trimEnd s).
Proof.
  induction s as [|c r IH]; cbn; [done|]. rewrite IH, isWhiteSpace_lowerChar.
  destruct (trimEnd r); cbn; [|done]. by destruct (isWhiteSpace c).
Qed.

Lemma trim_toLowerCase s : trim (toLowerCase s) = toLowerCase (trim s).
Proof. unfold trim. by rewrite trimStart_toLowerCase, trimEnd_toLowerCase. Qed.

Lemma trimStart_startsBlack s : startsBlack (trimStart s) = true.
Proof.
  induction s as [|c r IH]; cbn; [done|].
  destruct (isWhiteSpace c) eqn:E; [done|]. cbn. by rewrite E.
Qed.

Lemma trimStart_black s : startsBlack s = true → trimStart s = s.
Proof.
  destruct s as [|c r]; cbn; [done|]. intros H. apply negb_true_iff in H. by rewrite H.
Qed.

Lemma trimEnd_startsBlack s : startsBlack s = true → startsBlack (trimEnd s) = true.
Proof.
  destruct s as [|c r]; cbn; [done|]. intros H.
  destruct (trimEnd r); cbn; [|done]. apply negb_true_iff in H. rewrite H. cbn. by rewrite H.
Qed.

Lemma trimEnd_idem s : trimEnd (trimEnd s) = trimEnd s.
Proof.
  induction s as [|c r IH]; cbn; [done|].
  destruct (trimEnd r) as [|c' r'] eqn:E.
  - destruct (isWhiteSpace c) eqn:W; cbn; [done|]. by rewrite W.
  - cbn [trimEnd]. cbn [trimEnd] in IH. by rewrite IH.
Qed.

Lemma trim_idem s : trim (trim s) = trim s.
Proof.
  unfold trim. rewrite (trimStart_black (trimEnd _)).
  - apply trimEnd_idem.
  - apply trimEnd_startsBlack, trimStart_startsBlack.
Qed.

(** What the handlers and the setters of the schema make of a tag. *)
Lemma normalTag_handler s : normalTag (trim (toLowerCase s)).
Proof.
  split; [apply trim_idem|]. by rewrite <- trim_toLowerCase, toLowerCase_idem.
Qed.

Lemma normalTag_setter s : normalTag (toLowerCase (trim s)).
Proof. rewrite <- trim_toLowerCase. apply normalTag_handler. Qed.

Lemma normalTag_fixed l :
  Forall normalTag l → List.map (fun t => toLowerCase (trim t)) l = l.
Proof.
  induction 1 as [|t l [Ht Hl] _ IH]; cbn; [done|]. by rewrite Ht, Hl, IH.
Qed.

(** The ASCII range is closed under what the handlers and the setters
    do to a string. *)
Lemma ascii_lowerChar c :
  (N_of_ascii (lowerChar c) <? 128)%N = (N_of_ascii c <? 128)%N.
Proof. destruct c as [[] [] [] [] [] [] [] []]; reflexivity. Qed.

Lemma asciiString_toLowerCase s : asciiString (toLowerCase s) = asciiString s.
Proof. induction s as [|c r IH]; cbn; [done|]. by rewrite ascii_lowerChar, IH. Qed.

Lemma asciiString_trimStart s : asciiString s = true → asciiString (trimStart s) = true.
Proof.
  induction s as [|c r IH]; cbn; [done|]. intros H.
  destruct (isWhiteSpace c); [|done]. apply andb_true_iff in H as [_ H]. by apply IH.
Qed.

Lemma asciiString_trimEnd s : asciiString s = true → asciiString (trimEnd s) = true.
Proof.
  induction s as [|c r IH]; cbn; [done|]. intros H. apply andb_true_iff in H as [Hc Hr].
  specialize (IH Hr). destruct (trimEnd r) as [|c' r'].
  - destruct (isWhiteSpace c); [done|]. cbn. by rewrite Hc.
  - cbn [asciiString]. by rewrite Hc.
Qed.

Lemma asciiString_trim s : asciiString s = true → asciiString (trim s) = true.
Proof. intros H. by apply asciiString_trimEnd, asciiString_trimStart. Qed.

(** *** [new Set] *)

Lemma setOf_aux_spec seen l :
  NoDup (setOf_aux seen l)
  ∧ ∀ x, x ∈ setOf_aux seen l → x ∈ l ∧ x ∉ seen.
Proof.
  revert seen. induction l as [|y r IH]; intros seen; cbn.
  - split; [constructor|]. intros x Hx. by apply elem_of_nil in Hx.
  - destruct (bool_decide (y ∈ seen)) eqn:E.
    + destruct (IH seen) as [Hnd Hin]. split; [done|].
      intros x Hx. destruct (Hin x Hx). split; [by right|done].
    + apply bool_decide_eq_false in E. destruct (IH (y :: seen)) as [Hnd Hin].
      split.
      * constructor; [|done]. intros Hy. apply Hin in Hy as [_ Hy]. apply Hy. by left.
      * intros x Hx. apply elem_of_cons in Hx as [->|Hx]; [split; [by left|done]|].
        destruct (Hin x Hx) as [? Hs]. split; [by right|].
        intros ?. apply Hs. by right.
Qed.

Lemma setOf_NoDup l : NoDup (setOf l).
Proof. apply setOf_aux_spec. Qed.

Lemma setOf_elem l x : x ∈ setOf l → x ∈ l.
Proof. intros H. by apply setOf_aux_spec in H as [? _]. Qed.

Lemma lowerTrimmed_normal items l :
  jobRoutes.lowerTrimmed items = inr l → Forall normalTag l.
Proof.
  revert l. induction items as [|v r IH]; intros l; cbn.
  - intros [= <-]. constructor.
  - destruct v; try discriminate.
    destruct (jobRoutes.lowerTrimmed r) as [e|l'] eqn:E; cbn; [discriminate|].
    intros [= <-]. constructor; [apply normalTag_handler|by apply IH].
Qed.

Lemma lowerTrimmed_ascii items l :
  asciiStrings items = true →
  jobRoutes.lowerTrimmed items = inr l →
  Forall (fun t => asciiString t = true) l.
Proof.
  revert l. induction items as [|v r IH]; intros l; cbn.
  - intros _ [= <-]. constructor.
  - destruct v; try discriminate. intros H. apply andb_true_iff in H as [Hs Hr].
    destruct (jobRoutes.lowerTrimmed r) as [e|l'] eqn:E; cbn; [discriminate|].
    intros [= <-]. constructor; [|by apply IH].
    apply asciiString_trim. by rewrite asciiString_toLowerCase.
Qed.

Lemma castStrings_strings l : jobSchema.castStrings (JStr <$> l) = inr l.
Proof. induction l as [|s l IH]; cbn; [done|]. by rewrite IH. Qed.

(** *** Objects with distinct keys *)

Lemma member_None_keys {A} key (o : list (string * A)) :
  member key o = None ↔ key ∉ (fst <$> o).
Proof.
  induction o as [|[k v] r IH]; cbn.
  - split; [intros _ H; by apply elem_of_nil in H|done].
  - destruct (String.eqb_spec k key) as [->|Hne].
    + split; [done|]. intros H. destruct H. by left.
    + rewrite IH, not_elem_of_cons. split; [intros ?; split; [congruence|done]|by intros [_ ?]].
Qed.

Lemma member_filter {A} (f : string → bool) key (o : list (string * A)) :
  f key = true →
  member key (List.filter (fun '(k, _) => f k) o) = member key o.
Proof.
  intros Hf. induction o as [|[k v] r IH]; cbn; [done|].
  destruct (String.eqb_spec k key) as [->|Hne].
  - rewrite Hf. cbn. by rewrite String.eqb_refl.
  - destruct (f k); cbn; [|done]. destruct (String.eqb_spec k key); [done|exact IH].
Qed.

Lemma distinctKeys_filter {A} (f : string * A → bool) o :
  distinctKeys o → distinctKeys (List.filter f o).
Proof.
  unfold distinctKeys. induction o as [|[k v] r IH]; cbn; [done|].
  intros H. apply NoDup_cons in H as [Hk Hr]. destruct (f (k, v)); cbn; [|by apply IH].
  apply NoDup_cons. split; [|by apply IH].
  intros Hin. apply Hk. apply list_elem_of_fmap in Hin as ([k' v'] & -> & Hin).
  apply list_elem_of_In, filter_In in Hin as [Hin _]. apply list_elem_of_In in Hin.
  apply list_elem_of_fmap. by exists (k', v').
Qed.

Lemma replaceMember_fst key v o :
  fst <$> jobRoutes.replaceMember key v o = fst <$> o.
Proof.
  unfold jobRoutes.replaceMember. induction o as [|[k v'] r IH]; cbn; [done|].
  rewrite <- IH. by destruct (String.eqb k key).
Qed.

Lemma member_replaceMember key v o v' :
  member key o = Some v' → member key (jobRoutes.replaceMember key v o) = Some v.
Proof.
  unfold jobRoutes.replaceMember. induction o as [|[k x] r IH]; cbn; [done|].
  destruct (String.eqb k key) eqn:E; cbn; rewrite E; [done|exact IH].
Qed.

Lemma pathOf_pathName p : jobSchema.pathOf (jobSchema.pathName p) = Some p.
Proof. by destruct p. Qed.

(** The value a path has after [$set] of an object with distinct keys:
    the one its member gives it, if there is such a member. *)
Lemma applySet_member onNew p updates : ∀ j j',
  distinctKeys updates →
  Job.applySet onNew updates j = inr j' →
  match member (jobSchema.pathName p) updates with
  | Some v => ∃ j0 j1, jobSchema.set onNew p v j0 = inr j1
                       ∧ jobSchema.get p j' = jobSchema.get p j1
  | None => jobSchema.get p j' = jobSchema.get p j
  end.
Proof.
  induction updates as [|[key v] r IH]; intros j j' Hnd H.
  - by injection H as <-.
  - unfold distinctKeys in Hnd. cbn in Hnd. apply NoDup_cons in Hnd as [Hkey Hr].
    rewrite applySet_cons in H. cbn [member].
    destruct (String.eqb_spec key (jobSchema.pathName p)) as [->|Hne].
    + rewrite pathOf_pathName in H.
      destruct (jobSchema.set onNew p v j) as [e|j1] eqn:Hset; [discriminate|].
      exists j, j1. split; [done|].
      eapply applySet_frame; [exact H|]. intros key' v' Hin Hp.
      apply pathOf_name in Hp. subst key'. apply Hkey.
      apply list_elem_of_fmap. exists (jobSchema.pathName p, v').
      split; [done|by apply list_elem_of_In].
    + destruct (jobSchema.pathOf key) as [q|] eqn:Hq.
      * destruct (jobSchema.set onNew q v j) as [e|j1] eqn:Hset; [discriminate|].
        specialize (IH j1 j' Hr H).
        destruct (member (jobSchema.pathName p) r); [exact IH|].
        rewrite IH. eapply set_frame; [exact Hset|].
        intros ->. apply pathOf_name in Hq. congruence.
      * exact (IH j j' Hr H).
Qed.

Lemma set_tags onNew v j0 j1 :
  jobSchema.set onNew jobSchema.Ptags v j0 = inr j1 →
  ∃ x, jobSchema.castStringArray v = inr x
       ∧ jobSchema.tags j1 = List.map (fun t => toLowerCase (trim t)) x.
Proof.
  destruct j0. cbn. destruct (jobSchema.castStringArray v) as [e|x]; cbn; [discriminate|].
  intros [= <-]. by exists x.
Qed.

(** The tags that [$set] leaves, for an object as [normalizeTags] returns
    it, when the tags of the body are ASCII strings. *)
Lemma applySet_tags onNew body data filtered j j' :
  distinctKeys body →
  (∀ v, member "tags" body = Some v → plainValue jobSchema.Ptags v = true) →
  jobRoutes.normalizeTags body = inr data →
  distinctKeys filtered →
  member "tags" filtered = member "tags" data →
  Job.applySet onNew filtered j = inr j' →
  (member "tags" body = None ∧ jobSchema.tags j' = jobSchema.tags j)
  ∨ (member "tags" body ≠ None ∧ tagsNormal j').
Proof.
  intros Hbody Hplain Hnorm Hfiltered Hmember Hset.
  pose proof (applySet_member onNew jobSchema.Ptags filtered j j' Hfiltered Hset) as H.
  cbn [jobSchema.pathName] in H. rewrite Hmember in H.
  unfold jobRoutes.normalizeTags in Hnorm.
  destruct (member "tags" body) as [v|] eqn:Hv.
  - right. split; [done|]. specialize (Hplain v eq_refl). unfold tagsNormal.
    destruct v as [b|n|ms|s|items|o]; try discriminate.
    + injection Hnorm as <-. rewrite Hv in H. destruct H as (j0 & j1 & H1 & H2).
      apply set_tags in H1 as (x & Hx & Ht). cbn in Hx. injection Hx as <-.
      cbn in H2, Ht, Hplain. injection H2 as H2. rewrite H2, Ht.
      split_and!; [apply NoDup_singleton| |].
      * constructor; [apply normalTag_setter|constructor].
      * constructor; [|constructor].
        rewrite asciiString_toLowerCase. by apply asciiString_trim.
    + destruct (jobRoutes.lowerTrimmed items) as [e|l] eqn:Hl; cbn in Hnorm; [discriminate|].
      injection Hnorm as <-. erewrite member_replaceMember in H by exact Hv.
      destruct H as (j0 & j1 & H1 & H2). apply set_tags in H1 as (x & Hx & Ht).
      cbn in Hx. rewrite castStrings_strings in Hx. injection Hx as <-.
      cbn in H2. injection H2 as H2. rewrite H2, Ht.
      assert (Hn : Forall normalTag (setOf l)).
      { apply Forall_forall. intros t Ht'. apply setOf_elem in Ht'.
        pose proof (lowerTrimmed_normal _ _ Hl) as Hall.
        rewrite Forall_forall in Hall. by apply Hall. }
      assert (Ha : Forall (fun t => asciiString t = true) (setOf l)).
      { apply Forall_forall. intros t Ht'. apply setOf_elem in Ht'.
        pose proof (lowerTrimmed_ascii _ _ Hplain Hl) as Hall.
        rewrite Forall_forall in Hall. by apply Hall. }
      rewrite (normalTag_fixed _ Hn). split_and!; [apply setOf_NoDup|exact Hn|exact Ha].
  - left. injection Hnorm as <-. rewrite Hv in H. cbn in H. by injection H as H.
Qed.

(** The member of a plain body that a key names is plain. *)
Lemma plainBody_member body key p v :
  plainBody body →
  jobSchema.pathOf key = Some p →
  member key body = Some v →
  plainValue p v = true.
Proof.
  intros Hplain Hp Hm. apply member_In in Hm. unfold plainBody in Hplain.
  rewrite forallb_forall in Hplain. specialize (Hplain _ Hm). cbn beta iota in Hplain.
  by rewrite Hp in Hplain.
Qed.

Lemma normalizeTags_distinct body data :
  distinctKeys body → jobRoutes.normalizeTags body = inr data → distinctKeys data.
Proof.
  unfold jobRoutes.normalizeTags, distinctKeys. intros Hnd H.
  destruct (member "tags" body) as [[]|]; try (by injection H as <-).
  destruct (jobRoutes.lowerTrimmed items) as [e|l]; cbn in H; [discriminate|].
  injection H as <-. by rewrite replaceMember_fst.
Qed.

(** A document under construction keeps the defaults of its salary: the
    mapper reads it back as it is. *)
Lemma set_new_hydrated p v j j' :
  jobSchema.set true p v j = inr j' → jobSchema.hydrate j = j → jobSchema.hydrate j' = j'.
Proof.
  intros H Hj. destruct j as [? ? ? ? ? ? ? [mn mx c pd] ? ? ? ? ? ? ? ? ? ?].
  cbn in Hj. injection Hj as Hc Hpd.
  destruct c as [c|]; [|discriminate]. destruct pd as [pd|]; [|discriminate].
  unfold jobSchema.set in H.
  destruct p;
    match type of H with
    | _ <$> ?c = _ => destruct c as [e|x]; cbn in H; [discriminate|]
    end;
    injection H as <-; try reflexivity.
  destruct x as [mn' mx' [c'|] [pd'|]]; reflexivity.
Qed.

Lemma applySet_new_hydrated updates : ∀ j j',
  Job.applySet true updates j = inr j' →
  jobSchema.hydrate j = j → jobSchema.hydrate j' = j'.
Proof.
  induction updates as [|[key v] r IH]; intros j j' H Hj.
  - by injection H as <-.
  - rewrite applySet_cons in H. destruct (jobSchema.pathOf key) as [q|].
    + destruct (jobSchema.set true q v j) as [e|j1] eqn:Hset; [discriminate|].
      eapply IH; [exact H|]. by eapply set_new_hydrated.
    + by eapply IH.
Qed.

(** X18. What a successful [Create] has stored, for a body with distinct
    keys, each naming a path of the schema, whose members have the JSON
    type of their path and strings of the ASCII range (so that the mapper
    converts nothing and [trim] and [toLowerCase] are those of
    JavaScript).  The identifier of the new Job was free; the Job passes
    every validator of the schema; it belongs to the requester, whatever
    [createdBy] the body names; its salary bounds are ordered provided
    neither is 0; its tags are distinct ASCII strings, trimmed and in
    lower case.  No other Job, no Application and no User changes, and
    the response is 201 with the Job as stored, which is also the Job as
    the mapper reads it back: it has the defaults of its salary. *)
Theorem createJob_effect user newId errors body faults st :
  plainBody body →
  schemaKeys body →
  distinctKeys body →
  let result := jobRoutes.createJob user newId errors body faults st in
  success result.1 = true →
  ∃ job,
    jobs st !! newId = None
    ∧ result = (mkResponse 201 true (Some "Job created successfully") (JobData (Some job)),
                withJobs <[newId := job]> st)
    ∧ jobSchema.hydrate job = job
    ∧ jobSchema.createdBy job = Requester._id user
    ∧ jobSchema.validate job = true
    ∧ (∀ mn mx, Salary.min (jobSchema.salary job) = Some mn →
                Salary.max (jobSchema.salary job) = Some mx →
                mn ≠ 0 → mx ≠ 0 → mn <= mx)
    ∧ tagsNormal job.
Proof.
  intros Hplain _ Hbody result. subst result.
  unfold jobRoutes.createJob, tryCatch, lift, Job.save, Job.findById.
  destruct errors as [|err errors]; mrun; [|discriminate].
  destruct (jobRoutes.normalizeTags body) as [e|jobData] eqn:Hnorm; mrun; [discriminate|].
  destruct (Job.new _ jobData) as [e|job] eqn:Hnew; mrun; [discriminate|].
  destruct (faultAt 0 faults); mrun; [discriminate|].
  destruct (negb (jobSchema.validate job)) eqn:Hvalid; mrun; [discriminate|].
  destruct (jobSchema.preSave job) as [e|job'] eqn:Hhook; mrun; [discriminate|].
  destruct (jobs st !! newId) eqn:Hfree; mrun; [discriminate|].
  destruct (faultAt 1 faults); mrun; [discriminate|].
  intros _. apply preSave_ordered in Hhook as [-> Hordered].
  exists job. cbn [jobs withJobs]. rewrite lookup_insert_eq.
  split_and!; try done.
  - unfold Job.new in Hnew. by eapply applySet_new_hydrated.
  - unfold Job.new in Hnew.
    pose proof (applySet_frame _ _ _ _ Hnew jobSchema.PcreatedBy) as H. cbn in H.
    assert (jobSchema.VObjectId (jobSchema.createdBy job)
            = jobSchema.VObjectId (Requester._id user)) as [= ->]; [|done].
    apply H. intros key v Hin Hp. apply pathOf_name in Hp. cbn in Hp. subst key.
    apply filter_In in Hin as [_ Hin]. discriminate.
  - by apply negb_false_iff.
  - unfold Job.new in Hnew.
    eapply applySet_tags in Hnew as [[_ Ht]|[_ Ht]]; [| |exact Hbody| |exact Hnorm| |].
    + unfold tagsNormal. rewrite Ht. cbn. split_and!; constructor.
    + exact Ht.
    + intros v Hv. exact (plainBody_member body "tags" _ v Hplain eq_refl Hv).
    + apply distinctKeys_filter. by eapply normalizeTags_distinct.
    + by apply (member_filter (fun k => negb (String.eqb k "createdBy"))).
Qed.

(** The theorem at work: a body whose tags repeat, in other case and
    with blanks around, and which names a [createdBy] of its own; the
    salary it gives has no currency, the stored Job has the default. *)
Lemma createJob_effect_witness :
  let body := (jobBody 3000 5000
               ++ [("tags", JArr [JStr " Remote"; JStr "remote "; JStr "GO"]);
                   ("createdBy", JStr id11)])%list in
  ∃ job,
    jobs (jobRoutes.createJob recruiter 10%N [] body [] emptyStore).2 !! 10%N = Some job
    ∧ jobSchema.createdBy job = 1%N
    ∧ jobSchema.tags job = ["remote"; "go"]
    ∧ tagsNormal job
    ∧ Salary.currency (jobSchema.salary job) = Some "USD"
    ∧ jobSchema.hydrate job = job.
Proof.
  intros body.
  destruct (createJob_effect recruiter 10%N [] body [] emptyStore)
    as (job & _ & Hr & Hh & Hc & _ & _ & Ht).
  - reflexivity.
  - reflexivity.
  - unfold distinctKeys. cbn. repeat (apply NoDup_cons; split);
      [rewrite ?elem_of_cons, elem_of_nil; intros H; repeat destruct H as [H|H];
       try discriminate; done..|apply NoDup_nil_2].
  - reflexivity.
  - assert (Hj : jobs (jobRoutes.createJob recruiter 10%N [] body [] emptyStore).2 !! 10%N
                 = Some job).
    { rewrite Hr. cbn [snd jobs withJobs]. apply lookup_insert_eq. }
    exists job. split_and!; [exact Hj|exact Hc| |exact Ht| |exact Hh].
    + vm_compute in Hj. by injection Hj as <-.
    + vm_compute in Hj. by injection Hj as <-.
Defined.

Lemma member_replaceMember_ne key key' v o :
  key' ≠ key → member key' (jobRoutes.replaceMember key v o) = member key' o.
Proof.
  intros Hne. unfold jobRoutes.replaceMember. induction o as [|[k x] r IH]; cbn; [done|].
  destruct (String.eqb_spec k key) as [->|Hk]; cbn.
  - destruct (String.eqb_spec key key'); [congruence|exact IH].
  - destruct (String.eqb k key'); [done|exact IH].
Qed.

Lemma normalizeTags_member body data key :
  key ≠ "tags" → jobRoutes.normalizeTags body = inr data → member key data = member key body.
Proof.
  intros Hne. unfold jobRoutes.normalizeTags. intros H.
  destruct (member "tags" body) as [[]|]; try (by injection H as <-).
  destruct (jobRoutes.lowerTrimmed items) as [e|l]; cbn in H; [discriminate|].
  injection H as <-. by apply member_replaceMember_ne.
Qed.

(** X19. [Create] hands the whole body to the model, so the counters that
    the service derives are the client's to set: for a body with distinct
    keys, a [Create] that succeeds stores the [applicationsCount] and the
    [viewsCount] that the body gives, and 0 only when it gives none. *)
Theorem createJob_counters_from_body user newId errors body faults st :
  distinctKeys body →
  success (jobRoutes.createJob user newId errors body faults st).1 = true →
  ∃ job,
    jobs (jobRoutes.createJob user newId errors body faults st).2 !! newId = Some job
    ∧ (∀ n, member "applicationsCount" body = Some (JNum n) →
            jobSchema.applicationsCount job = n)
    ∧ (∀ n, member "viewsCount" body = Some (JNum n) → jobSchema.viewsCount job = n)
    ∧ (member "applicationsCount" body = None → jobSchema.applicationsCount job = 0)
    ∧ (member "viewsCount" body = None → jobSchema.viewsCount job = 0).
Proof.
  intros Hbody.
  unfold jobRoutes.createJob, tryCatch, lift, Job.save, Job.findById.
  destruct errors as [|err errors]; mrun; [|discriminate].
  destruct (jobRoutes.normalizeTags body) as [e|jobData] eqn:Hnorm; mrun; [discriminate|].
  destruct (Job.new _ jobData) as [e|job] eqn:Hnew; mrun; [discriminate|].
  destruct (faultAt 0 faults); mrun; [discriminate|].
  destruct (negb (jobSchema.validate job)) eqn:Hvalid; mrun; [discriminate|].
  destruct (jobSchema.preSave job) as [e|job'] eqn:Hhook; mrun; [discriminate|].
  destruct (jobs st !! newId) eqn:Hfree; mrun; [discriminate|].
  destruct (faultAt 1 faults); mrun; [discriminate|].
  intros _. apply preSave_ordered in Hhook as [-> _].
  exists job. cbn [jobs withJobs]. rewrite lookup_insert_eq. split; [done|].
  unfold Job.new in Hnew.
  assert (Hd : distinctKeys
            (List.filter (fun '(key, _) => negb (String.eqb key "createdBy")) jobData)).
  { apply distinctKeys_filter. by eapply normalizeTags_distinct. }
  assert (Hm : ∀ key, key ≠ "createdBy" → key ≠ "tags" →
            member key (List.filter (fun '(key, _) => negb (String.eqb key "createdBy")) jobData)
            = member key body).
  { intros key H1 H2.
    rewrite (member_filter (fun k => negb (String.eqb k "createdBy")))
      by (by apply negb_true_iff, String.eqb_neq).
    by apply normalizeTags_member. }
  pose proof (applySet_member _ jobSchema.PapplicationsCount _ _ _ Hd Hnew) as Ha.
  pose proof (applySet_member _ jobSchema.PviewsCount _ _ _ Hd Hnew) as Hv.
  cbn [jobSchema.pathName] in Ha, Hv. rewrite Hm in Ha, Hv by done.
  split_and!.
  - intros n Hn. rewrite Hn in Ha. destruct Ha as (j0 & j1 & H1 & H2).
    destruct j0. cbn in H1. injection H1 as <-. cbn in H2. by injection H2.
  - intros n Hn. rewrite Hn in Hv. destruct Hv as (j0 & j1 & H1 & H2).
    destruct j0. cbn in H1. injection H1 as <-. cbn in H2. by injection H2.
  - intros Hn. rewrite Hn in Ha. cbn in Ha. by injection Ha.
  - intros Hn. rewrite Hn in Hv. cbn in Hv. by injection Hv.
Qed.

(** The theorem at work: a new Job that claims 500 applications. *)
Lemma createJob_counters_from_body_witness :
  ∃ job,
    jobs (jobRoutes.createJob recruiter 10%N []
            (jobBody 3000 5000 ++ [("applicationsCount", JNum 500)])%list [] emptyStore).2
      !! 10%N = Some job
    ∧ jobSchema.applicationsCount job = 500.
Proof.
  destruct (createJob_counters_from_body recruiter 10%N []
              (jobBody 3000 5000 ++ [("applicationsCount", JNum 500)])%list [] emptyStore)
    as (job & Hjob & Hn & _).
  - unfold distinctKeys. cbn. repeat (apply NoDup_cons; split);
      [rewrite ?elem_of_cons, elem_of_nil; intros H; repeat destruct H as [H|H];
       try discriminate; done..|apply NoDup_nil_2].
  - reflexivity.
  - exists job. split; [exact Hjob|]. by apply Hn.
Defined.

(** The validators of a path look at the value of the path only. *)
Lemma validPath_get p j j' :
  jobSchema.get p j' = jobSchema.get p j → jobSchema.validPath j' p = jobSchema.validPath j p.
Proof. destruct p; cbn; intros [= H]; by rewrite ?H. Qed.

(** [runValidators] on the updated paths keeps a valid Job valid. *)
Lemma update_keeps_valid updates j j' :
  Job.applySet false updates j = inr j' →
  Job.updateValidators updates j' = true →
  jobSchema.validate j = true →
  jobSchema.validate j' = true.
Proof.
  intros Hset Hupd Hvalid. unfold jobSchema.validate in *.
  rewrite forallb_forall in *. intros p Hp.
  destruct (existsb (fun '(key, _) => String.eqb key (jobSchema.pathName p)) updates) eqn:E.
  - apply existsb_exists in E as ([key v] & Hin & Hkey).
    apply String.eqb_eq in Hkey. subst key.
    unfold Job.updateValidators in Hupd. rewrite forallb_forall in Hupd.
    specialize (Hupd _ Hin). cbn beta iota in Hupd. by rewrite pathOf_pathName in Hupd.
  - rewrite (validPath_get p j j'); [by apply Hvalid|].
    eapply applySet_frame; [exact Hset|]. intros key v Hin Hkey.
    apply not_true_iff_false in E. apply E. apply existsb_exists.
    exists (key, v). split; [done|]. apply String.eqb_eq. symmetry. by apply pathOf_name.
Qed.

(** X20. What a successful [Update] has found and done, for a body with
    distinct keys whose members have the JSON type of their path and
    strings of the ASCII range.  The Job is stored and the requester is
    its owner or an administrator; the Job is replaced by the updated
    one and nothing else in the store changes; the response carries the
    updated Job as the mapper reads it back, with the defaults of
    [salary.currency] and [salary.period] where the stored Job has none.
    The updated Job still passes every validator of the schema if the
    stored one did; its tags are those of the stored Job when the body
    gives none, and distinct ASCII strings, trimmed and in lower case,
    when it gives some. *)
Theorem updateJob_effect user id body faults st :
  plainBody body →
  distinctKeys body →
  let result := jobRoutes.updateJob user id body faults st in
  success result.1 = true →
  ∃ i job job',
    castObjectId id = Some i
    ∧ jobs st !! i = Some job
    ∧ mayManage user job
    ∧ result = (mkResponse 200 true (Some "Job updated successfully")
                  (JobData (Some (jobSchema.hydrate job'))),
                withJobs <[i := job']> st)
    ∧ (jobSchema.validate job = true → jobSchema.validate job' = true)
    ∧ (member "tags" body = None → jobSchema.tags job' = jobSchema.tags job)
    ∧ (member "tags" body ≠ None → tagsNormal job').
Proof.
  intros Hplain Hbody result. subst result.
  unfold jobRoutes.updateJob, tryCatch, castId, Job.findById, Job.findByIdAndUpdate_set, lift.
  destruct (castObjectId id) as [i|]; mrun; [|discriminate].
  destruct (faultAt 0 faults); mrun; [discriminate|].
  destruct (jobs st !! i) as [job|] eqn:Hjob; mrun; [|discriminate].
  destruct (negb (_ =? _)%N && _) eqn:Hdenied; mrun; [discriminate|].
  destruct (jobRoutes.normalizeTags _) as [e|updates] eqn:Hnorm; mrun; [discriminate|].
  destruct (faultAt 1 faults); mrun; [discriminate|].
  rewrite Hjob. mrun.
  destruct (Job.applySet false updates job) as [e|job'] eqn:Hset; mrun; [discriminate|].
  destruct (Job.updateValidators updates job') eqn:Hupd; mrun; [|discriminate].
  intros _. exists i, job, job'.
  assert (Hpicked : distinctKeys (jobRoutes.pickUpdates body)).
  { by apply distinctKeys_filter. }
  assert (Htags : member "tags" (jobRoutes.pickUpdates body) = member "tags" body).
  { by apply (member_filter (fun key => existsb (String.eqb key) jobRoutes.allowedUpdates)). }
  assert (Hplain' : ∀ v, member "tags" (jobRoutes.pickUpdates body) = Some v →
                         plainValue jobSchema.Ptags v = true).
  { intros v Hv. rewrite Htags in Hv.
    exact (plainBody_member body "tags" _ v Hplain eq_refl Hv). }
  destruct (applySet_tags false _ _ updates job job' Hpicked Hplain' Hnorm
              (normalizeTags_distinct _ _ Hpicked Hnorm) eq_refl Hset)
    as [[Hnone Ht]|[Hsome Ht]]; rewrite Htags in *.
  - split_and!; try done.
    + destruct (decide (mayManage user job)) as [|Hno]; [done|].
      apply denied_iff in Hno. congruence.
    + by eapply update_keeps_valid.
  - split_and!; try done.
    + destruct (decide (mayManage user job)) as [|Hno]; [done|].
      apply denied_iff in Hno. congruence.
    + by eapply update_keeps_valid.
Qed.

(** The theorem at work: [recruiter] gives Job 10 new tags and new salary
    bounds; the stored salary has no currency, the response shows the
    default. *)
Lemma updateJob_effect_witness :
  let st := storeWithJob (sampleJob None None None) in
  let body := [("tags", JArr [JStr "Go "; JStr "go"; JStr " OCaml"]);
               ("salary", JObj [("min", JNum 3000); ("max", JNum 5000)])] in
  ∃ job',
    jobRoutes.updateJob recruiter id10 body [] st
    = (mkResponse 200 true (Some "Job updated successfully")
         (JobData (Some (jobSchema.hydrate job'))),
       withJobs <[10%N := job']> st)
    ∧ tagsNormal job'
    ∧ Salary.currency (jobSchema.salary job') = None
    ∧ Salary.currency (jobSchema.salary (jobSchema.hydrate job')) = Some "USD".
Proof.
  intros st body.
  destruct (updateJob_effect recruiter id10 body [] st)
    as (i & job & job' & Hid & _ & _ & Hr & _ & _ & Ht).
  - reflexivity.
  - unfold distinctKeys. cbn. repeat (apply NoDup_cons; split);
      [rewrite ?elem_of_cons, elem_of_nil; intros H; repeat destruct H as [H|H];
       try discriminate; done..|apply NoDup_nil_2].
  - reflexivity.
  - injection Hid as <-. exists job'. split; [exact Hr|]. split; [by apply Ht|].
    assert (Hj' : jobs (jobRoutes.updateJob recruiter id10 body [] st).2 !! 10%N
                  = Some job').
    { rewrite Hr. cbn [snd jobs withJobs]. apply lookup_insert_eq. }
    vm_compute in Hj'. injection Hj' as <-. by split.
Defined.

(** ** Listing the Jobs *)

Lemma insertBy_Permutation {A} (before : A → A → bool) x l :
  insertBy before x l ≡ₚ x :: l.
Proof.
  induction l as [|y r IH]; cbn; [done|].
  destruct (before y x); [|done]. rewrite IH. apply Permutation_swap.
Qed.

Lemma sortBy_Permutation {A} (before : A → A → bool) l : sortBy before l ≡ₚ l.
Proof.
  induction l as [|x r IH]; cbn; [done|].
  rewrite insertBy_Permutation. by rewrite IH.
Qed.

Lemma Query_sort_sortBy before l : Query.sort before l = sortBy before l.
Proof.
  unfold Query.sort, sortBy. induction l as [|x r IH]; cbn; [done|]. rewrite IH.
  generalize (foldr (insertBy before) [] r). intros k.
  induction k as [|y k IHk]; cbn; [done|]. by rewrite IHk.
Qed.

Lemma filter_sublist {A} (f : A → bool) l : List.filter f l `sublist_of` l.
Proof.
  induction l as [|x r IH]; cbn; [done|].
  destruct (f x); [by apply sublist_skip|by apply sublist_cons].
Qed.

(** A page cut out of a sorted selection: its entries are selected
    entries, none comes twice, and their number is what is left of the
    selection from the start of the page, up to the size of a page. *)
Lemma page_spec {A B} (key : A → B) (before : A → A → bool) (f : A → bool) l k n :
  NoDup (key <$> l) →
  let page := take n (drop k (sortBy before (List.filter f l))) in
  NoDup (key <$> page)
  ∧ (∀ x, x ∈ page → x ∈ l ∧ f x = true)
  ∧ length page = (n `min` (length (List.filter f l) - k))%nat.
Proof.
  intros Hnd page. subst page. split_and!.
  - eapply sublist_NoDup; [|apply fmap_sublist; etrans; [apply sublist_take|apply sublist_drop]].
    rewrite sortBy_Permutation.
    eapply sublist_NoDup; [exact Hnd|]. apply fmap_sublist, filter_sublist.
  - intros x Hx.
    eapply elem_of_sublist in Hx; [|etrans; [apply sublist_take|apply sublist_drop]].
    rewrite sortBy_Permutation in Hx. apply list_elem_of_In, filter_In in Hx as [Hx Hf].
    split; [by apply list_elem_of_In|done].
  - rewrite length_take, length_drop. by rewrite sortBy_Permutation.
Qed.

Lemma member_oneOrMany_ne key key' p q :
  key ≠ key' → member key (jobRoutes.oneOrMany key' p q) = member key q.
Proof.
  intros Hne. unfold jobRoutes.oneOrMany. destruct p as [[s|l]|]; [|by apply member_assign_ne|done].
  destruct (String.eqb s ""); [done|by apply member_assign_ne].
Qed.

Lemma member_salaryFilter_ne key mn mx q :
  key ≠ "salary.min" → key ≠ "salary.max" →
  member key (jobRoutes.salaryFilter mn mx q) = member key q.
Proof.
  intros H1 H2. unfold jobRoutes.salaryFilter.
  destruct (truthy mn), (truthy mx); cbn; by rewrite ?member_assign_ne.
Qed.

(** Every filter that the listing builds asks for active Jobs. *)
Lemma buildQuery_isActive eng rq q :
  jobRoutes.buildQuery eng rq = Some q →
  member "isActive" q = Some (Equals (JBool true)).
Proof.
  unfold jobRoutes.buildQuery.
  set (q1 := if truthy (jobRoutes.keyword rq) then _ else _).
  assert (H1 : member "isActive" q1 = Some (Equals (JBool true))).
  { subst q1. destruct (truthy (jobRoutes.keyword rq)); [|done].
    by rewrite member_assign_ne. }
  destruct (if truthy (jobRoutes.location rq) then _ else _) as [q2|] eqn:Hq2;
    cbn [mbind option_bind]; [|done].
  intros [= <-].
  assert (H2 : member "isActive" q2 = Some (Equals (JBool true))).
  { destruct (truthy (jobRoutes.location rq)); [|by injection Hq2 as <-].
    destruct (regExp eng _); cbn [fmap option_fmap option_map] in Hq2; [|done].
    injection Hq2 as <-. by rewrite member_assign_ne. }
  destruct (bool_decide _); rewrite ?member_assign_ne by done;
    rewrite member_salaryFilter_ne, !member_oneOrMany_ne by done; exact H2.
Qed.

Lemma matches_isActive eng rq q j :
  jobRoutes.buildQuery eng rq = Some q →
  Query.matches eng q j = true →
  jobSchema.isActive j = true.
Proof.
  intros Hq Hm. apply buildQuery_isActive, member_In in Hq.
  unfold Query.matches in Hm. rewrite forallb_forall in Hm. specialize (Hm _ Hq).
  cbn in Hm. by destruct (jobSchema.isActive j).
Qed.

(** What a page of [List] is made of. *)
Lemma getJobs_page eng user errors rq faults st page pagination :
  data (jobRoutes.getJobs eng user errors rq faults st).1 = JobsPage page pagination →
  ∃ q p n,
    let found :=
      take (Z.to_nat n) (drop (Z.to_nat ((p - 1) * n))
        (sortBy (precedes eng (jobRoutes.buildSort rq)) (matchingJobs eng q st))) in
    let total := Z.of_nat (length (matchingJobs eng q st)) in
    jobRoutes.buildQuery eng rq = Some q
    ∧ 0 <= (p - 1) * n
    ∧ 1 <= n
    ∧ page = match user with
             | Some user =>
                 (fun d : N * jobSchema.t =>
                    (d.1, d.2,
                     Some (jobRoutes.appMapLookup
                             (List.filter
                                (fun d => (applicationSchema.applicant d.2
                                           =? Requester._id user)%N
                                          && bool_decide (applicationSchema.job d.2
                                                          ∈ fst <$> found))
                                (map_to_list (applications st))) d.1))) <$> found
             | None => (fun d : N * jobSchema.t => (d.1, d.2, None)) <$> found
             end
    ∧ pagination = mkPagination (Some p) (Some (jobRoutes.ceilDiv total n)) total (Some n)
                     (p <? jobRoutes.ceilDiv total n) (1 <? p).
Proof.
  unfold jobRoutes.getJobs, tryCatch, Application.find, Job.find, Job.countDocuments.
  destruct errors as [|err errors]; mrun; [|discriminate].
  destruct (jobRoutes.buildQuery eng rq) as [q|] eqn:Hq; mrun; [|discriminate].
  destruct (faultAt 0 faults); mrun.
  { destruct (faultAt 1 faults); mrun; [discriminate|].
    destruct (forallb _ q); mrun; discriminate. }
  destruct (match jobRoutes.page rq with Some _ => _ | None => _ end) as [p|];
    cbn [mbind option_bind].
  2:{ mrun. destruct (faultAt 1 faults); mrun; [discriminate|].
      destruct (forallb _ q); mrun; discriminate. }
  destruct (match jobRoutes.limit rq with Some _ => _ | None => _ end) as [n|];
    cbn [mbind option_bind].
  2:{ mrun. destruct (faultAt 1 faults); mrun; [discriminate|].
      destruct (forallb _ q); mrun; discriminate. }
  destruct (forallb _ q); mrun.
  2:{ destruct (faultAt 1 faults); mrun; discriminate. }
  destruct (0 <=? (p - 1) * n) eqn:Hk; mrun.
  2:{ destruct (faultAt 1 faults); mrun; discriminate. }
  destruct (1 <=? n) eqn:Hn; mrun.
  2:{ destruct (faultAt 1 faults); mrun; discriminate. }
  destruct (faultAt 1 faults); mrun; [discriminate|].
  rewrite Query_sort_sortBy. fold (matchingJobs eng q st).
  destruct user as [user|]; mrun.
  - destruct (faultAt 2 faults); mrun; [discriminate|].
    intros [= <- <-]. exists q, p, n. cbn zeta. split_and!; try done; lia.
  - intros [= <- <-]. exists q, p, n. cbn zeta. split_and!; try done; lia.
Qed.

(** X21. What [List] returns.  When a page comes back, every Job on it is
    stored under its identifier, is active and satisfies the filter of
    the request; no Job comes twice; the page holds no more Jobs than its
    limit, which is at least 1 (the query is served for no other limit);
    and [totalJobs] is the number of the stored Jobs that satisfy the
    filter.  The store is as it was. *)
Theorem getJobs_sound eng user errors rq faults st page pagination :
  data (jobRoutes.getJobs eng user errors rq faults st).1 = JobsPage page pagination →
  NoDup ((fun d : N * jobSchema.t * option (option string) => d.1.1) <$> page)
  ∧ (∀ i j s, (i, j, s) ∈ page →
       jobs st !! i = Some j
       ∧ jobSchema.isActive j = true
       ∧ ∀ q, jobRoutes.buildQuery eng rq = Some q → Query.matches eng q j = true)
  ∧ (∃ q n, jobRoutes.buildQuery eng rq = Some q
            ∧ limit pagination = Some n
            ∧ 1 <= n
            ∧ Z.of_nat (length page) <= n
            ∧ totalJobs pagination = Z.of_nat (length (matchingJobs eng q st))
            ∧ Z.of_nat (length page) <= totalJobs pagination)
  ∧ (jobRoutes.getJobs eng user errors rq faults st).2 = st.
Proof.
  intros H. apply getJobs_page in H as (q & p & n & Hq & Hk & Hn & Hpage & Hpagination).
  cbn zeta in *.
  destruct (page_spec fst (precedes eng (jobRoutes.buildSort rq))
              (fun d : N * jobSchema.t => Query.matches eng q d.2)
              (map_to_list (jobs st)) (Z.to_nat ((p - 1) * n)) (Z.to_nat n)
              (NoDup_fst_map_to_list _)) as (Hnd & Hin & Hlen).
  fold (matchingJobs eng q st) in Hnd, Hin, Hlen.
  set (found := take (Z.to_nat n) (drop (Z.to_nat ((p - 1) * n))
                  (sortBy (precedes eng (jobRoutes.buildSort rq)) (matchingJobs eng q st))))
    in *.
  assert (Hids : (fun d : N * jobSchema.t * option (option string) => d.1.1) <$> page
                 = fst <$> found).
  { rewrite Hpage. destruct user; rewrite <- list_fmap_compose; by apply list_fmap_ext. }
  assert (Hlength : length page = length found).
  { rewrite Hpage. destruct user; by rewrite length_fmap. }
  assert (Hfound : ∀ i j s, (i, j, s) ∈ page → (i, j) ∈ found).
  { intros i j s Hijs. rewrite Hpage in Hijs.
    destruct user; apply list_elem_of_fmap in Hijs as ([i' j'] & [= -> -> _] & Hd); exact Hd. }
  split_and!.
  - by rewrite Hids.
  - intros i j s Hijs. apply Hfound, Hin in Hijs as [Hstored Hmatch].
    apply elem_of_map_to_list in Hstored. cbn in Hmatch.
    split_and!; [done|by eapply matches_isActive|]. intros q' Hq'. congruence.
  - exists q, n. rewrite Hpagination. cbn [limit totalJobs].
    split_and!; try done; rewrite Hlength, Hlen; lia.
  - apply getJobs_store.
Qed.

(** The theorem at work: the listing of a store with the active
    Job 10. *)
Lemma getJobs_sound_witness :
  let rq := jobRoutes.mkJobsQuery None None None None None None None None None None None None in
  let st := storeWithJob (sampleJob None None None) in
  returnedJobs (jobRoutes.getJobs castingEngine None [] rq [] st).1
    = [(10%N, sampleJob None None None)]
  ∧ jobs st !! 10%N = Some (sampleJob None None None)
  ∧ jobSchema.isActive (sampleJob None None None) = true.
Proof.
  intros rq st.
  destruct (getJobs_sound castingEngine None [] rq [] st
              [(10%N, sampleJob None None None, None)]
              (mkPagination (Some 1) (Some 1) 1 (Some 10) false false)
              ltac:(vm_compute; reflexivity)) as (_ & Hs & _).
  split; [vm_compute; reflexivity|].
  destruct (Hs 10%N (sampleJob None None None) None ltac:(by left)) as (H1 & H2 & _).
  by split.
Defined.

Lemma ceilDiv_spec total n :
  0 < n →
  (jobRoutes.ceilDiv total n - 1) * n < total <= jobRoutes.ceilDiv total n * n.
Proof.
  intros Hn. unfold jobRoutes.ceilDiv.
  pose proof (Z.div_mod (- total) n ltac:(lia)) as Hd.
  pose proof (Z.mod_pos_bound (- total) n Hn) as Hm. nia.
Qed.

(** X22. The pagination of [List].  When a page comes back, the page
    number and the limit of the request are numbers, both at least 1 (the
    query is served for no others);
    [totalPages] is the least number of pages of that size that hold
    [totalJobs] Jobs; the page holds what is left of the matching Jobs
    from its start, up to the limit; [hasNext] says that Jobs are left
    after this page, and [hasPrev] that this is not the first page. *)
Theorem getJobs_pagination eng user errors rq faults st page pagination :
  data (jobRoutes.getJobs eng user errors rq faults st).1 = JobsPage page pagination →
  ∃ p n pages,
    let total := totalJobs pagination in
    currentPage pagination = Some p
    ∧ limit pagination = Some n
    ∧ totalPages pagination = Some pages
    ∧ 1 <= p ∧ 1 <= n
    ∧ (pages - 1) * n < total <= pages * n
    ∧ Z.of_nat (length page) = pageLength total p n
    ∧ (hasNext pagination = true ↔ p * n < total)
    ∧ (hasPrev pagination = true ↔ 1 < p).
Proof.
  intros H. apply getJobs_page in H as (q & p & n & Hq & Hk & Hn & Hpage & Hpagination).
  cbn zeta in *.
  exists p, n, (jobRoutes.ceilDiv (Z.of_nat (length (matchingJobs eng q st))) n).
  rewrite Hpagination. cbn [currentPage limit totalPages totalJobs hasNext hasPrev].
  pose proof (ceilDiv_spec (Z.of_nat (length (matchingJobs eng q st))) n ltac:(lia)) as Hc.
  assert (Hlength : length page
                    = (Z.to_nat n `min` (length (matchingJobs eng q st)
                                         - Z.to_nat ((p - 1) * n)))%nat).
  { rewrite Hpage.
    destruct user; rewrite length_fmap, length_take, length_drop;
      by rewrite sortBy_Permutation. }
  assert (Hp : 1 <= p) by nia.
  split_and!; [done|done|done|done|done|lia|lia| | |].
  - rewrite Hlength. unfold pageLength. lia.
  - rewrite Z.ltb_lt. nia.
  - by rewrite Z.ltb_lt.
Qed.

(** The theorem at work: the first page of a store with one Job has no
    successor. *)
Lemma getJobs_pagination_witness :
  let rq := jobRoutes.mkJobsQuery None None None None None None None None None None None None in
  let st := storeWithJob (sampleJob None None None) in
  let pagination := mkPagination (Some 1) (Some 1) 1 (Some 10) false false in
  data (jobRoutes.getJobs castingEngine None [] rq [] st).1
    = JobsPage [(10%N, sampleJob None None None, None)] pagination
  ∧ ∃ p n pages,
      currentPage pagination = Some p
      ∧ limit pagination = Some n
      ∧ totalPages pagination = Some pages
      ∧ (pages - 1) * n < totalJobs pagination <= pages * n
      ∧ (hasNext pagination = true ↔ p * n < totalJobs pagination).
Proof.
  intros rq st pagination.
  assert (Hdata : data (jobRoutes.getJobs castingEngine None [] rq [] st).1
                  = JobsPage [(10%N, sampleJob None None None, None)] pagination)
    by (vm_compute; reflexivity).
  split; [exact Hdata|].
  destruct (getJobs_pagination castingEngine None [] rq [] st _ _ Hdata)
    as (p & n & pages & Hp & Hn & Hpages & _ & _ & Hbound & _ & Hnext & _).
  by exists p, n, pages.
Defined.

(** ** The status of the requester's own application *)

(** X23. [userApplicationStatus] in a page of [List].  For an anonymous
    request no Job carries the member.  For a signed-in requester every
    Job of the page carries it: it is [null] when the requester has no
    Application to the Job, and it is the status of that Application
    when there is one, the pairs of Job and applicant being unique in the
    store. *)
Theorem getJobs_annotation eng user errors rq faults st page pagination :
  data (jobRoutes.getJobs eng user errors rq faults st).1 = JobsPage page pagination →
  ∀ i j s, (i, j, s) ∈ page →
    match user with
    | None => s = None
    | Some user =>
        ∃ o, s = Some o
             ∧ (¬ hasApplied st i (Requester._id user) → o = None)
             ∧ (uniqueApplications st →
                ∀ k a, applications st !! k = Some a →
                       applicationSchema.job a = i →
                       applicationSchema.applicant a = Requester._id user →
                       applicationSchema.status a ≠ "" →
                       o = Some (applicationSchema.status a))
    end.
Proof.
  intros H i j s Hin.
  apply getJobs_page in H as (q & p & n & _ & _ & _ & Hpage & _). cbn zeta in Hpage.
  set (found := take (Z.to_nat n) (drop (Z.to_nat ((p - 1) * n))
                  (sortBy (precedes eng (jobRoutes.buildSort rq)) (matchingJobs eng q st))))
    in *.
  destruct user as [user|]; rewrite Hpage in Hin;
    apply list_elem_of_fmap in Hin as ([i' j'] & [= -> -> ->] & Hd); [|done].
  cbn [fst snd]. eexists. split; [reflexivity|].
  set (mine := List.filter _ (map_to_list (applications st))).
  assert (Hmine : ∀ d, In d mine ↔
            applications st !! d.1 = Some d.2
            ∧ applicationSchema.applicant d.2 = Requester._id user
            ∧ applicationSchema.job d.2 ∈ fst <$> found).
  { intros [k a]. subst mine. rewrite filter_In, <- list_elem_of_In, elem_of_map_to_list.
    cbn [fst snd]. rewrite andb_true_iff, N.eqb_eq, bool_decide_eq_true. tauto. }
  unfold jobRoutes.appMapLookup.
  destruct (List.find _ (rev mine)) as [d|] eqn:Hfind.
  - apply find_some in Hfind as [Hd' Hjob]. apply in_rev, Hmine in Hd' as (Hstored & Happ & _).
    apply N.eqb_eq in Hjob. split.
    + intros Hnot. destruct Hnot. by exists d.1, d.2.
    + intros Hu k a Hk Ha Hown Hs.
      assert (d.1 = k) as <- by (eapply Hu; [exact Hstored|exact Hk|congruence|congruence]).
      assert (d.2 = a) as -> by congruence.
      apply String.eqb_neq in Hs. by rewrite Hs.
  - split; [done|]. intros _ k a Hk Ha Hown _. exfalso.
    enough (Hka : In (k, a) (rev mine)).
    { apply (find_none _ _ Hfind) in Hka. cbn in Hka. rewrite Ha, N.eqb_refl in Hka.
      discriminate. }
    apply in_rev. rewrite rev_involutive. apply Hmine. cbn. split_and!; [done|done|].
    rewrite Ha. apply list_elem_of_fmap. by exists (i', j').
Qed.

(** A store with one Application has no pair twice. *)
Lemma storeWithApplication_unique j a : uniqueApplications (storeWithApplication j a).
Proof.
  intros i1 i2 a1 a2 H1 H2 _ _. cbn in H1, H2.
  apply lookup_singleton_Some in H1 as [<- _]. by apply lookup_singleton_Some in H2 as [<- _].
Qed.

(** The theorem at work: [seeker], whose Application 11 to Job 10 is
    pending, lists the Jobs. *)
Lemma getJobs_annotation_witness :
  let rq := jobRoutes.mkJobsQuery None None None None None None None None None None None None in
  let st := storeWithApplication (sampleJob None None None) pendingApplication in
  let status := Some (Some (applicationSchema.status pendingApplication)) in
  data (jobRoutes.getJobs castingEngine (Some seeker) [] rq [] st).1
    = JobsPage [(10%N, sampleJob None None None, status)]
        (mkPagination (Some 1) (Some 1) 1 (Some 10) false false)
  ∧ ∃ o, status = Some o ∧ o = Some (applicationSchema.status pendingApplication).
Proof.
  intros rq st status.
  assert (Hdata : data (jobRoutes.getJobs castingEngine (Some seeker) [] rq [] st).1
                  = JobsPage [(10%N, sampleJob None None None, status)]
                      (mkPagination (Some 1) (Some 1) 1 (Some 10) false false))
    by (vm_compute; reflexivity).
  split; [exact Hdata|].
  destruct (getJobs_annotation castingEngine (Some seeker) [] rq [] st _ _ Hdata
              10%N (sampleJob None None None) status ltac:(by left))
    as (o & Ho & _ & Hu).
  exists o. split; [exact Ho|].
  apply (Hu (storeWithApplication_unique _ _) 11%N pendingApplication);
    [reflexivity..|discriminate].
Defined.

(** X24. [userApplicationStatus] of [Get].  A signed-in requester who
    reads an active Job, the three storage calls served, is answered the
    Job together with the status of the own Application to it -- [null]
    when there is none; the Job comes as it was read, before the view was
    counted. *)
Theorem getJob_annotation user id faults st i job :
  castObjectId id = Some i →
  jobs st !! i = Some job →
  jobSchema.isActive job = true →
  (∀ n, (n < 3)%nat → faultAt n faults = false) →
  ∃ s,
    (jobRoutes.getJob (Some user) id faults st).1
      = mkResponse 200 true None (JobWithStatus job s)
    ∧ (¬ hasApplied st i (Requester._id user) → s = None)
    ∧ (uniqueApplications st →
       ∀ k a, applications st !! k = Some a →
              applicationSchema.job a = i →
              applicationSchema.applicant a = Requester._id user →
              s = Some (applicationSchema.status a)).
Proof.
  intros Hid Hjob Hact Hserved.
  unfold jobRoutes.getJob, tryCatch, castId, Job.findById,
    Job.findByIdAndUpdate_incViewsCount, Application.findOne.
  rewrite Hid. mrun. rewrite (Hserved 0%nat), Hjob by lia. mrun. rewrite Hact. mrun.
  rewrite (Hserved 1%nat) by lia. mrun. rewrite (Hserved 2%nat) by lia. mrun.
  cbn [applications withJobs].
  destruct (List.find _ _) as [d|] eqn:Hfind; cbn [fmap option_fmap option_map]; mrun.
  - apply findOne_Some in Hfind as (Hstored & Hj & Ha).
    eexists. split; [reflexivity|]. split.
    + intros Hnot. destruct Hnot. by exists d.1, d.2.
    + intros Hu k a Hk Hj' Ha'.
      assert (d.1 = k) as <- by (eapply Hu; [exact Hstored|exact Hk|congruence|congruence]).
      congruence.
  - eexists. split; [reflexivity|]. split; [done|].
    intros _ k a Hk Hj Ha. exfalso. by eapply findOne_None.
Qed.

(** The theorem at work: [seeker] reads Job 10, to which the pending
    Application 11 is the own one. *)
Lemma getJob_annotation_witness :
  let st := storeWithApplication (sampleJob None None None) pendingApplication in
  (jobRoutes.getJob (Some seeker) id10 [] st).1
  = mkResponse 200 true None (JobWithStatus (sampleJob None None None) (Some "pending")).
Proof.
  intros st.
  destruct (getJob_annotation seeker id10 [] st 10%N (sampleJob None None None)
              eq_refl eq_refl eq_refl) as (s & Hr & _ & Hs).
  { intros n _. by destruct n. }
  rewrite Hr.
  by rewrite (Hs (storeWithApplication_unique _ _) 11%N pendingApplication
                eq_refl eq_refl eq_refl).
Defined.

(** ** What never changes, and what stays true *)

Lemma validate_incApplicationsCount d j :
  jobSchema.validate (jobSchema.incApplicationsCount d j) = jobSchema.validate j.
Proof. by destruct j. Qed.

Lemma validate_incViewsCount d j :
  jobSchema.validate (jobSchema.incViewsCount d j) = jobSchema.validate j.
Proof. by destruct j. Qed.

Lemma lookup_alter_change {A} (f : A → A) (m : gmap N A) i k y :
  alter f i m !! k = Some y →
  m !! k = Some y ∨ ∃ x, k = i ∧ m !! k = Some x ∧ y = f x.
Proof.
  destruct (decide (i = k)) as [->|Hne].
  - rewrite lookup_alter_eq. destruct (m !! k) as [x|]; cbn; [|done].
    intros [= <-]. right. by exists x.
  - rewrite lookup_alter_ne by done. by left.
Qed.

Lemma lookup_insert_change {A} (m : gmap N A) i k x y :
  <[i := x]> m !! k = Some y → m !! k = Some y ∨ (k = i ∧ y = x).
Proof.
  destruct (decide (i = k)) as [->|Hne].
  - rewrite lookup_insert_eq. intros [= <-]. by right.
  - rewrite lookup_insert_ne by done. by left.
Qed.

Lemma updateApplicationStatus_jobs user now errors id status notes faults st :
  jobs (applicationRoutes.updateApplicationStatus user now errors id status notes faults st).2
  = jobs st.
Proof.
  unfold applicationRoutes.updateApplicationStatus, tryCatch, castId,
    Application.findById_populate, Application.saveModified, Application.findById.
  destruct errors as [|err errors]; mrun; [|done].
  destruct (castObjectId id) as [i|]; mrun; [|done].
  destruct (faultAt 0 faults); mrun; [done|].
  destruct (applications st !! i) as [a|] eqn:Ha; cbn [fmap option_fmap option_map]; mrun;
    [|done].
  cbn [Application.job Application.doc].
  destruct (jobs st !! applicationSchema.job a) as [job|]; mrun; [|done].
  destruct (negb (_ =? _)%N && _); mrun; [done|].
  destruct (faultAt 1 faults); mrun; [done|].
  destruct (negb (applicationSchema.validate _)); mrun; [done|].
  rewrite Ha. mrun.
  by destruct (faultAt 2 faults); mrun.
Qed.

(** The change of a stored Job in one request, whatever the faults. *)
Lemma handle_jobs eng now faults rq st k j' :
  jobs (handle eng now faults rq st).2 !! k = Some j' → jobChange st k j'.
Proof.
  destruct rq as [user newId errors jobId resume cover|user errors id status notes|user id
                 |user id|user errors rq|user id|user newId errors body|user id body|user id];
    cbn [handle].
  - apply_unfold.
    destruct errors as [|err errors]; mrun; [|apply JobKept].
    destruct (castObjectId jobId) as [i|]; mrun; [|apply JobKept].
    destruct (faultAt 0 faults); mrun; [apply JobKept|].
    destruct (jobs st !! i) as [job|] eqn:Hjob; mrun; [|apply JobKept].
    destruct (jobSchema.isActive job); mrun; [|apply JobKept].
    destruct (match jobSchema.applicationDeadline job with Some _ => _ | None => _ end);
      mrun; [apply JobKept|].
    destruct (faultAt 1 faults); mrun; [apply JobKept|].
    destruct (List.find _ _); mrun; [apply JobKept|].
    destruct (_ =? _)%N; mrun; [apply JobKept|].
    destruct (faultAt 2 faults); mrun; [apply JobKept|].
    destruct (negb (applicationSchema.validate _)); mrun; [apply JobKept|].
    destruct (applications st !! newId); mrun; [apply JobKept|].
    destruct (List.find _ _); mrun; [apply JobKept|].
    assert (Hcount : alter (jobSchema.incApplicationsCount 1) i (jobs st) !! k = Some j' →
                     jobChange st k j').
    { intros H. apply lookup_alter_change in H as [H|(x & -> & Hx & ->)];
        [by apply JobKept|eapply JobCounted; [exact Hx|by left|done]]. }
    destruct (faultAt 3 faults); mrun; cbn [jobs withJobs withApplications];
      [apply JobKept|].
    destruct (faultAt 4 faults); mrun; exact Hcount.
  - rewrite (updateApplicationStatus_jobs user now errors id status notes faults st).
    apply JobKept.
  - rewrite getApplication_store. apply JobKept.
  - unfold applicationRoutes.withdrawApplication, tryCatch, castId, Application.findById,
      Application.findByIdAndDelete, Job.findByIdAndUpdate_incApplicationsCount.
    destruct (castObjectId id) as [i|]; mrun; [|apply JobKept].
    destruct (faultAt 0 faults); mrun; [apply JobKept|].
    destruct (applications st !! i) as [a|]; mrun; [|apply JobKept].
    destruct (negb (_ =? _)%N); mrun; [apply JobKept|].
    destruct (existsb _ _); mrun; [apply JobKept|].
    assert (Hcount : alter (jobSchema.incApplicationsCount (-1)) (applicationSchema.job a)
                       (jobs st) !! k = Some j' → jobChange st k j').
    { intros H. apply lookup_alter_change in H as [H|(x & -> & Hx & ->)];
        [by apply JobKept|eapply JobCounted; [exact Hx|by right|done]]. }
    destruct (faultAt 1 faults); mrun; (destruct (faultAt 2 faults); mrun);
      cbn [jobs withJobs withApplications]; first [exact Hcount|apply JobKept].
  - rewrite getJobs_store. apply JobKept.
  - unfold jobRoutes.getJob, tryCatch, castId, Job.findById,
      Job.findByIdAndUpdate_incViewsCount, Application.findOne.
    destruct (castObjectId id) as [i|]; mrun; [|apply JobKept].
    destruct (faultAt 0 faults); mrun; [apply JobKept|].
    destruct (jobs st !! i) as [job|]; mrun; [|apply JobKept].
    destruct (jobSchema.isActive job); mrun; [|apply JobKept].
    assert (Hview : alter (jobSchema.incViewsCount 1) i (jobs st) !! k = Some j' →
                    jobChange st k j').
    { intros H. apply lookup_alter_change in H as [H|(x & -> & Hx & ->)];
        [by apply JobKept|by eapply JobViewed]. }
    destruct (faultAt 1 faults); mrun; [apply JobKept|].
    destruct user as [user|]; mrun; [|exact Hview].
    destruct (faultAt 2 faults); mrun; exact Hview.
  - unfold jobRoutes.createJob, tryCatch, lift, Job.save, Job.findById.
    destruct errors as [|err errors]; mrun; [|apply JobKept].
    destruct (jobRoutes.normalizeTags body) as [e|jobData]; mrun; [apply JobKept|].
    destruct (Job.new _ jobData) as [e|job] eqn:Hnew; mrun; [apply JobKept|].
    destruct (faultAt 0 faults); mrun; [apply JobKept|].
    destruct (negb (jobSchema.validate job)) eqn:Hvalid; mrun; [apply JobKept|].
    destruct (jobSchema.preSave job) as [e|job'] eqn:Hhook; mrun; [apply JobKept|].
    destruct (jobs st !! newId) eqn:Hfree; mrun; [apply JobKept|].
    apply preSave_ordered in Hhook as [-> _].
    assert (Hcreate : <[newId := job]> (jobs st) !! k = Some j' → jobChange st k j').
    { intros H. apply lookup_insert_change in H as [H|[-> ->]]; [by apply JobKept|].
      eapply JobCreated; [done|by apply negb_false_iff|reflexivity]. }
    destruct (faultAt 1 faults); mrun; exact Hcreate.
  - unfold jobRoutes.updateJob, tryCatch, castId, Job.findById, Job.findByIdAndUpdate_set, lift.
    destruct (castObjectId id) as [i|]; mrun; [|apply JobKept].
    destruct (faultAt 0 faults); mrun; [apply JobKept|].
    destruct (jobs st !! i) as [job|] eqn:Hjob; mrun; [|apply JobKept].
    destruct (negb (_ =? _)%N && _); mrun; [apply JobKept|].
    destruct (jobRoutes.normalizeTags _) as [e|updates] eqn:Hnorm; mrun; [apply JobKept|].
    destruct (faultAt 1 faults); mrun; [apply JobKept|].
    rewrite Hjob. mrun.
    destruct (Job.applySet false updates job) as [e|job'] eqn:Hset; mrun; [apply JobKept|].
    destruct (Job.updateValidators updates job') eqn:Hupd; mrun; [|apply JobKept].
    cbn [jobs withJobs]. intros H.
    apply lookup_insert_change in H as [H|[-> ->]]; [by apply JobKept|].
    eapply JobUpdated; [exact Hjob|exact Hset|exact Hupd|].
    intros key v Hin. destruct (normalizeTags_keys _ _ _ _ Hnorm Hin) as [v' Hin'].
    by eapply pickUpdates_allowed.
  - unfold jobRoutes.deleteJob, tryCatch, castId, Job.findById, Job.findByIdAndDelete,
      Application.deleteMany.
    destruct (castObjectId id) as [i|]; mrun; [|apply JobKept].
    destruct (faultAt 0 faults); mrun; [apply JobKept|].
    destruct (jobs st !! i) as [job|]; mrun; [|apply JobKept].
    destruct (negb (_ =? _)%N && _); mrun; [apply JobKept|].
    assert (Hdel : delete i (jobs st) !! k = Some j' → jobChange st k j').
    { intros H. apply lookup_delete_Some in H as [_ H]. by apply JobKept. }
    destruct (faultAt 1 faults); mrun; (destruct (faultAt 2 faults); mrun);
      cbn [jobs withJobs withApplications]; first [exact Hdel|apply JobKept].
Qed.

(** X25. What one request can do to a stored Job.  Whatever the request
    and whatever the faults, a Job that is stored before and after keeps
    its owner, its [viewsCount] grows by at most one and never falls, and
    its [applicationsCount] moves by at most one. *)
Theorem handle_job_frame eng now faults rq st k j j' :
  jobs st !! k = Some j →
  jobs (handle eng now faults rq st).2 !! k = Some j' →
  jobSchema.createdBy j' = jobSchema.createdBy j
  ∧ jobSchema.viewsCount j <= jobSchema.viewsCount j' <= jobSchema.viewsCount j + 1
  ∧ jobSchema.applicationsCount j - 1 <= jobSchema.applicationsCount j'
    <= jobSchema.applicationsCount j + 1.
Proof.
  intros Hj Hj'. apply handle_jobs in Hj'.
  destruct Hj' as [H|j0 d H Hd ->|j0 H ->|creator H _ _|j0 updates H Hset _ Hallowed];
    rewrite Hj in H; try discriminate; try injection H as <-.
  - lia.
  - destruct j. cbn. lia.
  - destruct j. cbn. lia.
  - assert (Hframe : ∀ p, jobSchema.pathName p ∉ jobRoutes.allowedUpdates →
                          jobSchema.get p j' = jobSchema.get p j).
    { intros p Hp. eapply applySet_frame; [exact Hset|].
      intros key v Hin Hpath. apply pathOf_name in Hpath. subst key.
      apply Hp. by eapply Hallowed. }
    assert (H1 := Hframe jobSchema.PcreatedBy ltac:(by rewrite allowed_spec)).
    assert (H2 := Hframe jobSchema.PapplicationsCount ltac:(by rewrite allowed_spec)).
    assert (H3 := Hframe jobSchema.PviewsCount ltac:(by rewrite allowed_spec)).
    cbn in H1, H2, H3. injection H1 as ->. injection H2 as ->. injection H3 as ->. lia.
Qed.

(** The theorem at work: [seeker] reads Job 10 of [recruiter]. *)
Lemma handle_job_frame_witness :
  let st := storeWithJob (sampleJob None None None) in
  let j' := jobSchema.incViewsCount 1 (sampleJob None None None) in
  jobs (handle castingEngine 100 [] (Get (Some seeker) id10) st).2 !! 10%N = Some j'
  ∧ jobSchema.createdBy j' = 1%N.
Proof.
  intros st j'.
  assert (Hj' : jobs (handle castingEngine 100 [] (Get (Some seeker) id10) st).2 !! 10%N
                = Some j') by (vm_compute; reflexivity).
  split; [exact Hj'|].
  exact (proj1 (handle_job_frame castingEngine 100 [] (Get (Some seeker) id10) st 10%N
                  (sampleJob None None None) j' eq_refl Hj')).
Defined.

(** X26. The validators hold across the requests.  If every stored Job
    passes the validators of the schema, so does every Job stored after
    any sequence of requests, whatever the faults: [Create] validates the
    whole document, and [Update], which validates the updated paths only,
    leaves the other paths as they were. *)
Theorem serve_keeps_jobs_valid eng trace : ∀ st,
  jobsValid st → jobsValid (serve eng trace st).
Proof.
  induction trace as [|[[now faults] rq] rest IH]; intros st Hvalid; [done|].
  cbn [serve]. apply IH. intros k j' Hj'. apply handle_jobs in Hj'.
  destruct Hj' as [H|j0 d H Hd ->|j0 H ->|creator H Hv _|j0 updates H Hset Hupd _].
  - by eapply Hvalid.
  - rewrite validate_incApplicationsCount. by eapply Hvalid.
  - rewrite validate_incViewsCount. by eapply Hvalid.
  - exact Hv.
  - eapply update_keeps_valid; [exact Hset|exact Hupd|by eapply Hvalid].
Qed.

(** The theorem at work: a Job is created, its salary is inverted by an
    update, and it is read. *)
Lemma serve_keeps_jobs_valid_witness :
  jobsValid (serve castingEngine
               [(100, [], Create recruiter 10%N [] (jobBody 3000 5000));
                (200, [], Update recruiter id10 invertedSalary);
                (300, [], Get None id10)] emptyStore).
Proof.
  apply serve_keeps_jobs_valid. intros k j H. cbn in H. by rewrite lookup_empty in H.
Defined.

(** ** The counter of the applications *)

Lemma applicationsOf_same st st' k :
  applications st' = applications st → applicationsOf st' k = applicationsOf st k.
Proof. unfold applicationsOf. by intros ->. Qed.

Lemma applicationsOf_insert_fresh st st' i a k :
  applications st' = <[i := a]> (applications st) →
  applications st !! i = None →
  applicationsOf st' k
  = if decide (applicationSchema.job a = k) then S (applicationsOf st k)
    else applicationsOf st k.
Proof.
  unfold applicationsOf. intros -> Hfree. destruct (decide _) as [Hk|Hk].
  - rewrite map_filter_insert_True by done. apply map_size_insert_None.
    apply map_lookup_filter_None. by left.
  - rewrite map_filter_insert_not'; [done|done|]. intros y Hy. congruence.
Qed.

Lemma applicationsOf_insert_same st st' i a a' k :
  applications st' = <[i := a']> (applications st) →
  applications st !! i = Some a →
  applicationSchema.job a' = applicationSchema.job a →
  applicationsOf st' k = applicationsOf st k.
Proof.
  unfold applicationsOf. intros -> Ha Hjob.
  destruct (decide (applicationSchema.job a = k)) as [Hk|Hk].
  - rewrite map_filter_insert_True by (cbn; congruence).
    apply map_size_insert_Some. exists a. by apply map_lookup_filter_Some.
  - rewrite map_filter_insert_not'; [done|cbn; congruence|].
    intros y Hy. cbn. congruence.
Qed.

Lemma applicationsOf_delete st st' i a k :
  applications st' = delete i (applications st) →
  applications st !! i = Some a →
  applicationsOf st k
  = if decide (applicationSchema.job a = k) then S (applicationsOf st' k)
    else applicationsOf st' k.
Proof.
  unfold applicationsOf. intros -> Ha. rewrite map_filter_delete.
  destruct (decide _) as [Hk|Hk].
  - rewrite map_size_delete_Some by (exists a; by apply map_lookup_filter_Some).
    assert (size (filter (λ d : N * applicationSchema.t, applicationSchema.job d.2 = k)
                    (applications st)) ≠ 0%nat); [|lia].
    apply (map_size_ne_0_lookup_2 _ i). exists a. by apply map_lookup_filter_Some.
  - rewrite map_size_delete_None; [done|]. apply map_lookup_filter_None. right.
    intros y Hy. cbn. congruence.
Qed.

Lemma applicationsOf_deleteMany st st' i k :
  applications st'
  = filter (λ d : N * applicationSchema.t, applicationSchema.job d.2 ≠ i) (applications st) →
  k ≠ i →
  applicationsOf st' k = applicationsOf st k.
Proof.
  unfold applicationsOf. intros -> Hne. f_equal. apply map_filter_filter_l.
  intros j a _. cbn. congruence.
Qed.

Lemma applicationsOf_unreferenced st k :
  (∀ i a, applications st !! i = Some a → applicationSchema.job a ≠ k) →
  applicationsOf st k = 0%nat.
Proof.
  intros H. unfold applicationsOf. apply map_size_empty_iff, map_empty_filter.
  intros i a Hi. cbn. by eapply H.
Qed.

Lemma applicationsCount_incViewsCount d j :
  jobSchema.applicationsCount (jobSchema.incViewsCount d j) = jobSchema.applicationsCount j.
Proof. by destruct j. Qed.

Lemma applicationsCount_incApplicationsCount d j :
  jobSchema.applicationsCount (jobSchema.incApplicationsCount d j)
  = jobSchema.applicationsCount j + d.
Proof. by destruct j. Qed.

(** A settled step keeps the counters exact and the references
    resolving. *)
Lemma settledStep_invariant st st' :
  settledStep st st' →
  countersExact st ∧ referencesResolve st →
  countersExact st' ∧ referencesResolve st'.
Proof.
  intros Hstep [Hc Hr].
  destruct Hstep as [|i job newId a Hjob Hfree Ha|i a a' Ha Hsame|i a Ha|i|i job Hfree Hzero
                    |i job job' Hjob Hsame|i]; [done|..].
  - split.
    + intros k j. cbn [jobs withJobs withApplications].
      erewrite (applicationsOf_insert_fresh st); [|reflexivity|exact Hfree].
      destruct (decide (i = k)) as [->|Hne].
      * rewrite lookup_insert_eq. intros [= <-].
        rewrite applicationsCount_incApplicationsCount, (Hc _ _ Hjob).
        destruct (decide _); [lia|done].
      * rewrite lookup_insert_ne by done. intros Hk.
        destruct (decide _); [congruence|by apply Hc].
    + intros k b. cbn [jobs applications withJobs withApplications]. intros Hk.
      apply lookup_insert_is_Some'.
      apply lookup_insert_change in Hk as [Hk|[-> ->]]; [right; by eapply Hr|by left].
  - split.
    + intros k j. cbn [jobs withApplications].
      erewrite (applicationsOf_insert_same st); [|reflexivity|exact Ha|exact Hsame]. apply Hc.
    + intros k b. cbn [jobs applications withApplications]. intros Hk.
      apply lookup_insert_change in Hk as [Hk|[-> ->]]; [by eapply Hr|].
      rewrite Hsame. by eapply Hr.
  - split.
    + intros k j. cbn [jobs withJobs withApplications]. intros Hk.
      pose proof (applicationsOf_delete st
                    (withJobs (alter (jobSchema.incApplicationsCount (-1))
                                 (applicationSchema.job a))
                       (withApplications (delete i) st)) i a k
                    ltac:(reflexivity) Ha) as Hn.
      destruct (decide (applicationSchema.job a = k)) as [Hjob|Hne].
      * rewrite Hjob, lookup_alter_eq in Hk.
        destruct (jobs st !! k) as [x|] eqn:Hx; [|done]. injection Hk as <-.
        rewrite applicationsCount_incApplicationsCount, (Hc _ _ Hx). lia.
      * rewrite lookup_alter_ne in Hk by done. specialize (Hc _ _ Hk). lia.
    + intros k b. cbn [jobs applications withJobs withApplications]. intros Hk.
      apply lookup_delete_Some in Hk as [_ Hk]. apply lookup_alter_is_Some. by eapply Hr.
  - split.
    + intros k j. cbn [jobs withJobs]. intros Hk.
      erewrite (applicationsOf_same st); [|reflexivity].
      apply lookup_alter_change in Hk as [Hk|(x & -> & Hx & ->)]; [by apply Hc|].
      rewrite applicationsCount_incViewsCount. by apply Hc.
    + intros k b. cbn [jobs applications withJobs]. intros Hk.
      apply lookup_alter_is_Some. by eapply Hr.
  - split.
    + intros k j. cbn [jobs withJobs]. intros Hk.
      erewrite (applicationsOf_same st); [|reflexivity].
      apply lookup_insert_change in Hk as [Hk|[-> ->]]; [by apply Hc|].
      rewrite Hzero, applicationsOf_unreferenced; [done|].
      intros n a Hn Ha. destruct (Hr _ _ Hn) as [x Hx]. congruence.
    + intros k b. cbn [jobs applications withJobs]. intros Hk.
      apply lookup_insert_is_Some'. right. by eapply Hr.
  - split.
    + intros k j. cbn [jobs withJobs]. intros Hk.
      erewrite (applicationsOf_same st); [|reflexivity].
      apply lookup_insert_change in Hk as [Hk|[-> ->]]; [by apply Hc|].
      rewrite Hsame. by apply Hc.
    + intros k b. cbn [jobs applications withJobs]. intros Hk.
      apply lookup_insert_is_Some'. right. by eapply Hr.
  - split.
    + intros k j. cbn [jobs withJobs withApplications]. intros Hk.
      apply lookup_delete_Some in Hk as [Hne Hk].
      erewrite (applicationsOf_deleteMany st); [|reflexivity|done]. by apply Hc.
    + intros k b. cbn [jobs applications withJobs withApplications]. intros Hk.
      apply map_lookup_filter_Some in Hk as [Hk Hne]. cbn in Hne.
      rewrite lookup_delete_ne by done. by eapply Hr.
Qed.

(** A body without [applicationsCount] leaves the counter of the new Job
    at its default. *)
Lemma new_applicationsCount creator body jobData job :
  member "applicationsCount" body = None →
  jobRoutes.normalizeTags body = inr jobData →
  Job.new creator jobData = inr job →
  jobSchema.applicationsCount job = 0.
Proof.
  intros Hnone Hnorm Hnew. unfold Job.new in Hnew.
  pose proof (applySet_frame _ _ _ _ Hnew jobSchema.PapplicationsCount) as H. cbn in H.
  assert (jobSchema.VNumber (jobSchema.applicationsCount job) = jobSchema.VNumber 0)
    as [= ->]; [|done].
  apply H. intros key v Hin Hp. apply pathOf_name in Hp. cbn in Hp. subst key.
  apply filter_In in Hin as [Hin _].
  destruct (normalizeTags_keys _ _ _ _ Hnorm Hin) as [v' Hin'].
  apply member_None_keys in Hnone. apply Hnone.
  apply list_elem_of_fmap. exists ("applicationsCount", v'). split; [done|].
  by apply list_elem_of_In.
Qed.

(** The step of a request none of whose storage calls is rejected. *)
Lemma handle_settled eng now faults rq st :
  noFault faults → leavesCounter rq → settledStep st (handle eng now faults rq st).2.
Proof.
  intros Hnf Hbody.
  destruct rq as [user newId errors jobId resume cover|user errors id status notes|user id
                 |user id|user errors rq|user id|user newId errors body|user id body|user id];
    cbn [handle].
  - apply_unfold.
    destruct errors as [|err errors]; mrun; [|constructor].
    destruct (castObjectId jobId) as [i|]; mrun; [|constructor].
    rewrite (Hnf 0%nat). mrun.
    destruct (jobs st !! i) as [job|] eqn:Hjob; mrun; [|constructor].
    destruct (jobSchema.isActive job); mrun; [|constructor].
    destruct (match jobSchema.applicationDeadline job with Some _ => _ | None => _ end);
      mrun; [constructor|].
    rewrite (Hnf 1%nat). mrun.
    destruct (List.find _ _); mrun; [constructor|].
    destruct (_ =? _)%N; mrun; [constructor|].
    rewrite (Hnf 2%nat). mrun.
    destruct (negb (applicationSchema.validate _)); mrun; [constructor|].
    destruct (applications st !! newId) eqn:Hfree; mrun; [constructor|].
    destruct (List.find _ _); mrun; [constructor|].
    rewrite (Hnf 3%nat). mrun. rewrite (Hnf 4%nat). mrun.
    unfold withJobs at 1. cbn [jobs applications users withApplications].
    rewrite (alter_present _ _ _ _ Hjob).
    by apply (SettledApplied st i job newId
                (applicationSchema.preSave false now
                   (Application.new i (Requester._id user) resume cover))).
  - unfold applicationRoutes.updateApplicationStatus, tryCatch, castId,
      Application.findById_populate, Application.saveModified, Application.findById.
    destruct errors as [|err errors]; mrun; [|constructor].
    destruct (castObjectId id) as [i|]; mrun; [|constructor].
    rewrite (Hnf 0%nat). mrun.
    destruct (applications st !! i) as [a|] eqn:Ha; cbn [fmap option_fmap option_map]; mrun;
      [|constructor].
    cbn [Application.job Application.doc].
    destruct (jobs st !! applicationSchema.job a) as [job|]; mrun; [|constructor].
    destruct (negb (_ =? _)%N && _); mrun; [constructor|].
    rewrite (Hnf 1%nat). mrun.
    destruct (negb (applicationSchema.validate _)); mrun; [constructor|].
    rewrite Ha. mrun. erewrite preSave_keeps_set_reviewedAt by reflexivity.
    rewrite (Hnf 2%nat). mrun. by eapply SettledReviewed.
  - rewrite getApplication_store. constructor.
  - unfold applicationRoutes.withdrawApplication, tryCatch, castId, Application.findById,
      Application.findByIdAndDelete, Job.findByIdAndUpdate_incApplicationsCount.
    destruct (castObjectId id) as [i|]; mrun; [|constructor].
    rewrite (Hnf 0%nat). mrun.
    destruct (applications st !! i) as [a|] eqn:Ha; mrun; [|constructor].
    destruct (negb (_ =? _)%N); mrun; [constructor|].
    destruct (existsb _ _); mrun; [constructor|].
    rewrite (Hnf 1%nat). mrun. rewrite (Hnf 2%nat). mrun.
    by apply SettledWithdrawn.
  - rewrite getJobs_store. constructor.
  - unfold jobRoutes.getJob, tryCatch, castId, Job.findById,
      Job.findByIdAndUpdate_incViewsCount, Application.findOne.
    destruct (castObjectId id) as [i|]; mrun; [|constructor].
    rewrite (Hnf 0%nat). mrun.
    destruct (jobs st !! i) as [job|]; mrun; [|constructor].
    destruct (jobSchema.isActive job); mrun; [|constructor].
    rewrite (Hnf 1%nat). mrun.
    destruct user as [user|]; mrun; [rewrite (Hnf 2%nat); mrun|]; apply SettledViewed.
  - unfold jobRoutes.createJob, tryCatch, lift, Job.save, Job.findById.
    destruct errors as [|err errors]; mrun; [|constructor].
    destruct (jobRoutes.normalizeTags body) as [e|jobData] eqn:Hnorm; mrun; [constructor|].
    destruct (Job.new _ jobData) as [e|job] eqn:Hnew; mrun; [constructor|].
    rewrite (Hnf 0%nat). mrun.
    destruct (negb (jobSchema.validate job)); mrun; [constructor|].
    destruct (jobSchema.preSave job) as [e|job'] eqn:Hhook; mrun; [constructor|].
    destruct (jobs st !! newId) eqn:Hfree; mrun; [constructor|].
    apply preSave_ordered in Hhook as [-> _].
    rewrite (Hnf 1%nat). mrun. apply SettledCreated; [done|].
    by eapply new_applicationsCount.
  - unfold jobRoutes.updateJob, tryCatch, castId, Job.findById, Job.findByIdAndUpdate_set, lift.
    destruct (castObjectId id) as [i|]; mrun; [|constructor].
    rewrite (Hnf 0%nat). mrun.
    destruct (jobs st !! i) as [job|] eqn:Hjob; mrun; [|constructor].
    destruct (negb (_ =? _)%N && _); mrun; [constructor|].
    destruct (jobRoutes.normalizeTags _) as [e|updates] eqn:Hnorm; mrun; [constructor|].
    rewrite (Hnf 1%nat). mrun. rewrite Hjob. mrun.
    destruct (Job.applySet false updates job) as [e|job'] eqn:Hset; mrun; [constructor|].
    destruct (Job.updateValidators updates job'); mrun; [|constructor].
    eapply SettledUpdated; [exact Hjob|].
    assert (H : jobSchema.get jobSchema.PapplicationsCount job'
                = jobSchema.get jobSchema.PapplicationsCount job).
    { eapply applySet_frame; [exact Hset|].
      intros key v Hin Hpath. apply pathOf_name in Hpath. subst key.
      destruct (normalizeTags_keys _ _ _ _ Hnorm Hin) as [v' Hin'].
      apply pickUpdates_allowed, allowed_spec in Hin'. discriminate. }
    cbn in H. by injection H.
  - unfold jobRoutes.deleteJob, tryCatch, castId, Job.findById, Job.findByIdAndDelete,
      Application.deleteMany.
    destruct (castObjectId id) as [i|]; mrun; [|constructor].
    rewrite (Hnf 0%nat). mrun.
    destruct (jobs st !! i) as [job|]; mrun; [|constructor].
    destruct (negb (_ =? _)%N && _); mrun; [constructor|].
    rewrite (Hnf 1%nat). mrun. rewrite (Hnf 2%nat). mrun.
    apply (SettledDeleted st i).
Qed.

(** X27. The counter is exact as long as nothing goes wrong.  Along every
    sequence of requests none of which meets a rejected storage call, and
    whose [Create] bodies give no [applicationsCount], two properties of
    the store are kept: [applicationsCount] of every stored Job is the
    number of the stored Applications to it, and every stored
    Application is to a stored Job. *)
Theorem serve_keeps_counters eng trace : ∀ st,
  settled trace →
  countersExact st → referencesResolve st →
  countersExact (serve eng trace st) ∧ referencesResolve (serve eng trace st).
Proof.
  induction trace as [|[[now faults] rq] rest IH]; intros st Htrace Hc Hr; [done|].
  apply Forall_cons in Htrace as [[Hnf Hbody] Hrest]. cbn [serve].
  destruct (settledStep_invariant st (handle eng now faults rq st).2
              (handle_settled eng now faults rq st Hnf Hbody) (conj Hc Hr)) as [Hc' Hr'].
  by apply IH.
Qed.

(** The theorem at work: a Job is created, [seeker] applies to it, the
    owner shortlists the Application, and [seeker] withdraws it. *)
Lemma serve_keeps_counters_witness :
  countersExact
    (serve castingEngine
       [(100, [], Create recruiter 10%N [] (jobBody 3000 5000));
        (200, [], Apply seeker 11%N [] id10 cv None);
        (300, [], UpdateStatus recruiter [] id11 "shortlisted" None);
        (400, [], Withdraw seeker id11)] emptyStore).
Proof.
  apply serve_keeps_counters.
  - repeat (apply Forall_cons; split; [split; [by intros [|[|[|[|[|n]]]]]|done]|]).
    apply Forall_nil_2.
  - intros k j H. cbn in H. by rewrite lookup_empty in H.
  - intros i a H. cbn in H. by rewrite lookup_empty in H.
Defined.

(** ** Listing the Applications *)

(** What the two queries of a listing return, and that they leave the
    store alone. *)
Lemma listing_run f newestFirst skip limit st faults :
  ∃ r rest,
    promiseAll (applicationPages.find f newestFirst skip limit)
      (applicationPages.countDocuments f) (st, faults) = (r, (st, rest))
    ∧ ∀ l total, r = inr (l, total) →
        ∃ k n, skip = Some k ∧ limit = Some n ∧ 0 <= k ∧ 1 <= n
               ∧ l = take (Z.to_nat n) (drop (Z.to_nat k)
                       (sortBy newestFirst
                          (List.filter (fun d => applicationPages.satisfies f d.2)
                             (map_to_list (applications st)))))
               ∧ total = Z.of_nat (length
                           (List.filter (fun d => applicationPages.satisfies f d.2)
                              (map_to_list (applications st)))).
Proof.
  unfold applicationPages.find, applicationPages.countDocuments. mrun.
  destruct (faultAt 0 faults); mrun.
  { destruct (faultAt 1 faults); mrun; eexists _, _; (split; [reflexivity|done]). }
  destruct skip as [k|]; mrun.
  2:{ destruct (faultAt 1 faults); mrun; eexists _, _; (split; [reflexivity|done]). }
  destruct limit as [n|]; mrun.
  2:{ destruct (faultAt 1 faults); mrun; eexists _, _; (split; [reflexivity|done]). }
  destruct (0 <=? k) eqn:Hk; mrun.
  2:{ destruct (faultAt 1 faults); mrun; eexists _, _; (split; [reflexivity|done]). }
  destruct (1 <=? n) eqn:Hn; mrun.
  2:{ destruct (faultAt 1 faults); mrun; eexists _, _; (split; [reflexivity|done]). }
  destruct (faultAt 1 faults); mrun; eexists _, _; (split; [reflexivity|]); [done|].
  intros l total [= <- <-]. exists k, n. split_and!; try done; lia.
Qed.

(** The same for the listing that populates the Job of each
    Application. *)
Lemma listing_own_run f newestFirst skip limit st faults :
  ∃ r rest,
    promiseAll (applicationPages.find_populate_job f newestFirst skip limit)
      (applicationPages.countDocuments f) (st, faults) = (r, (st, rest))
    ∧ ∀ l total, r = inr (l, total) →
        ∃ k n, skip = Some k ∧ limit = Some n ∧ 0 <= k ∧ 1 <= n
               ∧ l = (fun d : N * applicationSchema.t =>
                        (d.1, d.2, JobCard.select <$> jobs st !! applicationSchema.job d.2))
                     <$> take (Z.to_nat n) (drop (Z.to_nat k)
                           (sortBy newestFirst
                              (List.filter (fun d => applicationPages.satisfies f d.2)
                                 (map_to_list (applications st)))))
               ∧ total = Z.of_nat (length
                           (List.filter (fun d => applicationPages.satisfies f d.2)
                              (map_to_list (applications st)))).
Proof.
  unfold applicationPages.find_populate_job, applicationPages.countDocuments. mrun.
  destruct (faultAt 0 faults); mrun.
  { destruct (faultAt 1 faults); mrun; eexists _, _; (split; [reflexivity|done]). }
  destruct skip as [k|]; mrun.
  2:{ destruct (faultAt 1 faults); mrun; eexists _, _; (split; [reflexivity|done]). }
  destruct limit as [n|]; mrun.
  2:{ destruct (faultAt 1 faults); mrun; eexists _, _; (split; [reflexivity|done]). }
  destruct (0 <=? k) eqn:Hk; mrun.
  2:{ destruct (faultAt 1 faults); mrun; eexists _, _; (split; [reflexivity|done]). }
  destruct (1 <=? n) eqn:Hn; mrun.
  2:{ destruct (faultAt 1 faults); mrun; eexists _, _; (split; [reflexivity|done]). }
  destruct (faultAt 1 faults); mrun; eexists _, _; (split; [reflexivity|]); [done|].
  intros l total [= <- <-]. exists k, n. split_and!; try done; lia.
Qed.

(** X28. The listing of the requester's own Applications.  It never
    changes the store.  When it returns a page, every Application on it
    is stored under its identifier and is the requester's, with the status
    the request asks for if it asks for one, and comes with the card of
    its Job as stored -- or with [null] in its place when that Job is no
    longer stored, which does not make the listing fail; none comes
    twice; the page is no longer than the limit, which is at least 1 (the
    query is served for no other limit); and [totalApplications] counts
    the stored Applications of the requester with that status. *)
Theorem getMyApplications_sound user errors page limit status newestFirst faults st :
  let result :=
    applicationPages.getMyApplications user errors page limit status newestFirst faults st in
  result.2 = st
  ∧ ∀ listed pagination,
      result.1 = applicationPages.ListedOwn listed pagination →
      let queryObj :=
        applicationPages.mkFilter (Some (Requester._id user)) None
          (applicationPages.withStatus status) in
      NoDup ((fun e : N * applicationSchema.t * option JobCard.t => e.1.1) <$> listed)
      ∧ (∀ i a card, (i, a, card) ∈ listed →
           applications st !! i = Some a
           ∧ applicationSchema.applicant a = Requester._id user
           ∧ (∀ s, truthy status = true → status = Some s → applicationSchema.status a = s)
           ∧ card = JobCard.select <$> jobs st !! applicationSchema.job a)
      ∧ (∃ n, applicationPages.limit pagination = Some n ∧ 1 <= n
              ∧ Z.of_nat (length listed) <= n)
      ∧ applicationPages.totalApplications pagination
        = Z.of_nat (length (List.filter (fun d => applicationPages.satisfies queryObj d.2)
                              (map_to_list (applications st)))).
Proof.
  intros result. subst result.
  unfold applicationPages.getMyApplications, tryCatchAs.
  destruct errors as [|err errors]; [|by split].
  mred. rewrite bind_run.
  match goal with
  | |- context [promiseAll (applicationPages.find_populate_job ?f ?nf ?skip ?lim) _
                  (st, faults)] =>
      destruct (listing_own_run f nf skip lim st faults) as (r & rest & -> & Hr)
  end.
  destruct r as [e|[l total]]; mrun; [by split|]. split; [done|].
  intros listed pagination [= <- <-].
  destruct (Hr l total eq_refl) as (k & n & _ & Hn & Hk & Hn1 & Hl & Htotal). cbn zeta.
  destruct (page_spec fst newestFirst
              (fun d : N * applicationSchema.t =>
                 applicationPages.satisfies
                   (applicationPages.mkFilter (Some (Requester._id user)) None
                      (applicationPages.withStatus status)) d.2)
              (map_to_list (applications st)) (Z.to_nat k) (Z.to_nat n)
              (NoDup_fst_map_to_list _)) as (Hnd & Hin & Hlen).
  rewrite Hn. cbn [applicationPages.limit applicationPages.totalApplications].
  rewrite Hl. split_and!; try done.
  - rewrite <- list_fmap_compose.
    erewrite list_fmap_ext; [exact Hnd|]. by intros ? [? ?].
  - intros i a card Hia.
    apply list_elem_of_fmap in Hia as ([i' a'] & [= -> -> ->] & Hia). cbn [fst snd].
    apply Hin in Hia as [Hstored Hsat].
    apply elem_of_map_to_list in Hstored. cbn in Hsat.
    unfold applicationPages.satisfies in Hsat.
    cbn [applicationPages.applicant applicationPages.job applicationPages.status optionally]
      in Hsat.
    rewrite andb_true_r in Hsat. apply andb_true_iff in Hsat as [Happ Hst].
    apply N.eqb_eq in Happ. split_and!; try done.
    intros s Ht ->. unfold applicationPages.withStatus in Hst. rewrite Ht in Hst.
    by apply String.eqb_eq in Hst.
  - exists n. split_and!; [done|done|]. rewrite length_fmap, Hlen. lia.
Qed.

(** The theorem at work: [seeker] lists the own Applications, of which
    the store holds one, to Job 10. *)
Lemma getMyApplications_sound_witness :
  let st := storeWithApplication (sampleJob None None None) pendingApplication in
  let card := Some (JobCard.select (sampleJob None None None)) in
  (applicationPages.getMyApplications seeker [] None None None (fun _ _ => true) [] st).1
    = applicationPages.ListedOwn [(11%N, pendingApplication, card)]
        (applicationPages.mkPagination (Some 1) (Some 1) 1 (Some 10))
  ∧ applications st !! 11%N = Some pendingApplication
  ∧ applicationSchema.applicant pendingApplication = Requester._id seeker
  ∧ card = JobCard.select <$> jobs st !! applicationSchema.job pendingApplication.
Proof.
  intros st card.
  assert (Hr : (applicationPages.getMyApplications seeker [] None None None
                  (fun _ _ => true) [] st).1
               = applicationPages.ListedOwn [(11%N, pendingApplication, card)]
                   (applicationPages.mkPagination (Some 1) (Some 1) 1 (Some 10)))
    by (vm_compute; reflexivity).
  split; [exact Hr|].
  destruct (getMyApplications_sound seeker [] None None None (fun _ _ => true) [] st)
    as [_ H].
  destruct (H _ _ Hr) as (_ & Hin & _).
  destruct (Hin 11%N pendingApplication card ltac:(by left)) as (H1 & H2 & _ & H3).
  by split_and!.
Defined.

(** X29. The listing of the Applications to a Job.  It never changes the
    store.  On a stored Job, past validation and with the lookup served,
    it answers 403 exactly when the requester is neither the owner of the
    Job nor an administrator.  When it returns a page, the requester is
    the one or the other, the summary is that of the Job, and every
    Application on the page is stored under its identifier and is to
    this Job; none comes twice. *)
Theorem getJobApplications_sound user errors jobId page limit status newestFirst faults st :
  let result :=
    applicationPages.getJobApplications user errors jobId page limit status newestFirst
      faults st in
  result.2 = st
  ∧ (∀ i job, errors = [] → castObjectId jobId = Some i → jobs st !! i = Some job →
              faultAt 0 faults = false →
              (result.1 = applicationPages.Failed (failure 403
                 "Access denied. You can only view applications for your own jobs.")
               ↔ ¬ mayManage user job))
  ∧ ∀ listed summary pagination,
      result.1 = applicationPages.Listed listed summary pagination →
      ∃ i job,
        castObjectId jobId = Some i
        ∧ jobs st !! i = Some job
        ∧ mayManage user job
        ∧ summary = Some (applicationPages.mkJobSummary i (jobSchema.title job)
                            (jobSchema.company job))
        ∧ NoDup (fst <$> listed)
        ∧ ∀ k a, (k, a) ∈ listed →
            applications st !! k = Some a ∧ applicationSchema.job a = i.
Proof.
  intros result. subst result.
  unfold applicationPages.getJobApplications, tryCatchAs, castId, Job.findById.
  destruct errors as [|err errors]; mrun; [|by split_and!].
  destruct (castObjectId jobId) as [i|]; mrun; [|by split_and!].
  destruct (faultAt 0 faults) eqn:F0; mrun; [by split_and!|].
  destruct (jobs st !! i) as [job|] eqn:Hjob; mrun.
  2:{ split_and!; [done| |done]. intros i' job' _ [= <-] Hj. congruence. }
  destruct (negb (_ =? _)%N && _) eqn:Hdenied.
  { mrun. split_and!; [done| |done]. intros i' job' _ [= <-] Hj' _.
    rewrite Hjob in Hj'. injection Hj' as <-.
    split; [|done]. intros _. by apply denied_iff. }
  mred. rewrite bind_run.
  assert (Hmay : mayManage user job).
  { destruct (decide (mayManage user job)) as [|Hno]; [done|].
    apply denied_iff in Hno. congruence. }
  match goal with
  | |- context [promiseAll (applicationPages.find ?f ?nf ?skip ?lim) _ (st, ?fs)] =>
      destruct (listing_run f nf skip lim st fs) as (r & rest & -> & Hr)
  end.
  destruct r as [e|[l total]]; mrun.
  { split_and!; [done| |done]. intros i' job' _ [= <-] Hj' _.
    rewrite Hjob in Hj'. injection Hj' as <-.
    split; [done|]. intros Hno. by destruct Hno. }
  split_and!; [done| |].
  { intros i' job' _ [= <-] Hj' _. rewrite Hjob in Hj'. injection Hj' as <-.
    split; [done|]. intros Hno. by destruct Hno. }
  intros listed summary pagination [= <- <- <-].
  destruct (Hr l total eq_refl) as (k & n & _ & Hn & Hk & Hn1 & Hl & Htotal).
  destruct (page_spec fst newestFirst
              (fun d : N * applicationSchema.t =>
                 applicationPages.satisfies
                   (applicationPages.mkFilter None (Some i)
                      (applicationPages.withStatus status)) d.2)
              (map_to_list (applications st)) (Z.to_nat k) (Z.to_nat n)
              (NoDup_fst_map_to_list _)) as (Hnd & Hin & Hlen).
  rewrite <- Hl in Hnd, Hin, Hlen.
  exists i, job. split_and!; try done.
  intros k' a Hka. apply Hin in Hka as [Hstored Hsat].
  apply elem_of_map_to_list in Hstored. cbn in Hsat.
  unfold applicationPages.satisfies in Hsat.
  cbn [applicationPages.applicant applicationPages.job applicationPages.status optionally]
    in Hsat.
  apply andb_true_iff in Hsat as [Hj _]. cbn in Hj. by apply N.eqb_eq in Hj.
Qed.

(** The theorem at work: [recruiter] lists the Applications to the own
    Job 10, and [seeker] is refused. *)
Lemma getJobApplications_sound_witness :
  let st := storeWithApplication (sampleJob None None None) pendingApplication in
  (applicationPages.getJobApplications seeker [] id10 None None None (fun _ _ => true) [] st).1
    = applicationPages.Failed (failure 403
        "Access denied. You can only view applications for your own jobs.")
  ∧ ∃ i job, castObjectId id10 = Some i ∧ jobs st !! i = Some job ∧ mayManage recruiter job.
Proof.
  intros st. split.
  - destruct (getJobApplications_sound seeker [] id10 None None None (fun _ _ => true) [] st)
      as (_ & H & _).
    apply (H 10%N (sampleJob None None None) eq_refl eq_refl eq_refl eq_refl).
    intros [Hm|Hm]; discriminate.
  - destruct (getJobApplications_sound recruiter [] id10 None None None (fun _ _ => true)
                [] st) as (_ & _ & H).
    destruct (H [(11%N, pendingApplication)]
                (Some (applicationPages.mkJobSummary 10%N "Engineer" "Acme"))
                (applicationPages.mkPagination (Some 1) (Some 1) 1 (Some 10))
                ltac:(vm_compute; reflexivity)) as (i & job & H1 & H2 & H3 & _).
    by exists i, job.
Defined.
